(** * tt-v-bot: the operator console's validator, retry-fetch unit,
      synchronisation coordinator and metrics simulator

    The development embeds the parts of [src/unnamed/part_000] (the
    canonical console) and of [src/index.tsx] (its older near-duplicate)
    that carry engineering content:

    - [Js]: the ECMAScript string primitives the code calls
      ([split], [trim], [join], [includes], template-literal numbers);
    - [Binary64]: the arithmetic of ECMAScript numbers;
    - [Regex]: a backtracking matcher for the regular-expression fragment
      used by [PROXY_REGEX];
    - [IndexTsx] and [Part000]: the two source files; asynchronous code
      is cut at its [await]s, the state it shares is an explicit [Store],
      and a session is a step relation with one step per turn of the
      event loop;
    - [Trace] and [Words]: observations on runs and the wording of the
      specification, used to state the properties that follow;
    - [Console]: the rest of the console of [part_000] (persistence, the
      marked rows, log export, the harvest and start handlers, the
      gauges);
    - [Legacy]: the coordinator of [src/index.tsx];
    - [Observe]: further observations and sample runs. *)

From Stdlib Require Import List NArith ZArith QArith Qround Qpower Lqa Bool Arith Lia.
From Stdlib Require Import String Ascii Floats Sorted.
Import ListNotations.
Close Scope Q_scope.

Set Implicit Arguments.

(* ================================================================= *)
(** ** ECMAScript strings *)

Module Js.

(** A JavaScript string is a sequence of UTF-16 code units. *)
Definition char := N.
Definition jsstring := list char.

(** String literals of the source, written as Rocq strings. *)
Definition lit (s : string) : jsstring :=
  map N_of_ascii (list_ascii_of_string s).

(** [a === b] on strings. *)
Fixpoint eqb (a b : jsstring) : bool :=
  match a, b with
  | [], [] => true
  | x :: a', y :: b' => (x =? y)%N && eqb a' b'
  | _, _ => false
  end.

(** [WhiteSpace] and [LineTerminator] code points, the characters
    [String.prototype.trim] strips. *)
Definition isWhiteSpace (c : char) : bool :=
  ((9 <=? c) && (c <=? 13) || (c =? 32) || (c =? 160) || (c =? 5760)
   || (8192 <=? c) && (c <=? 8202)
   || (c =? 8232) || (c =? 8233) || (c =? 8239) || (c =? 8287)
   || (c =? 12288) || (c =? 65279))%N.

Fixpoint trimStart (s : jsstring) : jsstring :=
  match s with
  | c :: s' => if isWhiteSpace c then trimStart s' else s
  | [] => []
  end.

Definition trimEnd (s : jsstring) : jsstring := rev (trimStart (rev s)).

Definition trim (s : jsstring) : jsstring := trimEnd (trimStart s).

(** [s.split(sep)] for a one-character separator: always at least one
    piece, the pieces never contain the separator. *)
Fixpoint split (sep : char) (s : jsstring) : list jsstring :=
  match s with
  | [] => [[]]
  | c :: s' =>
      if (c =? sep)%N then [] :: split sep s'
      else match split sep s' with
           | piece :: rest => (c :: piece) :: rest
           | [] => [[c]]
           end
  end.

(** [a.join(sep)]. *)
Fixpoint join (sep : jsstring) (l : list jsstring) : jsstring :=
  match l with
  | [] => []
  | [x] => x
  | x :: rest => x ++ sep ++ join sep rest
  end.

Fixpoint startsWith (p s : jsstring) : bool :=
  match p, s with
  | [], _ => true
  | a :: p', b :: s' => (a =? b)%N && startsWith p' s'
  | _ :: _, [] => false
  end.

(** [s.includes(p)]. *)
Fixpoint includes (p s : jsstring) : bool :=
  startsWith p s ||
  match s with
  | [] => false
  | _ :: s' => includes p s'
  end.

(** Decimal rendering of a non-negative integer inside a template
    literal. *)
Definition digitChar (d : nat) : char := (48 + N.of_nat d)%N.

Fixpoint ofNat_aux (fuel n : nat) (acc : jsstring) : jsstring :=
  match fuel with
  | O => acc
  | S fuel' =>
      let acc' := digitChar (n mod 10) :: acc in
      if n / 10 =? 0 then acc' else ofNat_aux fuel' (n / 10) acc'
  end.

Definition ofNat (n : nat) : jsstring := ofNat_aux (S n) n [].

(** [a.slice(-n)]: the last [n] elements (all of them when there are fewer). *)
Definition sliceLast {A} (n : nat) (l : list A) : list A :=
  skipn (List.length l - n) l.

Definition newline : char := 10%N.

End Js.

(* ================================================================= *)
(** ** ECMAScript numbers

    A number of the source is an IEEE 754 binary64.  A finite one is a
    rational, and each arithmetic operation of the source is the exact
    operation followed by [round]: the nearest binary64, ties to the even
    significand (53 bits, exponents from -1074 up).  Results of magnitude
    [2^1024] and more, where the language has [Infinity], are outside
    this model. *)

Module Binary64.

Definition pow2 (e : Z) : Q := (2 ^ e)%Q.

(** [floor (log2 x)] for a positive [x]. *)
Definition ilog2 (x : Q) : Z :=
  let k := (Z.log2 (Qnum x) - Z.log2 (Zpos (Qden x)))%Z in
  if Qle_bool (pow2 k) x then k else (k - 1)%Z.

(** The nearest integer, ties to even. *)
Definition nearestEven (x : Q) : Z :=
  let f := Qfloor x in
  match Qcompare (x - inject_Z f) (1 # 2) with
  | Lt => f
  | Gt => (f + 1)%Z
  | Eq => if Z.even f then f else (f + 1)%Z
  end.

(** The exponent of the last place of the binary64 numbers around a
    positive [x]; -1074 in the subnormal range. *)
Definition ulpExp (x : Q) : Z := Z.max (ilog2 x - 52) (-1074).

Definition roundPos (x : Q) : Q :=
  (inject_Z (nearestEven (x / pow2 (ulpExp x))) * pow2 (ulpExp x))%Q.

Definition round (x : Q) : Q :=
  match Qcompare x 0 with
  | Eq => 0%Q
  | Gt => roundPos x
  | Lt => (- roundPos (- x))%Q
  end.

(** A decimal literal of the source denotes the nearest binary64. *)
Definition lit (x : Q) : Q := round x.

(** [x + y], [x - y], [x * y], [x / y] *)
Definition add (x y : Q) : Q := round (x + y).
Definition sub (x y : Q) : Q := round (x - y).
Definition mul (x y : Q) : Q := round (x * y).
Definition div (x y : Q) : Q := round (x / y).

(** [Math.floor(x)] *)
Definition floor (x : Q) : Z := Qfloor x.

(** [a + b] on integer-valued numbers; the rounded sum is an integer. *)
Definition addZ (a b : Z) : Z := Qfloor (round (inject_Z (a + b))).

(** The largest binary64 below 1: [Math.random()] returns a binary64 in
    [0, 1). *)
Definition maxDraw : Q := (1 - (1 # 9007199254740992))%Q.

(** The rational a finite primitive float of Rocq stands for, to compare
    the model with the machine's binary64 arithmetic. *)
Definition ofFloat (f : float) : Q :=
  match Prim2SF f with
  | S754_finite s m e =>
      ((if s then -1 else 1) * inject_Z (Zpos m) * pow2 e)%Q
  | _ => 0%Q
  end.

End Binary64.

(* ================================================================= *)
(** ** Regular expressions

    The fragment of ECMAScript patterns that [PROXY_REGEX] is written in:
    character ranges, concatenation, alternation, [?] and bounded
    repetition, under the anchors [^] and [$] (no flags, so [$] is the end
    of the input). *)

Module Regex.
Import Js.

Inductive regex : Type :=
| Eps
| Rng (lo hi : char)
| Seq (a b : regex)
| Alt (a b : regex)
| Opt (a : regex).

(** A literal character, and a class [[a-b]]. *)
Definition chr (a : ascii) : regex := Rng (N_of_ascii a) (N_of_ascii a).
Definition rng (a b : ascii) : regex := Rng (N_of_ascii a) (N_of_ascii b).

Fixpoint seqs (l : list regex) : regex :=
  match l with
  | [] => Eps
  | [r] => r
  | r :: rest => Seq r (seqs rest)
  end.

Fixpoint alts (r : regex) (l : list regex) : regex :=
  match l with
  | [] => r
  | r' :: rest => Alt r (alts r' rest)
  end.

(** [r{n}] and [r{0,n}]. *)
Fixpoint times (n : nat) (r : regex) : regex :=
  match n with
  | O => Eps
  | S n' => Seq r (times n' r)
  end.

Fixpoint upTo (n : nat) (r : regex) : regex :=
  match n with
  | O => Eps
  | S n' => Seq (Opt r) (upTo n' r)
  end.

(** Backtracking matcher with a continuation for the rest of the
    pattern; alternatives are tried left to right and [?] is greedy. *)
Fixpoint run (r : regex) (s : jsstring) (k : jsstring -> bool) : bool :=
  match r with
  | Eps => k s
  | Rng lo hi =>
      match s with
      | c :: s' => (lo <=? c)%N && (c <=? hi)%N && k s'
      | [] => false
      end
  | Seq a b => run a s (fun s' => run b s' k)
  | Alt a b => run a s k || run b s k
  | Opt a => run a s k || k s
  end.

Definition atEnd (s : jsstring) : bool :=
  match s with [] => true | _ :: _ => false end.

(** [/^r$/.test(s)]. *)
Definition test (r : regex) (s : jsstring) : bool := run r s atEnd.

(** The language of a pattern, for reasoning about [run]. *)
Inductive matches : regex -> jsstring -> Prop :=
| MEps : matches Eps []
| MRng lo hi c : (lo <= c)%N -> (c <= hi)%N -> matches (Rng lo hi) [c]
| MSeq a b s1 s2 : matches a s1 -> matches b s2 -> matches (Seq a b) (s1 ++ s2)
| MAltL a b s : matches a s -> matches (Alt a b) s
| MAltR a b s : matches b s -> matches (Alt a b) s
| MOptSome a s : matches a s -> matches (Opt a) s
| MOptNone a : matches (Opt a) [].

End Regex.

(* ================================================================= *)
(** ** Shared data types *)

(** [type SyncState]. *)
Inductive SyncState : Type :=
| idle | syncing | retrying | success | error | cancelled.

(** [LogEntry['type']]; the older file has no [packet]. *)
Inductive LogType : Type :=
| LInfo | LSuccess | LWarning | LError | LPacket.

Record LogEntry : Type := mkLog {
  timestamp : Js.jsstring;
  message : Js.jsstring;
  type : LogType
}.

Record HistoryEntry : Type := mkHistory {
  time : Js.jsstring;
  views : Z
}.

(** A thrown value as the handlers inspect it: [err.name], [err.message]. *)
Record JsError : Type := mkError {
  name : Js.jsstring;
  errMessage : Js.jsstring
}.

(** What [await fetch(...)] settles to. *)
Inductive FetchResult : Type :=
| Response (ok : bool) (status : nat) (statusText : Js.jsstring)
| FetchRejected (e : JsError).

(** What [await response.text()] settles to. *)
Inductive TextResult : Type :=
| Body (content : Js.jsstring)
| TextRejected (e : JsError).

Inductive Side : Type := A | B.

(** Calls made to the external collaborators, in the order they are
    made: the remote fetch, the timer behind [wait] and the log sink. *)
Inductive Call : Type :=
| CFetch (side : Side) (url : Js.jsstring)
| CWait (ms : N)
| CLog (msg : Js.jsstring) (ty : LogType).

(** The component state the synchronisation code reads and writes.
    [controller] is [abortControllerRef.current !== null], [aborted] is
    [signal.aborted] of the session's controller, [clock] is what
    [new Date().toLocaleTimeString()] currently reads, and [calls] keeps
    the calls made so far, oldest first. *)
Record Store : Type := mkStore {
  proxiesLeft : Js.jsstring;
  proxiesRight : Js.jsstring;
  logs : list LogEntry;
  statusA : SyncState;
  statusB : SyncState;
  retriesA : nat;
  retriesB : nat;
  controller : bool;
  aborted : bool;
  clock : Js.jsstring;
  calls : list Call
}.

Definition withProxiesLeft (v : Js.jsstring) (s : Store) : Store :=
  mkStore v (proxiesRight s) (logs s) (statusA s) (statusB s) (retriesA s)
          (retriesB s) (controller s) (aborted s) (clock s) (calls s).
Definition withProxiesRight (v : Js.jsstring) (s : Store) : Store :=
  mkStore (proxiesLeft s) v (logs s) (statusA s) (statusB s) (retriesA s)
          (retriesB s) (controller s) (aborted s) (clock s) (calls s).
Definition withLogs (v : list LogEntry) (s : Store) : Store :=
  mkStore (proxiesLeft s) (proxiesRight s) v (statusA s) (statusB s)
          (retriesA s) (retriesB s) (controller s) (aborted s) (clock s)
          (calls s).
Definition withStatusA (v : SyncState) (s : Store) : Store :=
  mkStore (proxiesLeft s) (proxiesRight s) (logs s) v (statusB s)
          (retriesA s) (retriesB s) (controller s) (aborted s) (clock s)
          (calls s).
Definition withStatusB (v : SyncState) (s : Store) : Store :=
  mkStore (proxiesLeft s) (proxiesRight s) (logs s) (statusA s) v
          (retriesA s) (retriesB s) (controller s) (aborted s) (clock s)
          (calls s).
Definition withRetriesA (v : nat) (s : Store) : Store :=
  mkStore (proxiesLeft s) (proxiesRight s) (logs s) (statusA s) (statusB s)
          v (retriesB s) (controller s) (aborted s) (clock s) (calls s).
Definition withRetriesB (v : nat) (s : Store) : Store :=
  mkStore (proxiesLeft s) (proxiesRight s) (logs s) (statusA s) (statusB s)
          (retriesA s) v (controller s) (aborted s) (clock s) (calls s).
Definition withController (v : bool) (s : Store) : Store :=
  mkStore (proxiesLeft s) (proxiesRight s) (logs s) (statusA s) (statusB s)
          (retriesA s) (retriesB s) v (aborted s) (clock s) (calls s).
Definition withAborted (v : bool) (s : Store) : Store :=
  mkStore (proxiesLeft s) (proxiesRight s) (logs s) (statusA s) (statusB s)
          (retriesA s) (retriesB s) (controller s) v (clock s) (calls s).
Definition withClock (v : Js.jsstring) (s : Store) : Store :=
  mkStore (proxiesLeft s) (proxiesRight s) (logs s) (statusA s) (statusB s)
          (retriesA s) (retriesB s) (controller s) (aborted s) v (calls s).
Definition call (c : Call) (s : Store) : Store :=
  mkStore (proxiesLeft s) (proxiesRight s) (logs s) (statusA s) (statusB s)
          (retriesA s) (retriesB s) (controller s) (aborted s) (clock s)
          (calls s ++ [c]).

Definition status (side : Side) (s : Store) : SyncState :=
  match side with A => statusA s | B => statusB s end.

Definition proxies (side : Side) (s : Store) : Js.jsstring :=
  match side with A => proxiesLeft s | B => proxiesRight s end.

(** [side === 'A' ? setStatusA : setStatusB]. *)
Definition setStatus (side : Side) (v : SyncState) (s : Store) : Store :=
  match side with A => withStatusA v s | B => withStatusB v s end.

Definition setRetries (side : Side) (v : nat) (s : Store) : Store :=
  match side with A => withRetriesA v s | B => withRetriesB v s end.

Definition sideName (side : Side) : Js.jsstring :=
  match side with A => Js.lit "A" | B => Js.lit "B" end.

(** Where one invocation of [fetchWithRetry] is suspended, or how it
    settled: [Promise<string | null>]. *)
Inductive Pc : Type :=
| AwaitFetch (attempt : nat)
| AwaitText (attempt : nat)
| AwaitWait (attempt : nat)
| Resolved (content : option Js.jsstring)
| Rejected (e : JsError).

Definition settled (pc : Pc) : bool :=
  match pc with
  | Resolved _ | Rejected _ => true
  | _ => false
  end.

(** What the environment answers to one attempt of a unit run to
    completion on its own: the fetch result, the body read (consulted
    only after an ok response) and whether the operator cancels while the
    unit sleeps in the backoff after this attempt. *)
Record AttemptEnv : Type := mkAttempt {
  fetched : FetchResult;
  body : TextResult;
  cancelInBackoff : bool
}.

(** The state of a freshly mounted console with nothing persisted. *)
Definition initialStore : Store :=
  mkStore [] [] [] idle idle 0 0 false false [] [].

(** [abortControllerRef.current?.abort()]: the cancel control of both
    files. *)
Definition cancel (s : Store) : Store :=
  if controller s then withAborted true s else s.

(** One unit run on its own against the environment's answers: each
    resumption runs the code up to the next [await]. *)
Section Drive.

Variable onFetch : nat -> FetchResult -> Store -> Pc * Store.
Variable onText : nat -> TextResult -> Store -> Pc * Store.
Variable onTimer : nat -> Store -> Pc * Store.
Variable env : nat -> AttemptEnv.

Fixpoint drive (fuel : nat) (pc : Pc) (st : Store) : Pc * Store :=
  match fuel with
  | O => (pc, st)
  | S fuel' =>
      match pc with
      | AwaitFetch a =>
          let (pc', st') := onFetch a (fetched (env a)) st in
          drive fuel' pc' st'
      | AwaitText a =>
          let (pc', st') := onText a (body (env a)) st in
          drive fuel' pc' st'
      | AwaitWait a =>
          let st1 := if cancelInBackoff (env a) then cancel st else st in
          let (pc', st') := onTimer a st1 in
          drive fuel' pc' st'
      | Resolved _ | Rejected _ => (pc, st)
      end
  end.

End Drive.

(* ================================================================= *)
(** ** [src/index.tsx]: the older file *)

Module IndexTsx.
Import Js Regex.

Definition digit : regex := rng "0" "9".

(** [(25[0-5]|2[0-4][0-9]|[01]?[0-9][0-9]?)] *)
Definition octet : regex :=
  alts (seqs [chr "2"; chr "5"; rng "0" "5"])
       [seqs [chr "2"; rng "0" "4"; digit];
        seqs [Opt (rng "0" "1"); digit; Opt digit]].

(** [([1-9][0-9]{0,3}|[1-5][0-9]{4}|6[0-4][0-9]{3}|65[0-4][0-9]{2}|655[0-2][0-9]|6553[0-5])] *)
Definition port : regex :=
  alts (seqs [rng "1" "9"; upTo 3 digit])
       [seqs [rng "1" "5"; times 4 digit];
        seqs [chr "6"; rng "0" "4"; times 3 digit];
        seqs [chr "6"; chr "5"; rng "0" "4"; times 2 digit];
        seqs [chr "6"; chr "5"; chr "5"; rng "0" "2"; digit];
        seqs [chr "6"; chr "5"; chr "5"; chr "3"; rng "0" "5"]].

(** [const PROXY_REGEX = /^(octet\.){3}octet:port$/], line 28. *)
Definition PROXY_REGEX : regex :=
  seqs [times 3 (Seq octet (chr ".")); octet; chr ":"; port].

Record ValidationResult : Type := mkValidation {
  isValid : bool;
  invalidLines : list jsstring
}.

Definition nonEmpty (l : jsstring) : bool := 0 <? List.length l.

(** [validateProxies], lines 30-39. *)
Definition validateProxies (text : jsstring) : ValidationResult :=
  let lines := filter nonEmpty (map trim (split newline text)) in
  if List.length lines =? 0 then mkValidation true []
  else
    let invalid := filter (fun line => negb (test PROXY_REGEX line)) lines in
    mkValidation (List.length invalid =? 0) invalid.

(** [addLog], lines 299-306; the call is also recorded in [calls]. *)
Definition addLog (msg : jsstring) (ty : LogType) (st : Store) : Store :=
  call (CLog msg ty)
       (withLogs (sliceLast 99 (logs st) ++ [mkLog (clock st) msg ty]) st).

(** [1000 * Math.pow(2, attempt)], line 362. *)
Definition backoffMs (attempt : nat) : N := (1000 * 2 ^ N.of_nat attempt)%N.

(** [fetchWithRetry], lines 339-366, cut at its [await]s. *)
Section Unit.

Variable url : jsstring.
Variable side : Side.
Variable maxRetries : nat.

Definition loopHead (attempt : nat) (st : Store) : Pc * Store :=
  if attempt <=? maxRetries then
    if aborted st then (Rejected (mkError (lit "Error") (lit "AbortError")), st)
    else
      (AwaitFetch attempt,
       call (CFetch side url)
            (setRetries side attempt
               (setStatus side (if attempt =? 0 then syncing else retrying) st)))
  else (Resolved None, st).

Definition onCatch (attempt : nat) (e : JsError) (st : Store) : Pc * Store :=
  if eqb (name e) (lit "AbortError") then (Rejected e, st)
  else if attempt =? maxRetries then
    (Resolved None,
     addLog (lit "Cluster " ++ sideName side ++ lit " connection timeout after "
             ++ ofNat maxRetries ++ lit " attempts.")
            LError (setStatus side error st))
  else (AwaitWait attempt, call (CWait (backoffMs attempt)) st).

Definition onFetch (attempt : nat) (r : FetchResult) (st : Store) : Pc * Store :=
  match r with
  | Response true _ _ => (AwaitText attempt, st)
  | Response false code _ =>
      onCatch attempt (mkError (lit "Error") (lit "HTTP " ++ ofNat code)) st
  | FetchRejected e => onCatch attempt e st
  end.

Definition onText (attempt : nat) (r : TextResult) (st : Store) : Pc * Store :=
  match r with
  | Body content => (Resolved (Some content), setStatus side success st)
  | TextRejected e => onCatch attempt e st
  end.

Definition onTimer (attempt : nat) (st : Store) : Pc * Store :=
  loopHead (S attempt) st.

Definition fetchWithRetry (st : Store) : Pc * Store :=
  if nonEmpty url then loopHead 0 st else (Resolved None, st).

Definition fetchWithRetry_run (env : nat -> AttemptEnv) (st : Store)
  : Pc * Store :=
  let (pc, st') := fetchWithRetry st in
  drive onFetch onText onTimer env (3 * S maxRetries) pc st'.

End Unit.

End IndexTsx.

(* ================================================================= *)
(** ** [src/unnamed/part_000]: the canonical console *)

Module Part000.
Import Js Regex.

(** *** Line validator *)

Definition digit : regex := rng "0" "9".

(** [(25[0-5]|2[0-4][0-9]|[01]?[0-9][0-9]?)] *)
Definition octet : regex :=
  alts (seqs [chr "2"; chr "5"; rng "0" "5"])
       [seqs [chr "2"; rng "0" "4"; digit];
        seqs [Opt (rng "0" "1"); digit; Opt digit]].

(** [([1-9][0-9]{0,3}|[1-5][0-9]{4}|6[0-4][0-9]{3}|65[0-4][0-9]{2}|655[0-2][0-9]|6553[0-5])] *)
Definition port : regex :=
  alts (seqs [rng "1" "9"; upTo 3 digit])
       [seqs [rng "1" "5"; times 4 digit];
        seqs [chr "6"; rng "0" "4"; times 3 digit];
        seqs [chr "6"; chr "5"; rng "0" "4"; times 2 digit];
        seqs [chr "6"; chr "5"; chr "5"; rng "0" "2"; digit];
        seqs [chr "6"; chr "5"; chr "5"; chr "3"; rng "0" "5"]].

(** [const PROXY_REGEX = /^(octet\.){3}octet:port$/], line 28. *)
Definition PROXY_REGEX : regex :=
  seqs [times 3 (Seq octet (chr ".")); octet; chr ":"; port].

Record ValidationResult : Type := mkValidation {
  isValid : bool;
  invalidLines : list jsstring;
  totalLines : nat
}.

Definition nonEmpty (l : jsstring) : bool := 0 <? List.length l.

(** [text.split('\n').map(l => l.trim()).filter(l => l.length > 0)] *)
Definition trimmedLines (text : jsstring) : list jsstring :=
  filter nonEmpty (map trim (split newline text)).

(** [validateProxies], lines 30-40. *)
Definition validateProxies (text : jsstring) : ValidationResult :=
  let lines := trimmedLines text in
  if List.length lines =? 0 then mkValidation true [] 0
  else
    let invalid := filter (fun line => negb (test PROXY_REGEX line)) lines in
    mkValidation (List.length invalid =? 0) invalid (List.length lines).

(** *** Log buffer and history buffer *)

(** [setLogs(prev => [...prev.slice(-99), entry])], line 364. *)
Definition pushLog (entry : LogEntry) (prev : list LogEntry) : list LogEntry :=
  sliceLast 99 prev ++ [entry].

(** [addLog], lines 358-365; the call is also recorded in [calls]. *)
Definition addLog (msg : jsstring) (ty : LogType) (st : Store) : Store :=
  call (CLog msg ty) (withLogs (pushLog (mkLog (clock st) msg ty) (logs st)) st).

(** [clearLogs], line 367. *)
Definition clearLogs (prev : list LogEntry) : list LogEntry := [].

(** [setViewHistory(history => [...history, {time: now, views: newVal}].slice(-25))],
    lines 342-345. *)
Definition pushHistory (entry : HistoryEntry) (history : list HistoryEntry)
  : list HistoryEntry :=
  sliceLast 25 (history ++ [entry]).

(** The writes to the two buffers: the simulator tick, the seed written
    by [handleStartBot] (line 518), the RESET DATA button (line 680),
    [addLog] and [clearLogs]. *)
Inductive BufferOp : Type :=
| OpTick (entry : HistoryEntry)
| OpSeed (entry : HistoryEntry)
| OpResetData
| OpAddLog (entry : LogEntry)
| OpClearLogs.

Record Buffers : Type := mkBuffers {
  viewHistory : list HistoryEntry;
  logBuffer : list LogEntry
}.

(** [useState<HistoryEntry[]>([])], [useState<LogEntry[]>([])]. *)
Definition initialBuffers : Buffers := mkBuffers [] [].

Definition applyOp (op : BufferOp) (b : Buffers) : Buffers :=
  match op with
  | OpTick e => mkBuffers (pushHistory e (viewHistory b)) (logBuffer b)
  | OpSeed e => mkBuffers [e] (logBuffer b)
  | OpResetData => mkBuffers [] (logBuffer b)
  | OpAddLog e => mkBuffers (viewHistory b) (pushLog e (logBuffer b))
  | OpClearLogs => mkBuffers (viewHistory b) (clearLogs (logBuffer b))
  end.

Inductive reachable : Buffers -> Prop :=
| reach_init : reachable initialBuffers
| reach_step op b : reachable b -> reachable (applyOp op b).

(** *** Retry-fetch unit: [fetchWithRetry], lines 396-439 *)

(** [abortErr], lines 403-404. *)
Definition abortErr : JsError := mkError (lit "AbortError") (lit "AbortError").

(** [err.name === 'AbortError' || err.message === 'AbortError'] *)
Definition isAbort (e : JsError) : bool :=
  eqb (name e) (lit "AbortError") || eqb (errMessage e) (lit "AbortError").

(** [1500 * Math.pow(2, attempt)], line 435. *)
Definition backoffMs (attempt : nat) : N := (1500 * 2 ^ N.of_nat attempt)%N.

Definition attemptFailedMsg (side : Side) (attempt maxRetries : nat) (e : JsError)
  : jsstring :=
  lit "Cluster " ++ sideName side ++ lit " attempt " ++ ofNat (attempt + 1)
  ++ lit "/" ++ ofNat (maxRetries + 1) ++ lit " failed: "
  ++ (if includes (lit "HTTP_") (errMessage e)
      then lit "Server returned " ++ errMessage e
      else if eqb (name e) (lit "TypeError")
      then lit "Network error or CORS policy restriction detected."
      else if nonEmpty (errMessage e) then errMessage e
      else lit "Unknown connectivity issue.").

Definition terminalFailureMsg (side : Side) (maxRetries : nat) : jsstring :=
  lit "Cluster " ++ sideName side
  ++ lit " terminal failure: Unable to establish link after "
  ++ ofNat (maxRetries + 1) ++ lit " attempts.".

(** [new Error(`HTTP_${response.status} :: ${response.statusText}`)] *)
Definition httpError (st : nat) (statusText : jsstring) : JsError :=
  mkError (lit "Error") (lit "HTTP_" ++ ofNat st ++ lit " :: " ++ statusText).

Section Unit.

Variable url : jsstring.
Variable side : Side.
Variable maxRetries : nat.

(** The head of the [for] loop up to [await fetch]: the bound, the
    cancellation check, the status write, the request.  The relay address
    built around [url] belongs to the fetch collaborator. *)
Definition loopHead (attempt : nat) (st : Store) : Pc * Store :=
  if attempt <=? maxRetries then
    if aborted st then (Rejected abortErr, st)
    else
      (AwaitFetch attempt,
       call (CFetch side url)
            (setStatus side (if attempt =? 0 then syncing else retrying) st))
  else (Resolved None, st).

(** The [catch] block, lines 415-436, up to [await wait]. *)
Definition onCatch (attempt : nat) (e : JsError) (st : Store) : Pc * Store :=
  if isAbort e then (Rejected e, st)
  else
    let st1 := addLog (attemptFailedMsg side attempt maxRetries e) LWarning st in
    if attempt =? maxRetries then
      (Resolved None,
       addLog (terminalFailureMsg side maxRetries) LError
              (setStatus side error st1))
    else (AwaitWait attempt, call (CWait (backoffMs attempt)) st1).

(** After [await fetch]: line 411, then [await response.text()]. *)
Definition onFetch (attempt : nat) (r : FetchResult) (st : Store) : Pc * Store :=
  match r with
  | Response true _ _ => (AwaitText attempt, st)
  | Response false code statusText => onCatch attempt (httpError code statusText) st
  | FetchRejected e => onCatch attempt e st
  end.

(** After [await response.text()]: lines 413-414. *)
Definition onText (attempt : nat) (r : TextResult) (st : Store) : Pc * Store :=
  match r with
  | Body content => (Resolved (Some content), setStatus side success st)
  | TextRejected e => onCatch attempt e st
  end.

(** After [await wait]: [attempt++] and the loop head again. *)
Definition onTimer (attempt : nat) (st : Store) : Pc * Store :=
  loopHead (S attempt) st.

(** The call itself, up to its first [await]. *)
Definition fetchWithRetry (st : Store) : Pc * Store :=
  if nonEmpty url then loopHead 0 st else (Resolved None, st).

(** The unit run to completion against [env]; three resumptions per
    attempt are enough. *)
Definition fetchWithRetry_run (env : nat -> AttemptEnv) (st : Store)
  : Pc * Store :=
  let (pc, st') := fetchWithRetry st in
  drive onFetch onText onTimer env (3 * S maxRetries) pc st'.

End Unit.

(** *** Coordinator: [handleSyncFromUrls], lines 387-470 *)

Definition isSyncing (st : Store) : bool :=
  match statusA st, statusB st with
  | syncing, _ | retrying, _ | _, syncing | _, retrying => true
  | _, _ => false
  end.

(** [handleCancelSync], lines 472-476. *)
Definition handleCancelSync (st : Store) : Store := cancel st.

(** A synchronize session in flight: both units and whether the
    coordinator still awaits [Promise.all]. *)
Record Session : Type := mkSession {
  unitA : Pc;
  unitB : Pc;
  awaiting : bool;
  store : Store
}.

Definition unitOf (side : Side) (s : Session) : Pc :=
  match side with A => unitA s | B => unitB s end.

Definition resume (side : Side) (r : Pc * Store) (s : Session) : Session :=
  match side with
  | A => mkSession (fst r) (unitB s) (awaiting s) (snd r)
  | B => mkSession (unitA s) (fst r) (awaiting s) (snd r)
  end.

Definition withStore (st : Store) (s : Session) : Session :=
  mkSession (unitA s) (unitB s) (awaiting s) st.

Inductive Started : Type :=
| NotStarted (st : Store)
| Running (s : Session).

(** Lines 388-396 and 442: the guards, the fresh controller, the first
    log, and both units started up to their first [await]. *)
Definition handleSyncFromUrls (urlA urlB : jsstring) (st : Store) : Started :=
  if isSyncing st then NotStarted st
  else if negb (nonEmpty urlA) && negb (nonEmpty urlB) then
    NotStarted
      (addLog (lit "Sync error: No cluster endpoints defined in configuration.")
              LError st)
  else
    let st1 := withAborted false (withController true st) in
    let st2 := addLog (lit "Initiating Multi-Cluster Synchronize sequence...")
                      LInfo st1 in
    let (pcA, st3) := fetchWithRetry urlA A 3 st2 in
    let (pcB, st4) := fetchWithRetry urlB B 3 st3 in
    Running (mkSession pcA pcB true st4).

Definition setProxies (side : Side) (v : jsstring) (st : Store) : Store :=
  match side with A => withProxiesLeft v st | B => withProxiesRight v st end.

(** The body of [results.forEach], lines 443-457, for one side. *)
Definition aggregate (side : Side) (content : option jsstring) (st : Store)
  : Store :=
  match content with
  | Some c =>
      if nonEmpty c then
        let allLines := trimmedLines c in
        let validProxies := filter (test PROXY_REGEX) allLines in
        let st1 := setProxies side (join [newline] validProxies) st in
        if (List.length validProxies =? 0) && (0 <? List.length allLines) then
          addLog (lit "Cluster " ++ sideName side
                  ++ lit " fetch successful, but 0 valid proxy patterns found in "
                  ++ ofNat (List.length allLines) ++ lit " lines.")
                 LWarning st1
        else
          addLog (lit "Cluster " ++ sideName side
                  ++ lit " synchronization complete. Loaded "
                  ++ ofNat (List.length validProxies) ++ lit "/"
                  ++ ofNat (List.length allLines) ++ lit " valid nodes.")
                 LSuccess st1
      else st
  | None => st
  end.

Definition terminatedMsg : jsstring :=
  lit "Synchronization sequence manually terminated by operator.".

(** [prev => (prev === 'syncing' || prev === 'retrying') ? 'idle' : prev] *)
Definition releasePending (prev : SyncState) : SyncState :=
  match prev with
  | syncing | retrying => idle
  | _ => prev
  end.

(** The [catch] block of the coordinator, lines 458-466. *)
Definition onRejected (e : JsError) (st : Store) : Store :=
  if isAbort e then
    let st1 := addLog terminatedMsg LWarning st in
    let st2 := withStatusA (releasePending (statusA st1)) st1 in
    withStatusB (releasePending (statusB st2)) st2
  else
    addLog (lit "Sync operation aborted unexpectedly: " ++ errMessage e) LError st.

(** [finally { abortControllerRef.current = null; }] *)
Definition finally (st : Store) : Store := withController false st.

(** How [Promise.all] over the two units has settled, if it has. *)
Inductive AllSettled : Pc -> Pc -> option JsError -> Prop :=
| AllFulfilled cA cB : AllSettled (Resolved cA) (Resolved cB) None
| AllRejectedA e pcB : AllSettled (Rejected e) pcB (Some e)
| AllRejectedB pcA e : AllSettled pcA (Rejected e) (Some e).

(** What the relay answers while the session's signal is aborted: the
    pending request or body read rejects with an abort error. *)
Definition fetchHonoursSignal (st : Store) (r : FetchResult) : Prop :=
  aborted st = true -> exists e, r = FetchRejected e /\ isAbort e = true.

Definition textHonoursSignal (st : Store) (r : TextResult) : Prop :=
  aborted st = true -> exists e, r = TextRejected e /\ isAbort e = true.

Definition urlOf (urlA urlB : jsstring) (side : Side) : jsstring :=
  match side with A => urlA | B => urlB end.

(** One turn of the event loop during a session. *)
Inductive step (urlA urlB : jsstring) : Session -> Session -> Prop :=
| StepFetch side a r s :
    unitOf side s = AwaitFetch a ->
    fetchHonoursSignal (store s) r ->
    step urlA urlB s (resume side (onFetch side 3 a r (store s)) s)
| StepText side a r s :
    unitOf side s = AwaitText a ->
    textHonoursSignal (store s) r ->
    step urlA urlB s (resume side (onText side 3 a r (store s)) s)
| StepTimer side a s :
    unitOf side s = AwaitWait a ->
    step urlA urlB s
         (resume side (onTimer (urlOf urlA urlB side) side 3 a (store s)) s)
| StepCancel s :
    step urlA urlB s (withStore (handleCancelSync (store s)) s)
| StepClock now s :
    step urlA urlB s (withStore (withClock now (store s)) s)
| StepAggregate cA cB s :
    awaiting s = true ->
    unitA s = Resolved cA -> unitB s = Resolved cB ->
    step urlA urlB s
         (mkSession (unitA s) (unitB s) false
                    (finally (aggregate B cB (aggregate A cA (store s)))))
| StepCatch e s :
    awaiting s = true ->
    AllSettled (unitA s) (unitB s) (Some e) ->
    step urlA urlB s
         (mkSession (unitA s) (unitB s) false (finally (onRejected e (store s)))).

Inductive steps (urlA urlB : jsstring) : Session -> Session -> Prop :=
| steps_refl s : steps urlA urlB s s
| steps_cons s1 s2 s3 :
    steps urlA urlB s1 s2 -> step urlA urlB s2 s3 -> steps urlA urlB s1 s3.

(** *** Metrics simulator: the interval callback, lines 338-349

    Numbers are binary64 ([Binary64]); [rnd] is the value
    [Math.random()] returned; [videoViews] and [incrementPercentage] are
    integers. *)

(** [Math.random() * 0.4 + 0.8] *)
Definition randomFactor (rnd : Q) : Q :=
  Binary64.add (Binary64.mul rnd (Binary64.lit (4 # 10))) (Binary64.lit (8 # 10)).

(** [Math.floor(videoViews * (incrementPercentage / 100) * r)] *)
Definition increment (videoViews incrementPercentage : Z) (r : Q) : Z :=
  Binary64.floor
    (Binary64.mul
       (Binary64.mul (inject_Z videoViews)
                     (Binary64.div (inject_Z incrementPercentage) 100))
       r).

(** The argument of [Math.floor] on Rocq's primitive binary64 floats;
    [0x1.999999999999ap-2] and [0x1.999999999999ap-1] are the doubles the
    literals [0.4] and [0.8] denote. *)
Definition floorArgument (videoViews incrementPercentage rnd : float) : float :=
  (videoViews * (incrementPercentage / 100)
   * (rnd * 0x1.999999999999ap-2 + 0x1.999999999999ap-1))%float.

Record Simulator : Type := mkSimulator {
  simulatedViews : Z;
  history : list HistoryEntry
}.

(** [handleStartBot], lines 517-518: the seed. *)
Definition startRun (videoViews : Z) (now : jsstring) : Simulator :=
  mkSimulator videoViews [mkHistory now videoViews].

(** One tick. *)
Definition tick (videoViews incrementPercentage : Z) (rnd : Q) (now : jsstring)
  (s : Simulator) : Simulator :=
  let delta := increment videoViews incrementPercentage (randomFactor rnd) in
  let newVal := Binary64.addZ (simulatedViews s) delta in
  mkSimulator newVal (pushHistory (mkHistory now newVal) (history s)).

End Part000.

(* ================================================================= *)
(** ** Observations on the calls a run makes *)

Module Trace.
Import Js.

Definition logTypeEqb (a b : LogType) : bool :=
  match a, b with
  | LInfo, LInfo | LSuccess, LSuccess | LWarning, LWarning
  | LError, LError | LPacket, LPacket => true
  | _, _ => false
  end.

Definition isFetchCall (c : Call) : bool :=
  match c with CFetch _ _ => true | _ => false end.

Definition isWaitCall (c : Call) : bool :=
  match c with CWait _ => true | _ => false end.

Definition isLogOfType (ty : LogType) (c : Call) : bool :=
  match c with CLog _ t => logTypeEqb t ty | _ => false end.

Definition isLogCall (msg : jsstring) (ty : LogType) (c : Call) : bool :=
  match c with CLog m t => eqb m msg && logTypeEqb t ty | _ => false end.

Definition count (p : Call -> bool) (l : list Call) : nat :=
  List.length (filter p l).

(** A fetch that fails without being a cancellation: a non-ok status or
    a rejection that is not an abort error. *)
Definition fetchFails (r : FetchResult) : Prop :=
  match r with
  | Response ok _ _ => ok = false
  | FetchRejected e => Part000.isAbort e = false
  end.

(** The error the [catch] block of part_000 sees after a failed fetch. *)
Definition errorOf (r : FetchResult) : JsError :=
  match r with
  | Response _ code statusText => Part000.httpError code statusText
  | FetchRejected e => e
  end.

(** The calls of part_000's unit from the failure of attempt [a] on, when
    that attempt and the [k] attempts after it all fail. *)
Fixpoint failTrace (url : jsstring) (side : Side) (maxRetries : nat)
  (env : nat -> AttemptEnv) (k a : nat) : list Call :=
  CLog (Part000.attemptFailedMsg side a maxRetries (errorOf (fetched (env a))))
       LWarning
  :: match k with
     | O => [CLog (Part000.terminalFailureMsg side maxRetries) LError]
     | S k' =>
         CWait (Part000.backoffMs a) :: CFetch side url
         :: failTrace url side maxRetries env k' (S a)
     end.

Definition otherSide (side : Side) : Side :=
  match side with A => B | B => A end.

Definition pendingStatus (v : SyncState) : bool :=
  match v with syncing | retrying => true | _ => false end.

(** The error-level entries sent to the log sink so far. *)
Definition errorLogs (st : Store) : list Call :=
  filter (isLogOfType LError) (calls st).

(** How many times the operator-terminated warning was logged so far. *)
Definition terminatedWarnings (st : Store) : nat :=
  count (isLogCall Part000.terminatedMsg LWarning) (calls st).

Definition bothResolved (s : Part000.Session) : bool :=
  match Part000.unitA s, Part000.unitB s with
  | Resolved _, Resolved _ => true
  | _, _ => false
  end.

(** The session right after the operator pressed cancel. *)
Definition afterCancel (s : Part000.Session) : Part000.Session :=
  Part000.withStore (Part000.handleCancelSync (Part000.store s)) s.

(** What each unit of a session in flight may be doing: attempts stay
    within the retry budget, a suspended unit shows [syncing] or
    [retrying] while the coordinator awaits, a rejection is an abort. *)
Definition unitOk (s : Part000.Session) (side : Side) : Prop :=
  match Part000.unitOf side s with
  | AwaitFetch a | AwaitText a =>
      a <= 3 /\ (Part000.awaiting s = true ->
                 pendingStatus (status side (Part000.store s)) = true)
  | AwaitWait a =>
      a < 3 /\ (Part000.awaiting s = true ->
                pendingStatus (status side (Part000.store s)) = true)
  | Rejected e => Part000.isAbort e = true
  | Resolved _ => True
  end.

Definition sessionOk (s : Part000.Session) : Prop :=
  unitOk s A /\ unitOk s B
  /\ (Part000.awaiting s = true -> controller (Part000.store s) = true).

(** What holds of a session [s] reached after the operator cancelled
    at [s1]: the signal stays aborted, no unit resolves any more, no error
    is logged, and the statuses move only when the coordinator's [catch]
    runs, which logs the operator-terminated warning once. *)
Definition cancelledFrom (s1 s : Part000.Session) : Prop :=
  aborted (Part000.store s) = true
  /\ (forall side c, Part000.unitOf side s = Resolved c ->
                     Part000.unitOf side s1 = Resolved c)
  /\ errorLogs (Part000.store s) = errorLogs (Part000.store s1)
  /\ (if Part000.awaiting s
      then terminatedWarnings (Part000.store s)
           = terminatedWarnings (Part000.store s1)
           /\ forall side, status side (Part000.store s)
                           = status side (Part000.store s1)
      else terminatedWarnings (Part000.store s)
           = S (terminatedWarnings (Part000.store s1))
           /\ forall side, status side (Part000.store s)
                           = Part000.releasePending
                               (status side (Part000.store s1))).

(** The lines the coordinator keeps from a fetched body. *)
Definition keptLines (content : jsstring) : list jsstring :=
  filter (Regex.test Part000.PROXY_REGEX) (Part000.trimmedLines content).

(** What holds along a session started from [st0] with a URL for side A
    only: B has returned null and nothing of B moves, no error is logged
    unless A's unit gives up, and A's list changes only when the
    coordinator aggregates. *)
Definition onlyA (st0 : Store) (s : Part000.Session) : Prop :=
  Part000.unitB s = Resolved None
  /\ pendingStatus (statusB st0) = false
  /\ statusB (Part000.store s) = statusB st0
  /\ proxiesRight (Part000.store s) = proxiesRight st0
  /\ (Part000.unitA s <> Resolved None ->
      errorLogs (Part000.store s) = errorLogs st0)
  /\ (if Part000.awaiting s
      then proxiesLeft (Part000.store s) = proxiesLeft st0
      else settled (Part000.unitA s) = true
           /\ forall c, Part000.unitA s = Resolved (Some c) ->
                 proxiesLeft (Part000.store s)
                 = if Part000.nonEmpty c then join [newline] (keptLines c)
                   else proxiesLeft st0).

(** The attempt a suspended unit is in. *)
Definition pcIndex (pc : Pc) : option nat :=
  match pc with
  | AwaitFetch a | AwaitText a | AwaitWait a => Some a
  | Resolved _ | Rejected _ => None
  end.

(** Every way a resumed unit of a session (budget 3) can continue from
    attempt [a], with the store it leaves. *)
Inductive resumed (side : Side) (a : nat) (st : Store) : Pc * Store -> Prop :=
| ResText : resumed side a st (AwaitText a, st)
| ResAbort e : Part000.isAbort e = true -> resumed side a st (Rejected e, st)
| ResBackoff e :
    a <> 3 ->
    resumed side a st
      (AwaitWait a,
       call (CWait (Part000.backoffMs a))
            (Part000.addLog (Part000.attemptFailedMsg side a 3 e) LWarning st))
| ResExhausted e :
    a = 3 ->
    resumed side a st
      (Resolved None,
       Part000.addLog (Part000.terminalFailureMsg side 3) LError
         (setStatus side error
            (Part000.addLog (Part000.attemptFailedMsg side a 3 e) LWarning st)))
| ResSuccess content :
    resumed side a st (Resolved (Some content), setStatus side success st)
| ResRetry url :
    S a <= 3 -> aborted st = false ->
    resumed side a st
      (AwaitFetch (S a), call (CFetch side url) (setStatus side retrying st))
| ResLoopExit : 3 < S a -> resumed side a st (Resolved None, st).

(** What a unit of [side] leaves alone. *)
Definition frame (side : Side) (st st' : Store) : Prop :=
  proxiesLeft st' = proxiesLeft st /\ proxiesRight st' = proxiesRight st
  /\ status (otherSide side) st' = status (otherSide side) st
  /\ aborted st' = aborted st /\ controller st' = controller st.

(** A relay that answers every request with [503 Service Unavailable]. *)
Definition alwaysUnavailable (i : nat) : AttemptEnv :=
  mkAttempt (Response false 503 (lit "Service Unavailable")) (Body []) false.

Definition sampleUrl : jsstring := lit "https://example.org/list.txt".

(** A session on two URLs from the initial state; the operator cancels
    at once, side A's request rejects and the coordinator's [catch]
    runs. *)
Definition sampleSession : Part000.Session :=
  match Part000.handleSyncFromUrls sampleUrl sampleUrl initialStore with
  | Part000.Running s => s
  | Part000.NotStarted st =>
      Part000.mkSession (Resolved None) (Resolved None) false st
  end.

Definition sampleRejected : Part000.Session :=
  Part000.resume A
    (Part000.onFetch A 3 0 (FetchRejected Part000.abortErr)
       (Part000.store (afterCancel sampleSession)))
    (afterCancel sampleSession).

Definition sampleCaught : Part000.Session :=
  Part000.mkSession (Part000.unitA sampleRejected) (Part000.unitB sampleRejected)
    false
    (Part000.finally
       (Part000.onRejected Part000.abortErr (Part000.store sampleRejected))).

(** A console whose list for side A holds one record. *)
Definition sampleListed : Store := withProxiesLeft (lit "1.2.3.4:80") initialStore.

(** A session with a URL for side A only, whose first request is
    answered [200 OK] with three lines, one of them malformed. *)
Definition sampleBody : jsstring :=
  lit "10.0.0.1:8080" ++ [newline] ++ lit "  bad line " ++ [newline]
  ++ lit " 192.168.1.1:3128".

Definition sampleOnlyA : Part000.Session :=
  match Part000.handleSyncFromUrls sampleUrl [] initialStore with
  | Part000.Running s => s
  | Part000.NotStarted st =>
      Part000.mkSession (Resolved None) (Resolved None) false st
  end.

Definition sampleOnlyA_ok : Part000.Session :=
  Part000.resume A
    (Part000.onFetch A 3 0 (Response true 200 (lit "OK"))
       (Part000.store sampleOnlyA))
    sampleOnlyA.

Definition sampleOnlyA_read : Part000.Session :=
  Part000.resume A
    (Part000.onText A 3 0 (Body sampleBody) (Part000.store sampleOnlyA_ok))
    sampleOnlyA_ok.

Definition sampleOnlyA_done : Part000.Session :=
  Part000.mkSession (Part000.unitA sampleOnlyA_read)
    (Part000.unitB sampleOnlyA_read) false
    (Part000.finally
       (Part000.aggregate B None
          (Part000.aggregate A (Some sampleBody)
             (Part000.store sampleOnlyA_read)))).

End Trace.

(* ================================================================= *)
(** ** Reading of the pattern in words *)

Module Words.
Import Js.

Definition isDigit (c : char) : bool := ((48 <=? c) && (c <=? 57))%N.

(** A decimal numeral: one or more decimal digits. *)
Definition numeral (s : jsstring) : Prop :=
  s <> [] /\ forallb isDigit s = true.

(** The number a numeral denotes. *)
Definition valueOf (s : jsstring) : N :=
  fold_left (fun acc c => (10 * acc + (c - 48))%N) s 0%N.

(** A numeral in standard form: no superfluous leading zero. *)
Definition standard (s : jsstring) : Prop :=
  numeral s /\ (s = [48%N] \/ hd 0%N s <> 48%N).

(** [a.b.c.d:p] *)
Definition dotted (a b c d p : jsstring) : jsstring :=
  a ++ 46%N :: b ++ 46%N :: c ++ 46%N :: d ++ 58%N :: p.

(** The claim read with any numeral: four numerals denoting 0..255 and
    a numeral denoting 1..65535. *)
Definition looseLine (l : jsstring) : Prop :=
  exists a b c d p, l = dotted a b c d p
    /\ Forall (fun o => numeral o /\ (valueOf o <= 255)%N) [a; b; c; d]
    /\ numeral p /\ (1 <= valueOf p <= 65535)%N.

(** The claim read with numerals in standard form only. *)
Definition strictLine (l : jsstring) : Prop :=
  exists a b c d p, l = dotted a b c d p
    /\ Forall (fun o => standard o /\ (valueOf o <= 255)%N) [a; b; c; d]
    /\ standard p /\ (1 <= valueOf p <= 65535)%N.

(** What the pattern accepts as an octet: one to three digits denoting
    0..255, leading zeros included. *)
Definition octetText (s : jsstring) : Prop :=
  numeral s /\ List.length s <= 3 /\ (valueOf s <= 255)%N.

(** What the pattern accepts as a port: a numeral that does not start
    with 0 and denotes 1..65535. *)
Definition portText (s : jsstring) : Prop :=
  numeral s /\ hd 0%N s <> 48%N /\ (1 <= valueOf s <= 65535)%N.

Definition acceptedLine (l : jsstring) : Prop :=
  exists a b c d p, l = dotted a b c d p
    /\ Forall octetText [a; b; c; d] /\ portText p.

(** A text that is one trimmed non-empty line. *)
Definition singleLine (l : jsstring) : Prop :=
  l <> [] /\ trim l = l /\ ~ In newline l.

(** The lines of a text that count: the raw pieces between newlines
    whose trimmed text is not empty. *)
Definition countedLines (text : jsstring) : list jsstring :=
  filter (fun raw => Part000.nonEmpty (trim raw)) (split newline text).

(** [invalidLines] in the words of the claim: the original, untrimmed
    text of each counted line that fails the pattern after trimming. *)
Definition untrimmedInvalid (text : jsstring) : list jsstring :=
  filter (fun raw => negb (Regex.test Part000.PROXY_REGEX (trim raw)))
         (countedLines text).

End Words.

(* ================================================================= *)
(** ** [src/unnamed/part_000]: the rest of the console *)

Module Console.
Import Js Regex.

(** *** Persistence: the initialisers of lines 268-271, the effect of
    lines 311-316 and [resetAll] *)

(** [localStorage]; the entry written last for a key is the one read. *)
Definition Storage : Type := list (string * jsstring).

Fixpoint getItem (key : string) (ls : Storage) : option jsstring :=
  match ls with
  | [] => None
  | (k, v) :: rest => if String.eqb k key then Some v else getItem key rest
  end.

Definition setItem (key : string) (v : jsstring) (ls : Storage) : Storage :=
  (key, v) :: ls.

(** [localStorage.clear()] *)
Definition clear (ls : Storage) : Storage := [].

Record Persisted : Type := mkPersisted {
  savedLeft : jsstring;
  savedRight : jsstring;
  savedUrlA : jsstring;
  savedUrlB : jsstring
}.

(** The effect of lines 311-316. *)
Definition persist (p : Persisted) (ls : Storage) : Storage :=
  setItem "sync_url_b" (savedUrlB p)
    (setItem "sync_url_a" (savedUrlA p)
       (setItem "proxies_right" (savedRight p)
          (setItem "proxies_left" (savedLeft p) ls))).

(** [x ?? ""] and [x || ""] on an optional string. *)
Definition orEmpty (o : option jsstring) : jsstring :=
  match o with Some v => v | None => [] end.

(** The four [useState] initialisers of a fresh mount. *)
Definition restore (ls : Storage) : Persisted :=
  mkPersisted (orEmpty (getItem "proxies_left" ls))
              (orEmpty (getItem "proxies_right" ls))
              (orEmpty (getItem "sync_url_a" ls))
              (orEmpty (getItem "sync_url_b" ls)).

(** *** [HighlightedProxyArea], lines 223 and 232-234: which rows of
    the text area are marked invalid.  The search highlight of line 235 is
    not part of this. *)

Definition rowIsInvalid (line : jsstring) : bool :=
  let trimmed := trim line in
  Part000.nonEmpty trimmed && negb (test Part000.PROXY_REGEX trimmed).

Definition invalidRows (value : jsstring) : list bool :=
  map rowIsInvalid (split newline value).

(** *** [exportLogs], lines 369-378 *)

(** [`[${l.timestamp}] ${l.message}`] *)
Definition exportLine (l : LogEntry) : jsstring :=
  lit "[" ++ timestamp l ++ lit "] " ++ message l.

(** The text of the downloaded file. *)
Definition exportText (ls : list LogEntry) : jsstring :=
  join [newline] (map exportLine ls).

(** The file's text and the store after the success entry is logged. *)
Definition exportLogs (st : Store) : jsstring * Store :=
  (exportText (logs st),
   Part000.addLog (lit "Session logs exported successfully.") LSuccess st).

(** *** The state of the whole console *)

(** [useState<'Disconnected' | 'Connecting' | 'Connected' | 'Running'>]. *)
Inductive RunStatus : Type :=
| Disconnected | Connecting | Connected | Running.

Record App : Type := mkApp {
  core : Store;
  isScraping : bool;
  isProcessing : bool;
  runStatus : RunStatus;
  videoUrl : jsstring;
  videoViews : Z;
  simulator : Part000.Simulator
}.

Definition withCore (v : Store) (a : App) : App :=
  mkApp v (isScraping a) (isProcessing a) (runStatus a) (videoUrl a)
        (videoViews a) (simulator a).
Definition withScraping (v : bool) (a : App) : App :=
  mkApp (core a) v (isProcessing a) (runStatus a) (videoUrl a)
        (videoViews a) (simulator a).
Definition withProcessing (v : bool) (a : App) : App :=
  mkApp (core a) (isScraping a) v (runStatus a) (videoUrl a)
        (videoViews a) (simulator a).
Definition withRunStatus (v : RunStatus) (a : App) : App :=
  mkApp (core a) (isScraping a) (isProcessing a) v (videoUrl a)
        (videoViews a) (simulator a).
Definition withSimulator (v : Part000.Simulator) (a : App) : App :=
  mkApp (core a) (isScraping a) (isProcessing a) (runStatus a) (videoUrl a)
        (videoViews a) v.

Definition logged (msg : jsstring) (ty : LogType) (a : App) : App :=
  withCore (Part000.addLog msg ty (core a)) a.

(** *** [handleScrapeProxies], lines 478-500 *)

(** What the text service answers: a response whose [text] may be
    undefined, or a throw. *)
Inductive Generated : Type :=
| GenText (text : option jsstring)
| GenThrows (e : JsError).

(** Lines 479-481, up to the [await]; [None] when the guard returns. *)
Definition handleScrapeProxies_begin (a : App) : option App :=
  if isScraping a then None
  else Some (logged (lit "Handshaking with global scraping engine...") LInfo
                    (withScraping true a)).

(** [(response.text || "").split('\n').map(l => l.trim()).filter(l => PROXY_REGEX.test(l))] *)
Definition scraped (text : option jsstring) : list jsstring :=
  filter (test Part000.PROXY_REGEX) (map trim (split newline (orEmpty text))).

(** Lines 489-499, after the [await]. *)
Definition handleScrapeProxies_end (g : Generated) (a : App) : App :=
  withScraping false
    match g with
    | GenText text =>
        let proxies := scraped text in
        if 0 <? List.length proxies then
          logged (lit "Successfully harvested " ++ ofNat (List.length proxies)
                  ++ lit " nodes into local cache.") LSuccess
            (withCore
               (withProxiesRight (join [newline] (skipn 40 proxies))
                  (withProxiesLeft (join [newline] (firstn 40 proxies))
                     (core a)))
               a)
        else
          logged (lit "Scraper returned empty result set. Node availability low.")
                 LWarning a
    | GenThrows e =>
        logged (lit "Scraping engine offline: "
                ++ (if Part000.nonEmpty (errMessage e) then errMessage e
                    else lit "API key error")
                ++ lit ".") LError a
    end.

(** *** [handleStartBot], lines 502-519, and [handleStopBot] *)

(** The [errorLog] string of lines 505-508. *)
Definition preflight (left right : Part000.ValidationResult) : jsstring :=
  (if negb (Part000.isValid left)
   then lit "Master A has " ++ ofNat (List.length (Part000.invalidLines left))
        ++ lit " malformed entries. "
   else [])
  ++ (if negb (Part000.isValid right)
      then lit "Master B has " ++ ofNat (List.length (Part000.invalidLines right))
           ++ lit " malformed entries. "
      else [])
  ++ (if (Part000.totalLines left =? 0) && (Part000.totalLines right =? 0)
      then lit "Both proxy lists are empty."
      else []).

Inductive StartOutcome : Type :=
| StartIgnored
| StartRefused (a : App)
| StartAccepted (a : App).

(** Lines 503-519, up to the [await]; [seedLabel] is the time label of
    the seed point. *)
Definition handleStartBot (seedLabel : jsstring) (a : App) : StartOutcome :=
  if isProcessing a then StartIgnored
  else
    let errorLog :=
      preflight (Part000.validateProxies (proxiesLeft (core a)))
                (Part000.validateProxies (proxiesRight (core a))) in
    if Part000.nonEmpty errorLog then
      StartRefused
        (logged (lit "Pre-flight validation failed: " ++ trim errorLog) LError a)
    else
      StartAccepted
        (logged (lit "Initiating injection sequence for " ++ videoUrl a
                 ++ lit "...") LInfo
           (withSimulator (Part000.startRun (videoViews a) seedLabel)
              (withRunStatus Running (withProcessing true a)))).

(** Line 535. *)
Definition handleStopBot (a : App) : App :=
  logged (lit "Emergency shutdown initiated. Workers detached.") LWarning
         (withRunStatus Connected a).

(** *** The simulation effect, lines 334-356: ticks in sequence and the
    two gauges, in binary64 *)

(** The ticks of a run, each with its draw and its time label. *)
Definition runTicks (videoViews incrementPercentage : Z)
  (draws : list (Q * jsstring)) (s : Part000.Simulator) : Part000.Simulator :=
  fold_left (fun s d => Part000.tick videoViews incrementPercentage (fst d) (snd d) s)
            draws s.

(** The history points the ticks produce, in order, from a running total. *)
Fixpoint produced (videoViews incrementPercentage : Z)
  (draws : list (Q * jsstring)) (total : Z) : list HistoryEntry :=
  match draws with
  | [] => []
  | d :: rest =>
      let newVal :=
        Binary64.addZ total
          (Part000.increment videoViews incrementPercentage
             (Part000.randomFactor (fst d))) in
      mkHistory (snd d) newVal :: produced videoViews incrementPercentage rest newVal
  end.

Record Gauges : Type := mkGauges {
  threads : Q;
  successRate : Q
}.

(** [useState(0)], [useState(100)]. *)
Definition initialGauges : Gauges := mkGauges 0 100.

(** [Math.max(a, b)] *)
Definition qmax (a b : Q) : Q := if Qle_bool a b then b else a.

(** What the effect and its interval do to the gauges: the effect body
    with [status === 'Running'] (line 337) or not (lines 352-353), and a
    tick (lines 346-347); each carries the draws it makes. *)
Inductive GaugeOp : Type :=
| GaugeRun (rnd : Q)
| GaugeTick (rndRate rndThreads : Q)
| GaugeIdle.

Definition applyGauge (op : GaugeOp) (g : Gauges) : Gauges :=
  match op with
  | GaugeRun rnd =>
      (* [Math.floor(Math.random() * 50) + 120] *)
      mkGauges (Binary64.add (inject_Z (Binary64.floor (Binary64.mul rnd 50))) 120)
               (successRate g)
  | GaugeTick rndRate rndThreads =>
      (* [Math.max(80, prev + (Math.random() * 10 - 5))],
         [94 + Math.random() * 5.9] *)
      mkGauges (qmax 80 (Binary64.add (threads g)
                           (Binary64.sub (Binary64.mul rndThreads 10) 5)))
               (Binary64.add 94 (Binary64.mul rndRate (Binary64.lit (59 # 10))))
  | GaugeIdle => mkGauges 0 100
  end.

Definition unitDraw (r : Q) : Prop := (0 <= r)%Q /\ (r < 1)%Q.

Definition opDrawsOk (op : GaugeOp) : Prop :=
  match op with
  | GaugeRun rnd => unitDraw rnd
  | GaugeTick rndRate rndThreads => unitDraw rndRate /\ unitDraw rndThreads
  | GaugeIdle => True
  end.

(** The gauges after the effect and its interval have run [ops]. *)
Definition runGauges (ops : list GaugeOp) (g : Gauges) : Gauges :=
  fold_left (fun g op => applyGauge op g) ops g.

(** The thread gauge is at rest or at least 80, the success rate lies
    between 94 and 100. *)
Definition gaugesOk (g : Gauges) : Prop :=
  (threads g == 0 \/ 80 <= threads g)%Q
  /\ (94 <= successRate g)%Q /\ (successRate g <= 100)%Q.

End Console.

(* ================================================================= *)
(** ** [src/index.tsx]: the coordinator of the older file *)

Module Legacy.
Import Js Regex.

(** Line 247. *)
Definition isSyncing (st : Store) : bool :=
  match statusA st, statusB st with
  | syncing, _ | retrying, _ | _, syncing | _, retrying => true
  | _, _ => false
  end.

(** Lines 329-338 and 368-371 of [handleSyncFromUrls]: the guards, the
    fresh controller, the first log, both units started. *)
Definition handleSyncFromUrls (urlA urlB : jsstring) (st : Store)
  : Part000.Started :=
  if isSyncing st then Part000.NotStarted st
  else if negb (IndexTsx.nonEmpty urlA) && negb (IndexTsx.nonEmpty urlB) then
    Part000.NotStarted
      (IndexTsx.addLog (lit "Sync error: No cluster endpoints defined.") LError st)
  else
    let st1 := withAborted false (withController true st) in
    let st2 := IndexTsx.addLog
                 (lit "Initiating Multi-Cluster Synchronize sequence...")
                 LInfo st1 in
    let (pcA, st3) := IndexTsx.fetchWithRetry urlA A 3 st2 in
    let (pcB, st4) := IndexTsx.fetchWithRetry urlB B 3 st3 in
    Part000.Running (Part000.mkSession pcA pcB true st4).

(** The body of [forEach], lines 374-378, for one settled unit: only a
    fulfilled, non-empty value is used. *)
Definition aggregate (side : Side) (res : Pc) (st : Store) : Store :=
  match res with
  | Resolved (Some value) =>
      if IndexTsx.nonEmpty value then
        let proxies :=
          filter (test IndexTsx.PROXY_REGEX) (map trim (split newline value)) in
        IndexTsx.addLog
          (lit "Cluster " ++ sideName side ++ lit " synchronization complete ("
           ++ ofNat (List.length proxies) ++ lit " nodes).")
          LSuccess
          (Part000.setProxies side (join [newline] proxies) st)
      else st
  | _ => st
  end.

(** What the relay answers while the signal is aborted, as line 356 needs
    it: a rejection named [AbortError]. *)
Definition fetchHonoursSignal (st : Store) (r : FetchResult) : Prop :=
  aborted st = true ->
  exists e, r = FetchRejected e /\ eqb (name e) (lit "AbortError") = true.

Definition textHonoursSignal (st : Store) (r : TextResult) : Prop :=
  aborted st = true ->
  exists e, r = TextRejected e /\ eqb (name e) (lit "AbortError") = true.

(** One turn of the event loop during a session of the older file;
    [Promise.allSettled] waits until both units have settled, and nothing
    is caught. *)
Inductive step (urlA urlB : jsstring)
  : Part000.Session -> Part000.Session -> Prop :=
| StepFetch side a r s :
    Part000.unitOf side s = AwaitFetch a ->
    fetchHonoursSignal (Part000.store s) r ->
    step urlA urlB s
         (Part000.resume side (IndexTsx.onFetch side 3 a r (Part000.store s)) s)
| StepText side a r s :
    Part000.unitOf side s = AwaitText a ->
    textHonoursSignal (Part000.store s) r ->
    step urlA urlB s
         (Part000.resume side (IndexTsx.onText side 3 a r (Part000.store s)) s)
| StepTimer side a s :
    Part000.unitOf side s = AwaitWait a ->
    step urlA urlB s
         (Part000.resume side
            (IndexTsx.onTimer (Part000.urlOf urlA urlB side) side 3 a
               (Part000.store s)) s)
| StepCancel s :
    step urlA urlB s (Part000.withStore (cancel (Part000.store s)) s)
| StepClock now s :
    step urlA urlB s (Part000.withStore (withClock now (Part000.store s)) s)
| StepSettled s :
    Part000.awaiting s = true ->
    settled (Part000.unitA s) = true -> settled (Part000.unitB s) = true ->
    step urlA urlB s
         (Part000.mkSession (Part000.unitA s) (Part000.unitB s) false
            (Part000.finally
               (aggregate B (Part000.unitB s)
                  (aggregate A (Part000.unitA s) (Part000.store s))))).

Inductive steps (urlA urlB : jsstring)
  : Part000.Session -> Part000.Session -> Prop :=
| steps_refl s : steps urlA urlB s s
| steps_cons s1 s2 s3 :
    steps urlA urlB s1 s2 -> step urlA urlB s2 s3 -> steps urlA urlB s1 s3.

End Legacy.

(* ================================================================= *)
(** ** Further observations *)

Module Observe.
Import Js.

(** The characters a valid line is written with: digits, dot, colon. *)
Definition lineChar (c : char) : bool :=
  Words.isDigit c || (c =? 46)%N || (c =? 58)%N.

(** The calls of part_000's unit over [k] failed attempts from attempt
    [a] on, each followed by its backoff and the next request. *)
Fixpoint retryTrace (url : jsstring) (side : Side) (maxRetries : nat)
  (env : nat -> AttemptEnv) (k a : nat) : list Call :=
  match k with
  | O => []
  | S k' =>
      CLog (Part000.attemptFailedMsg side a maxRetries
              (Trace.errorOf (fetched (env a)))) LWarning
      :: CWait (Part000.backoffMs a) :: CFetch side url
      :: retryTrace url side maxRetries env k' (S a)
  end.

(** A relay that answers 503 twice and then [200 OK] with the sample
    body. *)
Definition recoversAtThird (i : nat) : AttemptEnv :=
  if i <? 2 then Trace.alwaysUnavailable i
  else mkAttempt (Response true 200 (lit "OK")) (Body Trace.sampleBody) false.

(** A relay that answers 503 while the operator cancels during the
    backoff that follows. *)
Definition cancelledInBackoff (i : nat) : AttemptEnv :=
  mkAttempt (Response false 503 (lit "Service Unavailable")) (Body []) true.

(** The initial console with a session's controller in place. *)
Definition activeStore : Store := withController true initialStore.

(** The requests made for one side so far. *)
Definition isFetchOf (side : Side) (c : Call) : bool :=
  match c, side with
  | CFetch A _, A | CFetch B _, B => true
  | _, _ => false
  end.

Definition requests (side : Side) (st : Store) : nat :=
  Trace.count (isFetchOf side) (calls st).

(** How many requests a unit of a session has made when it is at [pc]:
    one per attempt started; a settled unit has made at most four. *)
Definition requestsAt (pc : Pc) (n : nat) : Prop :=
  match pc with
  | AwaitFetch a | AwaitText a | AwaitWait a => n = S a
  | Resolved _ | Rejected _ => n <= 4
  end.

(** What the status of a side shows once its unit has returned. *)
Definition shows (url : jsstring) (side : Side) (pc : Pc) (st : Store) : Prop :=
  match pc with
  | Resolved (Some _) => status side st = success
  | Resolved None =>
      Trace.pendingStatus (status side st) = false
      /\ (Part000.nonEmpty url = true -> status side st = error)
  | _ => True
  end.

(** The same for the unit of [side] in a session. *)
Definition settledShows (urlA urlB : jsstring) (s : Part000.Session)
  (side : Side) : Prop :=
  shows (Part000.urlOf urlA urlB side) side (Part000.unitOf side s)
        (Part000.store s).

(** The requests a session has added for [side] fit where its unit is. *)
Definition requestsInv (st0 : Store) (s : Part000.Session) (side : Side) : Prop :=
  exists n, requests side (Part000.store s) = requests side st0 + n
            /\ requestsAt (Part000.unitOf side s) n.

(** Both proxy lists are as they were in [st0]. *)
Definition listsKept (st0 : Store) (s : Part000.Session) : Prop :=
  proxiesLeft (Part000.store s) = proxiesLeft st0
  /\ proxiesRight (Part000.store s) = proxiesRight st0.

(** An entry sent to the log sink. *)
Definition isLogEntry (c : Call) : bool :=
  match c with CLog _ _ => true | _ => false end.

(** A fetch of the older file's unit that fails without being taken for
    a cancellation: a non-ok status, or a rejection not named
    [AbortError]. *)
Definition legacyFails (r : FetchResult) : Prop :=
  match r with
  | Response ok _ _ => ok = false
  | FetchRejected e => eqb (name e) (lit "AbortError") = false
  end.

(** The one entry the older file's unit logs when it gives up. *)
Definition legacyTimeoutMsg (side : Side) (maxRetries : nat) : jsstring :=
  lit "Cluster " ++ sideName side ++ lit " connection timeout after "
  ++ ofNat maxRetries ++ lit " attempts.".

(** The calls of the older file's unit from the failure of attempt [a]
    on, when that attempt and the [k] attempts after it all fail. *)
Fixpoint legacyTrace (url : jsstring) (side : Side) (maxRetries k a : nat)
  : list Call :=
  match k with
  | O => [CLog (legacyTimeoutMsg side maxRetries) LError]
  | S k' =>
      CWait (IndexTsx.backoffMs a) :: CFetch side url
      :: legacyTrace url side maxRetries k' (S a)
  end.

(** The rejection a cancelled request of the browser settles to. *)
Definition domAbort : JsError :=
  mkError (lit "AbortError") (lit "The user aborted a request.").

(** A session of the older file on a URL for side A only; the operator
    cancels at once, the request rejects and the coordinator resumes. *)
Definition legacySession : Part000.Session :=
  match Legacy.handleSyncFromUrls Trace.sampleUrl [] initialStore with
  | Part000.Running s => s
  | Part000.NotStarted st =>
      Part000.mkSession (Resolved None) (Resolved None) false st
  end.

Definition legacyRejected : Part000.Session :=
  Part000.resume A
    (IndexTsx.onFetch A 3 0 (FetchRejected domAbort)
       (Part000.store (Trace.afterCancel legacySession)))
    (Trace.afterCancel legacySession).

Definition legacySettled : Part000.Session :=
  Part000.mkSession (Part000.unitA legacyRejected) (Part000.unitB legacyRejected)
    false
    (Part000.finally
       (Legacy.aggregate B (Part000.unitB legacyRejected)
          (Legacy.aggregate A (Part000.unitA legacyRejected)
             (Part000.store legacyRejected)))).

(** What a settled unit handed to [Promise.all]. *)
Definition contentOf (pc : Pc) : option jsstring :=
  match pc with Resolved c => c | _ => None end.

(** The session after the coordinator has resumed from [Promise.all]
    with both units fulfilled: [forEach], then [finally]. *)
Definition aggregated (s : Part000.Session) : Part000.Session :=
  Part000.mkSession (Part000.unitA s) (Part000.unitB s) false
    (Part000.finally
       (Part000.aggregate B (contentOf (Part000.unitB s))
          (Part000.aggregate A (contentOf (Part000.unitA s)) (Part000.store s)))).

(** The entry the aggregation logs for a side with a non-empty body,
    lines 451-455. *)
Definition aggregateLog (side : Side) (content : jsstring) : Call :=
  let total := List.length (Part000.trimmedLines content) in
  let valid := List.length (Trace.keptLines content) in
  if (valid =? 0) && (0 <? total)
  then CLog (lit "Cluster " ++ sideName side
             ++ lit " fetch successful, but 0 valid proxy patterns found in "
             ++ ofNat total ++ lit " lines.") LWarning
  else CLog (lit "Cluster " ++ sideName side
             ++ lit " synchronization complete. Loaded "
             ++ ofNat valid ++ lit "/" ++ ofNat total ++ lit " valid nodes.")
            LSuccess.

Definition aggregateLogs (side : Side) (c : option jsstring) : list Call :=
  match c with
  | Some content =>
      if Part000.nonEmpty content then [aggregateLog side content] else []
  | None => []
  end.

(** Every side that returned a non-empty body shows the lines kept from
    it. *)
Definition shownLists (s : Part000.Session) : Prop :=
  forall side content,
    Part000.unitOf side s = Resolved (Some content) ->
    Part000.nonEmpty content = true ->
    proxies side (Part000.store s) = join [newline] (Trace.keptLines content).

(** How a session whose coordinator has finished stands: it aggregated
    two returned units, or a unit had rejected. *)
Definition finishedOk (s : Part000.Session) : Prop :=
  (Trace.bothResolved s = true /\ shownLists s)
  \/ exists side e, Part000.unitOf side s = Rejected e.

(** A session on two URLs from a console that lists one record: side A
    is answered with the sample body, then the operator cancels, side
    B's request rejects and the coordinator's [catch] runs. *)
Definition lateSession : Part000.Session :=
  match Part000.handleSyncFromUrls Trace.sampleUrl Trace.sampleUrl Trace.sampleListed with
  | Part000.Running s => s
  | Part000.NotStarted st =>
      Part000.mkSession (Resolved None) (Resolved None) false st
  end.

Definition lateAnswered : Part000.Session :=
  Part000.resume A
    (Part000.onFetch A 3 0 (Response true 200 (lit "OK")) (Part000.store lateSession))
    lateSession.

Definition lateRead : Part000.Session :=
  Part000.resume A
    (Part000.onText A 3 0 (Body Trace.sampleBody) (Part000.store lateAnswered))
    lateAnswered.

Definition lateRejected : Part000.Session :=
  Part000.resume B
    (Part000.onFetch B 3 0 (FetchRejected Part000.abortErr)
       (Part000.store (Trace.afterCancel lateRead)))
    (Trace.afterCancel lateRead).

Definition lateCaught : Part000.Session :=
  Part000.mkSession (Part000.unitA lateRejected) (Part000.unitB lateRejected) false
    (Part000.finally
       (Part000.onRejected Part000.abortErr (Part000.store lateRejected))).

(** The session after the older file's coordinator has resumed from
    [Promise.allSettled]: [forEach], then [finally]. *)
Definition settledByLegacy (s : Part000.Session) : Part000.Session :=
  Part000.mkSession (Part000.unitA s) (Part000.unitB s) false
    (Part000.finally
       (Legacy.aggregate B (Part000.unitB s)
          (Legacy.aggregate A (Part000.unitA s) (Part000.store s)))).

(** The same events in the older file. *)
Definition legacyLate : Part000.Session :=
  match Legacy.handleSyncFromUrls Trace.sampleUrl Trace.sampleUrl Trace.sampleListed with
  | Part000.Running s => s
  | Part000.NotStarted st =>
      Part000.mkSession (Resolved None) (Resolved None) false st
  end.

Definition legacyLateAnswered : Part000.Session :=
  Part000.resume A
    (IndexTsx.onFetch A 3 0 (Response true 200 (lit "OK")) (Part000.store legacyLate))
    legacyLate.

Definition legacyLateRead : Part000.Session :=
  Part000.resume A
    (IndexTsx.onText A 3 0 (Body Trace.sampleBody) (Part000.store legacyLateAnswered))
    legacyLateAnswered.

Definition legacyLateRejected : Part000.Session :=
  Part000.resume B
    (IndexTsx.onFetch B 3 0 (FetchRejected domAbort)
       (Part000.store (Trace.afterCancel legacyLateRead)))
    (Trace.afterCancel legacyLateRead).

Definition legacyLateSettled : Part000.Session := settledByLegacy legacyLateRejected.

(** The entry a unit of a session logs when it gives up. *)
Definition terminalFailure (side : Side) : Call :=
  CLog (Part000.terminalFailureMsg side 3) LError.

(** The error entries a session has added are the terminal failures of
    [sides], each once, and those units have returned null. *)
Definition errorsInv (st0 : Store) (s : Part000.Session) (sides : list Side) : Prop :=
  NoDup sides
  /\ Trace.errorLogs (Part000.store s)
     = Trace.errorLogs st0 ++ map terminalFailure sides
  /\ forall side, In side sides -> Part000.unitOf side s = Resolved None.

(** A console with one record in list A and nothing running. *)
Definition sampleApp : Console.App :=
  Console.mkApp Trace.sampleListed false false Console.Disconnected
    (lit "https://example.org/v/1") 100000
    (Part000.mkSimulator 100000 []).

(** Two ticks of a run with their draws and time labels. *)
Definition sampleDraws : list (Q * jsstring) :=
  [((1 # 2)%Q, lit "12:00:01"); (0%Q, lit "12:00:02")].

(** A console that has logged one entry. *)
Definition sampleLogged : Store :=
  Part000.addLog (lit "ready") LInfo initialStore.

(** A run is started and its interval fires once. *)
Definition sampleGaugeOps : list Console.GaugeOp :=
  [Console.GaugeRun (1 # 2)%Q; Console.GaugeTick (1 # 2)%Q 0%Q].

End Observe.

(* ================================================================= *)
(** * Properties *)

(** ** Rounding to binary64

    [round] is monotone, lands on a binary64 (rounding again changes
    nothing; integers up to [2^53] are fixed), and is within half a unit
    in the last place of its argument. *)

Section Binary64Facts.
Import Binary64.
Local Open Scope Q_scope.

Lemma pow2_pos e : 0 < pow2 e.
Proof. apply Qpower_0_lt. reflexivity. Qed.

Lemma pow2_le a b : (a <= b)%Z -> pow2 a <= pow2 b.
Proof. intro H. apply Qpower_le_compat_l; [exact H | discriminate]. Qed.

Lemma pow2_lt a b : (a < b)%Z -> pow2 a < pow2 b.
Proof. intro H. apply Qpower_lt_compat_l; [exact H | reflexivity]. Qed.

Lemma pow2_plus a b : pow2 (a + b) == pow2 a * pow2 b.
Proof. apply Qpower_plus. discriminate. Qed.

Lemma pow2_lt_inv a b : pow2 a < pow2 b -> (a < b)%Z.
Proof. intro H. apply (Qpower_lt_compat_l_inv 2); [exact H | reflexivity]. Qed.

Lemma pow2_Z n : (0 <= n)%Z -> inject_Z (2 ^ n) == pow2 n.
Proof. intro H. apply (Zpower_Qpower 2 n H). Qed.

Lemma log2_bounds n :
  (0 < n)%Z -> pow2 (Z.log2 n) <= inject_Z n /\ inject_Z n < pow2 (Z.log2 n + 1).
Proof.
  intro Hn. destruct (Z.log2_spec n Hn) as [H1 H2].
  pose proof (Z.log2_nonneg n) as H0.
  rewrite <- !pow2_Z by lia. rewrite <- Zle_Qle, <- Zlt_Qlt.
  split; [exact H1|]. now rewrite <- Z.add_1_r in H2.
Qed.

Lemma ilog2_spec x : 0 < x -> pow2 (ilog2 x) <= x /\ x < pow2 (ilog2 x + 1).
Proof.
  intro Hx. destruct x as [n d].
  assert (Hn : (0 < n)%Z) by (unfold Qlt in Hx; cbn in Hx; lia).
  unfold ilog2. cbn [Qnum Qden].
  set (a := Z.log2 n). set (b := Z.log2 (Zpos d)).
  destruct (log2_bounds Hn) as [P1 P2]. fold a in P1, P2.
  destruct (@log2_bounds (Zpos d) eq_refl) as [P3 P4]. fold b in P3, P4.
  assert (E : (n # d) * inject_Z (Zpos d) == inject_Z n).
  { rewrite (Qmake_Qdiv n d). field. discriminate. }
  set (x := n # d) in *. set (N := inject_Z n) in *. set (D := inject_Z (Zpos d)) in *.
  assert (HU : x < pow2 (a - b + 1)).
  { apply Qnot_le_lt. intro Hc.
    pose proof (pow2_plus (a - b + 1) b) as Hp.
    replace (a - b + 1 + b)%Z with (a + 1)%Z in Hp by lia.
    pose proof (pow2_pos (a - b + 1)). pose proof (pow2_pos b).
    nra. }
  assert (HL : pow2 (a - b - 1) < x).
  { apply Qnot_le_lt. intro Hc.
    pose proof (pow2_plus (a - b - 1) (b + 1)) as Hp.
    replace (a - b - 1 + (b + 1))%Z with a in Hp by lia.
    pose proof (pow2_pos (a - b - 1)). pose proof (pow2_pos (b + 1)).
    nra. }
  destruct (Qle_bool (pow2 (a - b)) x) eqn:Hk.
  - apply Qle_bool_iff in Hk. split; assumption.
  - split; [apply Qlt_le_weak; exact HL|].
    replace (a - b - 1 + 1)%Z with (a - b)%Z by lia.
    apply Qnot_le_lt. intro Hc. apply Qle_bool_iff in Hc. congruence.
Qed.

Lemma ilog2_unique x k :
  pow2 k <= x -> x < pow2 (k + 1) -> ilog2 x = k.
Proof.
  intros H1 H2.
  assert (Hx : 0 < x) by (eapply Qlt_le_trans; [apply pow2_pos | exact H1]).
  destruct (ilog2_spec Hx) as [S1 S2].
  assert (A : (k < ilog2 x + 1)%Z)
    by (apply pow2_lt_inv; eapply Qle_lt_trans; eassumption).
  assert (B : (ilog2 x < k + 1)%Z)
    by (apply pow2_lt_inv; eapply Qle_lt_trans; eassumption).
  lia.
Qed.

Lemma ilog2_mono x y : 0 < x -> x <= y -> (ilog2 x <= ilog2 y)%Z.
Proof.
  intros Hx Hxy.
  assert (Hy : 0 < y) by (eapply Qlt_le_trans; eassumption).
  destruct (ilog2_spec Hx) as [S1 _]. destruct (ilog2_spec Hy) as [_ T2].
  assert (A : (ilog2 x < ilog2 y + 1)%Z).
  { apply pow2_lt_inv. eapply Qle_lt_trans; [exact S1|].
    eapply Qle_lt_trans; eassumption. }
  lia.
Qed.

Lemma nearestEven_bounds x :
  (Qfloor x <= nearestEven x <= Qfloor x + 1)%Z.
Proof.
  unfold nearestEven.
  destruct (Qcompare _ _); [destruct (Z.even _)| |]; lia.
Qed.

Lemma nearestEven_Z n x : x == inject_Z n -> nearestEven x = n.
Proof.
  intro E. unfold nearestEven.
  assert (F : Qfloor x = n) by (rewrite E; apply Qfloor_Z).
  rewrite F.
  assert (H : x - inject_Z n < 1 # 2) by (rewrite E; lra).
  destruct (Qcompare_spec (x - inject_Z n) (1 # 2)) as [Ec | Lc | Gc];
    [exfalso; lra | reflexivity | exfalso; lra].
Qed.

Lemma nearestEven_le_Z x n : x <= inject_Z n -> (nearestEven x <= n)%Z.
Proof.
  intro H. pose proof (nearestEven_bounds x) as B.
  pose proof (Qfloor_le x) as Fl.
  destruct (Z_lt_le_dec (Qfloor x) n) as [L | G]; [lia|].
  assert (E : x == inject_Z n).
  { apply Qle_antisym; [exact H|].
    eapply Qle_trans; [|exact Fl]. now rewrite <- Zle_Qle. }
  rewrite (nearestEven_Z E). lia.
Qed.

Lemma nearestEven_ge_Z x n : inject_Z n <= x -> (n <= nearestEven x)%Z.
Proof.
  intro H. pose proof (nearestEven_bounds x) as B.
  pose proof (Qfloor_resp_le _ _ H) as F. rewrite Qfloor_Z in F. lia.
Qed.

Lemma nearestEven_mono x y : x <= y -> (nearestEven x <= nearestEven y)%Z.
Proof.
  intro H.
  pose proof (nearestEven_bounds x) as Bx. pose proof (nearestEven_bounds y) as By.
  pose proof (Qfloor_resp_le _ _ H) as F.
  destruct (Z_lt_le_dec (Qfloor x) (Qfloor y)) as [L | G]; [lia|].
  assert (E : Qfloor x = Qfloor y) by lia.
  unfold nearestEven. rewrite E.
  destruct (Qcompare_spec (x - inject_Z (Qfloor y)) (1 # 2)) as [Ex | Lx | Gx];
    destruct (Qcompare_spec (y - inject_Z (Qfloor y)) (1 # 2)) as [Ey | Ly | Gy];
    try destruct (Z.even (Qfloor y)); try lia; exfalso; lra.
Qed.


Lemma ulpExp_mono x y : 0 < x -> x <= y -> (ulpExp x <= ulpExp y)%Z.
Proof. intros Hx Hxy. unfold ulpExp. pose proof (ilog2_mono Hx Hxy). lia. Qed.

Lemma ulpExp_min x : (-1074 <= ulpExp x)%Z.
Proof. unfold ulpExp. lia. Qed.

Lemma pow2_53 : pow2 53 == inject_Z (2 ^ 53).
Proof. reflexivity. Qed.

Lemma pow2_52 : pow2 52 == inject_Z (2 ^ 52).
Proof. reflexivity. Qed.

Lemma scaled_upper x : 0 < x -> x / pow2 (ulpExp x) < inject_Z (2 ^ 53).
Proof.
  intro Hx. destruct (ilog2_spec Hx) as [_ H].
  apply Qlt_shift_div_r; [apply pow2_pos|].
  rewrite <- pow2_53, <- pow2_plus.
  eapply Qlt_le_trans; [exact H|]. apply pow2_le. unfold ulpExp. lia.
Qed.

Lemma scaled_lower x :
  0 < x -> (-1074 < ulpExp x)%Z -> inject_Z (2 ^ 52) <= x / pow2 (ulpExp x).
Proof.
  intros Hx He. destruct (ilog2_spec Hx) as [H _].
  apply Qle_shift_div_l; [apply pow2_pos|].
  rewrite <- pow2_52, <- pow2_plus.
  eapply Qle_trans; [|exact H]. apply pow2_le. unfold ulpExp in *. lia.
Qed.

Lemma scaled_pos x : 0 < x -> 0 < x / pow2 (ulpExp x).
Proof.
  intro Hx. apply Qlt_shift_div_l; [apply pow2_pos|]. now rewrite Qmult_0_l.
Qed.

Lemma roundPos_upper x : 0 < x -> roundPos x <= pow2 (53 + ulpExp x).
Proof.
  intro Hx. unfold roundPos. rewrite pow2_plus, pow2_53.
  apply Qmult_le_compat_r; [|apply Qlt_le_weak, pow2_pos].
  rewrite <- Zle_Qle. apply nearestEven_le_Z, Qlt_le_weak, scaled_upper, Hx.
Qed.

Lemma roundPos_lower x :
  0 < x -> (-1074 < ulpExp x)%Z -> pow2 (52 + ulpExp x) <= roundPos x.
Proof.
  intros Hx He. unfold roundPos. rewrite pow2_plus, pow2_52.
  apply Qmult_le_compat_r; [|apply Qlt_le_weak, pow2_pos].
  rewrite <- Zle_Qle. now apply nearestEven_ge_Z, scaled_lower.
Qed.

Lemma roundPos_nonneg x : 0 < x -> 0 <= roundPos x.
Proof.
  intro Hx. unfold roundPos.
  apply Qmult_le_0_compat; [|apply Qlt_le_weak, pow2_pos].
  change 0 with (inject_Z 0). rewrite <- Zle_Qle.
  apply nearestEven_ge_Z. apply Qlt_le_weak, scaled_pos, Hx.
Qed.

Lemma roundPos_mono x y : 0 < x -> x <= y -> roundPos x <= roundPos y.
Proof.
  intros Hx Hxy.
  assert (Hy : 0 < y) by (eapply Qlt_le_trans; eassumption).
  pose proof (ulpExp_mono Hx Hxy) as He.
  destruct (Z.eq_dec (ulpExp x) (ulpExp y)) as [E | N].
  - unfold roundPos. rewrite E.
    apply Qmult_le_compat_r; [|apply Qlt_le_weak, pow2_pos].
    rewrite <- Zle_Qle. apply nearestEven_mono.
    apply Qmult_le_compat_r; [exact Hxy|].
    apply Qlt_le_weak, Qinv_lt_0_compat, pow2_pos.
  - eapply Qle_trans; [apply roundPos_upper, Hx|].
    eapply Qle_trans; [|apply roundPos_lower; [exact Hy|]].
    + apply pow2_le. lia.
    + pose proof (ulpExp_min x). lia.
Qed.

Lemma round_mono x y : x <= y -> round x <= round y.
Proof.
  intro H. unfold round.
  destruct (Qcompare_spec x 0) as [Ex | Lx | Gx];
    destruct (Qcompare_spec y 0) as [Ey | Ly | Gy]; try (exfalso; lra).
  - apply Qle_refl.
  - now apply roundPos_nonneg.
  - assert (0 <= roundPos (- x)) by (apply roundPos_nonneg; lra). lra.
  - assert (roundPos (- y) <= roundPos (- x)) by (apply roundPos_mono; lra). lra.
  - assert (0 <= roundPos (- x)) by (apply roundPos_nonneg; lra).
    assert (0 <= roundPos y) by (now apply roundPos_nonneg). lra.
  - now apply roundPos_mono.
Qed.

Lemma round_comp x y : x == y -> round x == round y.
Proof. intro E. apply Qle_antisym; apply round_mono; rewrite E; apply Qle_refl. Qed.

Lemma round_0 : round 0 == 0.
Proof. reflexivity. Qed.

Lemma round_nonneg x : 0 <= x -> 0 <= round x.
Proof. intro H. rewrite <- round_0. now apply round_mono. Qed.

Lemma roundPos_comp x y : 0 < x -> x == y -> roundPos x == roundPos y.
Proof.
  intros Hx E. apply Qle_antisym; apply roundPos_mono; rewrite <- ?E; try exact Hx;
    rewrite ?E; apply Qle_refl.
Qed.

(** A dyadic number with fewer than 54 bits and an exponent in range is
    a binary64: rounding leaves it as it is. *)
Lemma roundPos_dyadic M e :
  (0 < M < 2 ^ 53)%Z -> (-1074 <= e)%Z ->
  roundPos (inject_Z M * pow2 e) == inject_Z M * pow2 e.
Proof.
  intros HM He. set (y := inject_Z M * pow2 e).
  assert (Hy : 0 < y).
  { unfold y. apply Qmult_lt_0_compat; [|apply pow2_pos].
    change 0 with (inject_Z 0). rewrite <- Zlt_Qlt. lia. }
  assert (Hlt : y < pow2 (53 + e)).
  { unfold y. rewrite pow2_plus, pow2_53.
    apply Qmult_lt_compat_r; [apply pow2_pos|]. rewrite <- Zlt_Qlt. lia. }
  assert (Hu : (ulpExp y <= e)%Z).
  { destruct (ilog2_spec Hy) as [S1 _].
    assert (ilog2 y < 53 + e)%Z
      by (apply pow2_lt_inv; eapply Qle_lt_trans; eassumption).
    unfold ulpExp. lia. }
  unfold roundPos. set (u := ulpExp y) in *.
  assert (Hp : pow2 e == inject_Z (2 ^ (e - u)) * pow2 u).
  { rewrite pow2_Z by lia. rewrite <- pow2_plus. now replace (e - u + u)%Z with e by lia. }
  assert (Hq : y / pow2 u == inject_Z (M * 2 ^ (e - u))).
  { unfold y. rewrite Hp, inject_Z_mult. field.
    intro H0. pose proof (pow2_pos u). lra. }
  rewrite (nearestEven_Z Hq). unfold y. rewrite Hp, inject_Z_mult. ring.
Qed.

Lemma roundPos_form x :
  0 < x ->
  exists M, roundPos x = inject_Z M * pow2 (ulpExp x) /\ (0 <= M <= 2 ^ 53)%Z.
Proof.
  intro Hx. exists (nearestEven (x / pow2 (ulpExp x))). split; [reflexivity|].
  split.
  - apply nearestEven_ge_Z. apply Qlt_le_weak, scaled_pos, Hx.
  - apply nearestEven_le_Z, Qlt_le_weak, scaled_upper, Hx.
Qed.

Lemma round_neg x : x < 0 -> round x = - roundPos (- x).
Proof.
  intro H. unfold round.
  destruct (Qcompare_spec x 0); [exfalso; lra | reflexivity | exfalso; lra].
Qed.

Lemma round_pos x : 0 < x -> round x = roundPos x.
Proof.
  intro H. unfold round.
  destruct (Qcompare_spec x 0); [exfalso; lra | exfalso; lra | reflexivity].
Qed.

Lemma roundPos_idem x : 0 < x -> round (roundPos x) == roundPos x.
Proof.
  intro Hx. destruct (roundPos_form Hx) as (M & E & HM). rewrite E.
  pose proof (ulpExp_min x) as He. set (e := ulpExp x) in *.
  destruct (Z.eq_dec M 0) as [-> | N0].
  - rewrite (@round_comp (inject_Z 0 * pow2 e) 0) by ring. rewrite round_0. ring.
  - destruct (Z.eq_dec M (2 ^ 53)) as [-> | N53].
    + assert (Ey : inject_Z (2 ^ 53) * pow2 e == inject_Z (2 ^ 52) * pow2 (1 + e)).
      { rewrite (pow2_plus 1 e). change (pow2 1) with 2.
        change (inject_Z (2 ^ 53)) with (inject_Z (2 ^ 52) * 2). ring. }
      rewrite (round_comp Ey), Ey.
      assert (Hpos : 0 < inject_Z (2 ^ 52) * pow2 (1 + e))
        by (apply Qmult_lt_0_compat; [reflexivity | apply pow2_pos]).
      rewrite (round_pos Hpos).
      apply roundPos_dyadic; lia.
    + assert (Hpos : 0 < inject_Z M * pow2 e).
      { apply Qmult_lt_0_compat; [|apply pow2_pos].
        change 0 with (inject_Z 0). rewrite <- Zlt_Qlt. lia. }
      rewrite (round_pos Hpos).
      apply roundPos_dyadic; lia.
Qed.

Lemma round_idem x : round (round x) == round x.
Proof.
  destruct (Qcompare_spec x 0) as [Ex | Lx | Gx].
  - assert (E : round x == 0) by (rewrite (round_comp Ex); apply round_0).
    rewrite (round_comp E), E. apply round_0.
  - assert (Hn : 0 < - x) by lra.
    rewrite (round_neg Lx).
    pose proof (roundPos_idem Hn) as H.
    pose proof (roundPos_nonneg Hn) as H0.
    set (y := roundPos (- x)) in *.
    destruct (Qle_lt_or_eq _ _ H0) as [Hy | Hy].
    + assert (Hc : - y < 0) by lra.
      rewrite (round_neg Hc).
      assert (E : - - y == y) by ring.
      assert (Hyy : 0 < - - y) by lra.
      rewrite (roundPos_comp Hyy E).
      rewrite (round_pos Hy) in H. now rewrite H.
    + assert (E : - y == 0) by lra.
      rewrite (round_comp E), E. apply round_0.
  - rewrite (round_pos Gx). now apply roundPos_idem.
Qed.

(** Integers up to [2^53] in magnitude are binary64 numbers. *)
Lemma round_Z_small n :
  (- 2 ^ 53 <= n <= 2 ^ 53)%Z -> round (inject_Z n) == inject_Z n.
Proof.
  intro Hn.
  assert (P : forall m, (0 < m <= 2 ^ 53)%Z -> roundPos (inject_Z m) == inject_Z m).
  { intros m Hm. destruct (Z.eq_dec m (2 ^ 53)) as [-> | N].
    - assert (E : inject_Z (2 ^ 53) == inject_Z (2 ^ 52) * pow2 1) by reflexivity.
      assert (Hpos : 0 < inject_Z (2 ^ 53)) by reflexivity.
      eapply Qeq_trans; [apply (roundPos_comp Hpos E)|].
      eapply Qeq_trans; [apply roundPos_dyadic; lia|]. symmetry. exact E.
    - assert (E : inject_Z m == inject_Z m * pow2 0)
        by (change (pow2 0) with 1; ring).
      assert (Hpos : 0 < inject_Z m)
        by (change 0 with (inject_Z 0); rewrite <- Zlt_Qlt; lia).
      eapply Qeq_trans; [apply (roundPos_comp Hpos E)|].
      eapply Qeq_trans; [apply roundPos_dyadic; lia|]. symmetry. exact E. }
  unfold round. destruct (Qcompare_spec (inject_Z n) 0) as [E0 | L | G].
  - now rewrite E0.
  - change 0 with (inject_Z 0) in L. rewrite <- Zlt_Qlt in L.
    assert (E : - inject_Z n == inject_Z (- n)) by (rewrite inject_Z_opp; ring).
    assert (Hpos : 0 < - inject_Z n).
    { rewrite E. change 0 with (inject_Z 0). rewrite <- Zlt_Qlt. lia. }
    rewrite (roundPos_comp Hpos E), P by lia. rewrite inject_Z_opp. ring.
  - change 0 with (inject_Z 0) in G. rewrite <- Zlt_Qlt in G. apply P. lia.
Qed.

(** Rounding an integer gives an integer. *)
Lemma roundPos_Z_integer n :
  (0 < n)%Z -> exists z, roundPos (inject_Z n) == inject_Z z.
Proof.
  intro Hn. unfold roundPos. set (u := ulpExp (inject_Z n)).
  destruct (Z_lt_le_dec u 0) as [L | G].
  - exists n.
    assert (Hp : 1 == inject_Z (2 ^ (- u)) * pow2 u).
    { rewrite pow2_Z by lia. rewrite <- pow2_plus.
      now replace (- u + u)%Z with 0%Z by lia. }
    assert (Hq : inject_Z n / pow2 u == inject_Z (n * 2 ^ (- u))).
    { rewrite inject_Z_mult.
      assert (Hu : ~ pow2 u == 0) by (pose proof (pow2_pos u); lra).
      apply (Qmult_inj_r _ _ (pow2 u) Hu).
      rewrite <- Qmult_assoc, <- Hp. field. exact Hu. }
    rewrite (nearestEven_Z Hq), inject_Z_mult, <- Qmult_assoc, <- Hp. ring.
  - exists (nearestEven (inject_Z n / pow2 u) * 2 ^ u)%Z.
    now rewrite inject_Z_mult, pow2_Z.
Qed.

Lemma round_Z_integer n : exists z, round (inject_Z n) == inject_Z z.
Proof.
  unfold round. destruct (Qcompare_spec (inject_Z n) 0) as [E0 | L | G].
  - now exists 0%Z.
  - change 0 with (inject_Z 0) in L. rewrite <- Zlt_Qlt in L.
    destruct (@roundPos_Z_integer (- n)) as (z & Hz); [lia|].
    exists (- z)%Z.
    assert (E : - inject_Z n == inject_Z (- n)) by (rewrite inject_Z_opp; ring).
    assert (Hpos : 0 < - inject_Z n).
    { rewrite E. change 0 with (inject_Z 0). rewrite <- Zlt_Qlt. lia. }
    rewrite (roundPos_comp Hpos E), Hz, inject_Z_opp. ring.
  - change 0 with (inject_Z 0) in G. rewrite <- Zlt_Qlt in G.
    now apply roundPos_Z_integer.
Qed.

Lemma addZ_round a b : inject_Z (addZ a b) == round (inject_Z (a + b)).
Proof.
  unfold addZ. destruct (round_Z_integer (a + b)) as (z & Hz).
  rewrite (Qfloor_comp _ _ Hz), Qfloor_Z. symmetry. exact Hz.
Qed.

Lemma addZ_exact a b :
  (- 2 ^ 53 <= a + b <= 2 ^ 53)%Z -> addZ a b = (a + b)%Z.
Proof.
  intro H. unfold addZ. rewrite (Qfloor_comp _ _ (round_Z_small H)). apply Qfloor_Z.
Qed.

(** The sum of a binary64 integer and a non-negative integer is not
    below it. *)
Lemma addZ_ge a d :
  round (inject_Z a) == inject_Z a -> (0 <= d)%Z -> (a <= addZ a d)%Z.
Proof.
  intros Ha Hd. rewrite Zle_Qle.
  eapply Qle_trans; [|apply Qle_lteq; right; symmetry; apply addZ_round].
  eapply Qle_trans; [apply Qle_lteq; right; symmetry; exact Ha|].
  apply round_mono. rewrite <- Zle_Qle. lia.
Qed.

Lemma addZ_fixed a b : round (inject_Z (addZ a b)) == inject_Z (addZ a b).
Proof.
  eapply Qeq_trans; [apply (round_comp (addZ_round a b))|].
  eapply Qeq_trans; [apply round_idem|]. symmetry. apply addZ_round.
Qed.

Lemma nearestEven_half x :
  - (1 # 2) <= inject_Z (nearestEven x) - x /\ inject_Z (nearestEven x) - x <= 1 # 2.
Proof.
  pose proof (Qfloor_le x) as Hl. pose proof (Qlt_floor x) as Hu.
  rewrite inject_Z_plus in Hu. change (inject_Z 1) with 1 in Hu.
  unfold nearestEven.
  destruct (Qcompare_spec (x - inject_Z (Qfloor x)) (1 # 2)) as [E | L | G];
    [destruct (Z.even (Qfloor x))| |];
    rewrite ?inject_Z_plus; change (inject_Z 1) with 1; split; lra.
Qed.

(** [round x] is within half a unit in the last place of [x]. *)
Lemma roundPos_half_ulp x :
  0 < x ->
  - (pow2 (ulpExp x) / 2) <= roundPos x - x /\ roundPos x - x <= pow2 (ulpExp x) / 2.
Proof.
  intro Hx. unfold roundPos.
  pose proof (pow2_pos (ulpExp x)) as Hp. set (p := pow2 (ulpExp x)) in *.
  destruct (nearestEven_half (x / p)) as [H1 H2].
  set (n := inject_Z (nearestEven (x / p))) in *.
  assert (E : x == x / p * p) by (field; lra).
  set (q := x / p) in *.
  split.
  - setoid_replace (n * p - x) with ((n - q) * p) by (rewrite E at 1; ring).
    setoid_replace (- (p / 2)) with (- (1 # 2) * p) by field. 
    apply Qmult_le_compat_r; lra.
  - setoid_replace (n * p - x) with ((n - q) * p) by (rewrite E at 1; ring).
    setoid_replace (p / 2) with ((1 # 2) * p) by field.
    apply Qmult_le_compat_r; lra.
Qed.

End Binary64Facts.

(** ** The matcher and the language of a pattern *)

Section RegexFacts.
Import Js Regex.

Lemma run_sound r : forall s k,
  run r s k = true ->
  exists s1 s2, s = s1 ++ s2 /\ matches r s1 /\ k s2 = true.
Proof.
  induction r as [|lo hi|a IHa b IHb|a IHa b IHb|a IHa]; intros s k H; cbn in H.
  - exists [], s. repeat split; [constructor | assumption].
  - destruct s as [|c s']; [discriminate|].
    apply andb_prop in H as [H Hk]. apply andb_prop in H as [Hlo Hhi].
    apply N.leb_le in Hlo. apply N.leb_le in Hhi.
    exists [c], s'. repeat split; [constructor; assumption | assumption].
  - apply IHa in H as (s1 & s2 & -> & Ha & Hb).
    apply IHb in Hb as (s3 & s4 & -> & Hb & Hk).
    exists (s1 ++ s3), s4. rewrite <- app_assoc.
    repeat split; [constructor; assumption | assumption].
  - apply orb_prop in H as [H | H].
    + apply IHa in H as (s1 & s2 & -> & Ha & Hk).
      exists s1, s2. repeat split; [apply MAltL; assumption | assumption].
    + apply IHb in H as (s1 & s2 & -> & Hb & Hk).
      exists s1, s2. repeat split; [apply MAltR; assumption | assumption].
  - apply orb_prop in H as [H | H].
    + apply IHa in H as (s1 & s2 & -> & Ha & Hk).
      exists s1, s2. repeat split; [apply MOptSome; assumption | assumption].
    + exists [], s. repeat split; [apply MOptNone | assumption].
Qed.

Lemma run_complete r s1 : matches r s1 ->
  forall s2 k, k s2 = true -> run r (s1 ++ s2) k = true.
Proof.
  induction 1 as [|lo hi c Hlo Hhi|a b s1 s1' _ IHa _ IHb|a b s _ IH|a b s _ IH
                 |a s _ IH|a]; intros s2 k Hk; cbn.
  - assumption.
  - apply N.leb_le in Hlo. apply N.leb_le in Hhi. now rewrite Hlo, Hhi, Hk.
  - rewrite <- app_assoc. apply IHa. apply IHb. assumption.
  - rewrite (IH _ _ Hk). reflexivity.
  - rewrite (IH _ _ Hk). apply orb_true_r.
  - rewrite (IH _ _ Hk). reflexivity.
  - rewrite Hk. apply orb_true_r.
Qed.

Lemma atEnd_nil s : atEnd s = true -> s = [].
Proof. destruct s; [reflexivity | discriminate]. Qed.

(** The anchored test decides membership in the pattern's language. *)
Lemma test_matches r s : test r s = true <-> matches r s.
Proof.
  unfold test. split; intro H.
  - apply run_sound in H as (s1 & s2 & -> & Hm & He).
    apply atEnd_nil in He. subst. now rewrite app_nil_r.
  - rewrite <- (app_nil_r s). now apply run_complete.
Qed.

End RegexFacts.

(** ** The line validator *)

Section ValidatorFacts.
Import Js Regex Words.

Lemma m_cons a b c s : matches a [c] -> matches b s -> matches (Seq a b) (c :: s).
Proof. intros Ha Hb. change (c :: s) with ([c] ++ s). now constructor. Qed.

Lemma m_skip a b s : matches a [] -> matches b s -> matches (Seq a b) s.
Proof. intros Ha Hb. change s with ([] ++ s). now constructor. Qed.

Ltac inv_matches :=
  repeat match goal with
  | H : matches Eps _ |- _ => inversion H; clear H; subst
  | H : matches (Rng _ _) _ |- _ => inversion H; clear H; subst
  | H : matches (Seq _ _) _ |- _ => inversion H; clear H; subst
  | H : matches (Alt _ _) _ |- _ => inversion H; clear H; subst
  | H : matches (Opt _) _ |- _ => inversion H; clear H; subst
  end.

Lemma octet_eq : Part000.octet =
  (Alt (Seq (Rng 50 50) (Seq (Rng 53 53) (Rng 48 53)))
   (Alt (Seq (Rng 50 50) (Seq (Rng 48 52) (Rng 48 57)))
        (Seq (Opt (Rng 48 49)) (Seq (Rng 48 57) (Opt (Rng 48 57))))))%N.
Proof. reflexivity. Qed.

Lemma isDigit_iff c : isDigit c = true <-> (48 <= c <= 57)%N.
Proof.
  unfold isDigit. rewrite andb_true_iff, !N.leb_le. reflexivity.
Qed.

Ltac digits :=
  repeat match goal with
  | H : isDigit _ = true |- _ => apply isDigit_iff in H
  | |- isDigit _ = true => apply isDigit_iff
  end.

(** An explicit digit string is a numeral of the stated shape and value. *)
Ltac shape_ok :=
  split;
  [ split;
    [ discriminate
    | cbn [forallb]; rewrite ?andb_true_iff; repeat split;
      apply isDigit_iff; lia ]
  | split;
    [ cbn [hd List.length]; lia
    | unfold valueOf; cbn [fold_left]; lia ] ].

Lemma octet_sound s : matches Part000.octet s -> octetText s.
Proof.
  rewrite octet_eq. intro H. inv_matches; cbn [app]; shape_ok.
Qed.

Ltac build :=
  solve [ apply MEps | apply MOptNone | apply MRng; lia
        | apply MOptSome; build
        | apply m_cons; [build | build]
        | apply m_skip; [build | build]
        | apply MAltL; build | apply MAltR; build ].

Ltac digit_bounds H :=
  cbn [forallb] in H; rewrite ?andb_true_iff in H;
  repeat match type of H with
         | _ /\ _ => let H1 := fresh "Hd" in destruct H as [H1 H]; apply isDigit_iff in H1
         end;
  try clear H.

Lemma octet_complete s : octetText s -> matches Part000.octet s.
Proof.
  rewrite octet_eq. intros [[Hne Hd] [Hlen Hv]].
  destruct s as [|c1 [|c2 [|c3 [|c4 s]]]]; cbn in Hlen; try lia; [congruence | ..];
    digit_bounds Hd; unfold valueOf in Hv; cbn [fold_left] in Hv.
  - build.
  - build.
  - destruct (N.le_gt_cases c1 49); [build|].
    destruct (N.le_gt_cases c2 52); [build|].
    build.
Qed.

Lemma valueOf_acc_le s : forall acc,
  (acc <= fold_left (fun a c => 10 * a + (c - 48)) s acc)%N.
Proof.
  induction s as [|c s IH]; intro acc; cbn [fold_left]; [lia|].
  specialize (IH (10 * acc + (c - 48))%N). lia.
Qed.

Lemma port_sound s : matches Part000.port s -> portText s.
Proof.
  let r := eval vm_compute in Part000.port in change Part000.port with r.
  intro H. inv_matches; cbn [app]; shape_ok.
Qed.

Lemma port_complete s : portText s -> matches Part000.port s.
Proof.
  let r := eval vm_compute in Part000.port in change Part000.port with r.
  intros [[Hne Hd] [Hhd Hv]].
  destruct s as [|c1 [|c2 [|c3 [|c4 [|c5 [|c6 s]]]]]]; [congruence | ..];
    cbn [hd] in Hhd; unfold valueOf in Hv; cbn [fold_left] in Hv.
  1-5: digit_bounds Hd.
  - build.
  - build.
  - build.
  - build.
  - destruct (N.le_gt_cases c1 53); [build|].
    destruct (N.le_gt_cases c2 52); [build|].
    destruct (N.le_gt_cases c3 52); [build|].
    destruct (N.le_gt_cases c4 50); [build|].
    build.
  - exfalso.
    cbn [forallb] in Hd. rewrite !andb_true_iff in Hd.
    destruct Hd as (H1 & H2 & H3 & H4 & H5 & H6 & _). digits.
    match type of Hv with
    | (_ <= fold_left ?f s ?acc <= _)%N => pose proof (valueOf_acc_le s acc)
    end. lia.
Qed.

Lemma octet_iff s : matches Part000.octet s <-> octetText s.
Proof. split; [apply octet_sound | apply octet_complete]. Qed.

Lemma port_iff s : matches Part000.port s <-> portText s.
Proof. split; [apply port_sound | apply port_complete]. Qed.

Lemma PROXY_REGEX_eq : Part000.PROXY_REGEX =
  (let dot := Rng 46 46 in
   let o := Part000.octet in
   Seq (Seq (Seq o dot) (Seq (Seq o dot) (Seq (Seq o dot) Eps)))
       (Seq o (Seq (Rng 58 58) Part000.port)))%N.
Proof. reflexivity. Qed.

Lemma PROXY_REGEX_language l :
  matches Part000.PROXY_REGEX l <->
  exists a b c d p, l = dotted a b c d p
    /\ Forall (matches Part000.octet) [a; b; c; d] /\ matches Part000.port p.
Proof.
  rewrite PROXY_REGEX_eq. cbv zeta. split.
  - intro H. inv_matches.
    repeat match goal with
           | H : (?lo <= ?c)%N, H' : (?c <= ?lo)%N |- _ =>
               assert (c = lo) by lia; subst c; clear H H'
           end.
    match goal with
    | Ha : matches Part000.octet ?a, Hb : matches Part000.octet ?b,
      Hc : matches Part000.octet ?c, Hd : matches Part000.octet ?d,
      Hp : matches Part000.port ?p
      |- context [((?a ++ _) ++ (?b ++ _) ++ (?c ++ _) ++ _) ++ ?d ++ _ ++ ?p] =>
        exists a, b, c, d, p
    end.
    split; [| split; [| assumption]].
    2: repeat (apply Forall_cons; [assumption|]); apply Forall_nil.
    unfold dotted. rewrite <- !app_assoc. reflexivity.
  - intros (a & b & c & d & p & -> & Ho & Hp).
    inversion Ho as [|? ? Ha Ho1]; subst. inversion Ho1 as [|? ? Hb Ho2]; subst.
    inversion Ho2 as [|? ? Hc Ho3]; subst. inversion Ho3 as [|? ? Hd _]; subst.
    replace (dotted a b c d p)
      with (((a ++ [46%N]) ++ (b ++ [46%N]) ++ (c ++ [46%N]) ++ []) ++ d ++ [58%N] ++ p)
      by (unfold dotted; rewrite <- !app_assoc; reflexivity).
    repeat first [assumption | apply MEps | apply MRng; lia | apply MSeq].
Qed.

Lemma PROXY_REGEX_accepts l :
  test Part000.PROXY_REGEX l = true <-> acceptedLine l.
Proof.
  rewrite test_matches, PROXY_REGEX_language. unfold acceptedLine.
  split; intros (a & b & c & d & p & -> & Ho & Hp); exists a, b, c, d, p;
    (split; [reflexivity|]); split.
  - eapply Forall_impl; [|exact Ho]. intros ?; apply octet_iff.
  - now apply port_iff.
  - eapply Forall_impl; [|exact Ho]. intros ?; apply octet_iff.
  - now apply port_iff.
Qed.

Lemma split_no_sep sep s : ~ In sep s -> split sep s = [s].
Proof.
  induction s as [|c s IH]; intro H; cbn; [reflexivity|].
  destruct (N.eqb_spec c sep) as [->|Hne].
  - exfalso. apply H. now left.
  - rewrite IH; [reflexivity|]. intro Hin. apply H. now right.
Qed.

Lemma nonEmpty_true l : l <> [] -> Part000.nonEmpty l = true.
Proof. destruct l; [congruence | reflexivity]. Qed.

Lemma trimmedLines_single l : singleLine l -> Part000.trimmedLines l = [l].
Proof.
  intros (Hne & Htrim & Hnl). unfold Part000.trimmedLines.
  rewrite (split_no_sep _ _ Hnl). cbn [map filter]. rewrite Htrim.
  now rewrite (nonEmpty_true Hne).
Qed.

Lemma validate_single l : singleLine l ->
  Part000.validateProxies l =
  if test Part000.PROXY_REGEX l then Part000.mkValidation true [] 1
  else Part000.mkValidation false [l] 1.
Proof.
  intro H. unfold Part000.validateProxies. rewrite (trimmedLines_single H).
  cbn [List.length Nat.eqb filter]. now destruct (test Part000.PROXY_REGEX l).
Qed.

Lemma app_cons_unique (sep : char) a : forall a' r r',
  ~ In sep a -> ~ In sep a' -> a ++ sep :: r = a' ++ sep :: r' ->
  a = a' /\ r = r'.
Proof.
  induction a as [|x a IH]; intros [|y a'] r r' Ha Ha' E; cbn in E.
  - injection E as ->. now split.
  - injection E as <- _. exfalso. apply Ha'. now left.
  - injection E as -> _. exfalso. apply Ha. now left.
  - injection E as -> E.
    destruct (IH a' r r') as [-> ->]; try assumption; [| | now split].
    + intro Hin. apply Ha. now right.
    + intro Hin. apply Ha'. now right.
Qed.

Lemma numeral_no_sep s c : numeral s -> (c < 48 \/ 57 < c)%N -> ~ In c s.
Proof.
  intros [_ Hd] Hc Hin.
  rewrite forallb_forall in Hd. apply Hd in Hin. apply isDigit_iff in Hin. lia.
Qed.

Lemma dotted_inj a b c d p a' b' c' d' p' :
  Forall numeral [a; b; c; d] -> Forall numeral [a'; b'; c'; d'] ->
  dotted a b c d p = dotted a' b' c' d' p' ->
  a = a' /\ b = b' /\ c = c' /\ d = d' /\ p = p'.
Proof.
  intros H H' E.
  inversion H as [|? ? Ha H1]; subst. inversion H1 as [|? ? Hb H2]; subst.
  inversion H2 as [|? ? Hc H3]; subst. inversion H3 as [|? ? Hd _]; subst.
  inversion H' as [|? ? Ha' H1']; subst. inversion H1' as [|? ? Hb' H2']; subst.
  inversion H2' as [|? ? Hc' H3']; subst. inversion H3' as [|? ? Hd' _]; subst.
  unfold dotted in E.
  apply app_cons_unique in E as [-> E]; [| apply numeral_no_sep; [assumption | lia] ..].
  apply app_cons_unique in E as [-> E]; [| apply numeral_no_sep; [assumption | lia] ..].
  apply app_cons_unique in E as [-> E]; [| apply numeral_no_sep; [assumption | lia] ..].
  apply app_cons_unique in E as [-> E]; [| apply numeral_no_sep; [assumption | lia] ..].
  now subst.
Qed.

Lemma octetText_numeral s : octetText s -> numeral s.
Proof. now intros [H _]. Qed.

(** C1 (amended): a text that is one trimmed non-empty line is classified
    valid exactly when it reads [a.b.c.d:p] where each of [a]..[d] is one to
    three decimal digits denoting 0..255 (leading zeros allowed) and [p] is
    a numeral that does not start with 0 and denotes 1..65535; in
    particular a line of four numerals and a port numeral with an octet of
    256 or more, or a port of 0 or of 65536 or more, is classified
    invalid. *)
Theorem validator_single_line (l : jsstring) (Hl : singleLine l) :
  (Part000.isValid (Part000.validateProxies l) = true <-> acceptedLine l)
  /\ (forall a b c d p,
        l = dotted a b c d p ->
        Forall numeral [a; b; c; d] -> numeral p ->
        Exists (fun o => (256 <= valueOf o)%N) [a; b; c; d]
        \/ valueOf p = 0%N \/ (65536 <= valueOf p)%N ->
        Part000.isValid (Part000.validateProxies l) = false).
Proof.
  assert (Hv : Part000.isValid (Part000.validateProxies l)
               = test Part000.PROXY_REGEX l).
  { rewrite (validate_single Hl). now destruct (test Part000.PROXY_REGEX l). }
  rewrite Hv. split; [apply PROXY_REGEX_accepts|].
  intros a b c d p -> Hnum Hp Hbad.
  apply not_true_is_false. intro Hacc.
  apply PROXY_REGEX_accepts in Hacc as (a' & b' & c' & d' & p' & E & Ho & Hport).
  apply dotted_inj in E as (-> & -> & -> & -> & ->);
    [| assumption | eapply Forall_impl; [|exact Ho]; apply octetText_numeral].
  destruct Hport as (_ & _ & Hrange).
  destruct Hbad as [Hbad | Hbad]; [|lia].
  apply Exists_exists in Hbad as (o & Hin & Hbig).
  rewrite Forall_forall in Ho. apply Ho in Hin as (_ & _ & Hle). lia.
Qed.

(** C1, witness: the theorem at the line [10.0.0.1:8080]. *)
Lemma validator_single_line_witness :
  singleLine (lit "10.0.0.1:8080") /\
  (Part000.isValid (Part000.validateProxies (lit "10.0.0.1:8080")) = true
   <-> acceptedLine (lit "10.0.0.1:8080")).
Proof.
  assert (H : singleLine (lit "10.0.0.1:8080")).
  { repeat split; [discriminate | cbn; intuition discriminate]. }
  split; [exact H | exact (proj1 (validator_single_line H))].
Defined.

(** C1 as stated fails under either uniform reading of "decimal": the
    port [080] denotes 80 yet [1.2.3.4:080] is invalid, and the octet [01]
    is not in standard form yet [01.2.3.4:80] is valid. *)
Lemma validator_claim_as_stated_fails :
  (singleLine (lit "1.2.3.4:080") /\ looseLine (lit "1.2.3.4:080")
   /\ Part000.isValid (Part000.validateProxies (lit "1.2.3.4:080")) = false)
  /\ (singleLine (lit "01.2.3.4:80") /\ ~ strictLine (lit "01.2.3.4:80")
      /\ Part000.isValid (Part000.validateProxies (lit "01.2.3.4:80")) = true).
Proof.
  split; (split; [repeat split; [discriminate | cbn; intuition discriminate]|]);
    (split; [| reflexivity]).
  - exists (lit "1"), (lit "2"), (lit "3"), (lit "4"), (lit "080").
    split; [reflexivity|].
    split; [repeat constructor; try discriminate; cbn; lia|].
    split; [split; [discriminate | reflexivity] | cbn; lia].
  - intros (a & b & c & d & p & E & Ho & _).
    assert (Hn : Forall numeral [a; b; c; d]).
    { eapply Forall_impl; [|exact Ho]. now intros ? [[? _] _]. }
    change (lit "01.2.3.4:80")
      with (dotted (lit "01") (lit "2") (lit "3") (lit "4") (lit "80")) in E.
    apply dotted_inj in E as (<- & _); [| | assumption].
    + inversion Ho as [|? ? [[_ [Hs | Hs]] _] _]; [discriminate | now apply Hs].
    + repeat constructor; discriminate.
Qed.

Lemma filter_map_swap' {X Y} (f : X -> Y) (p : Y -> bool) l :
  filter p (map f l) = map f (filter (fun x => p (f x)) l).
Proof.
  induction l as [|x l IH]; cbn; [reflexivity|].
  destruct (p (f x)); cbn; now rewrite IH.
Qed.

Lemma trimmedLines_counted text :
  Part000.trimmedLines text = map trim (countedLines text).
Proof. unfold Part000.trimmedLines, countedLines. apply filter_map_swap'. Qed.

Lemma length_zero_nil {X} (l : list X) : (List.length l =? 0) = true <-> l = [].
Proof. destruct l; cbn; split; congruence. Qed.

Lemma split_Forall (P : char -> Prop) sep s :
  Forall P s -> Forall (Forall P) (split sep s).
Proof.
  induction 1 as [|c s Hc _ IH]; cbn; [repeat constructor|].
  destruct (c =? sep)%N; [constructor; [constructor | assumption]|].
  destruct (split sep s) as [|piece rest]; [repeat constructor; assumption|].
  inversion IH; subst. constructor; [constructor|]; assumption.
Qed.

Lemma trim_whitespace s :
  Forall (fun c => isWhiteSpace c = true) s -> trim s = [].
Proof.
  intro H. unfold trim.
  assert (E : trimStart s = []).
  { induction H as [|c s Hc _ IH]; cbn; [reflexivity | now rewrite Hc]. }
  now rewrite E.
Qed.

Lemma trimmedLines_whitespace text :
  Forall (fun c => isWhiteSpace c = true) text -> Part000.trimmedLines text = [].
Proof.
  intro H. unfold Part000.trimmedLines.
  apply (split_Forall newline) in H.
  induction H as [|piece rest Hp _ IH]; cbn; [reflexivity|].
  now rewrite (trim_whitespace Hp).
Qed.

(** C8 (amended): for every text, [totalLines] is the number of lines
    whose trimmed text is not empty, [isValid] holds exactly when
    [invalidLines] is empty, [invalidLines] lists in input order the
    trimmed text (not the original text) of each such line failing the
    pattern, and an empty or all-whitespace text gives a valid result with
    no lines. *)
Theorem validateProxies_result text :
  let r := Part000.validateProxies text in
  Part000.totalLines r = List.length (countedLines text)
  /\ (Part000.isValid r = true <-> Part000.invalidLines r = [])
  /\ Part000.invalidLines r = map trim (untrimmedInvalid text)
  /\ (Forall (fun c => isWhiteSpace c = true) text ->
      r = Part000.mkValidation true [] 0).
Proof.
  cbv zeta. unfold Part000.validateProxies.
  pose proof (trimmedLines_counted text) as E.
  destruct (List.length (Part000.trimmedLines text) =? 0) eqn:Hz.
  - apply length_zero_nil in Hz. rewrite Hz in E. cbn.
    symmetry in E. apply map_eq_nil in E.
    unfold untrimmedInvalid. rewrite E. cbn. intuition.
  - cbn. repeat split.
    + rewrite E. apply length_map.
    + apply length_zero_nil.
    + apply length_zero_nil.
    + unfold untrimmedInvalid. rewrite E.
      apply (filter_map_swap' trim
               (fun line => negb (test Part000.PROXY_REGEX line))).
    + intro Hws. rewrite (trimmedLines_whitespace Hws) in Hz. discriminate.
Qed.

(** C8 as stated fails: for the text [ x ] the code reports the trimmed
    line [x], not the original text. *)
Lemma validateProxies_keeps_trimmed_text :
  Part000.invalidLines (Part000.validateProxies (lit " x ")) = [lit "x"]
  /\ untrimmedInvalid (lit " x ") = [lit " x "]
  /\ Part000.invalidLines (Part000.validateProxies (lit " x "))
     <> untrimmedInvalid (lit " x ").
Proof. repeat split. discriminate. Qed.

(** C10: on every text the validators of the two files compute the same
    [isValid] flag and the same [invalidLines]. *)
Theorem validateProxies_files_agree text :
  IndexTsx.isValid (IndexTsx.validateProxies text)
  = Part000.isValid (Part000.validateProxies text)
  /\ IndexTsx.invalidLines (IndexTsx.validateProxies text)
     = Part000.invalidLines (Part000.validateProxies text).
Proof.
  unfold IndexTsx.validateProxies, Part000.validateProxies, Part000.trimmedLines.
  change IndexTsx.nonEmpty with Part000.nonEmpty.
  change IndexTsx.PROXY_REGEX with Part000.PROXY_REGEX.
  destruct (List.length _ =? 0); split; reflexivity.
Qed.

End ValidatorFacts.

(** ** The bounded buffers *)

Section SimulatorFacts.
Import Js Part000.

Lemma sliceLast_length {X} n (l : list X) :
  List.length (sliceLast n l) = Nat.min n (List.length l).
Proof. unfold sliceLast. rewrite length_skipn. lia. Qed.

Lemma sliceLast_suffix {X} n (l : list X) :
  l = firstn (List.length l - n) l ++ sliceLast n l.
Proof. unfold sliceLast. symmetry. apply firstn_skipn. Qed.

Lemma pushHistory_fifo e h :
  exists evicted,
    h ++ [e] = evicted ++ pushHistory e h
    /\ List.length evicted = List.length h + 1 - 25
    /\ List.length (pushHistory e h) = Nat.min 25 (List.length h + 1).
Proof.
  exists (firstn (List.length (h ++ [e]) - 25) (h ++ [e])). unfold pushHistory.
  split; [apply sliceLast_suffix|].
  rewrite sliceLast_length, length_firstn, length_app. cbn [List.length]. lia.
Qed.

Lemma pushLog_fifo e l :
  exists evicted,
    l ++ [e] = evicted ++ pushLog e l
    /\ List.length evicted = List.length l + 1 - 100
    /\ List.length (pushLog e l) = Nat.min 100 (List.length l + 1).
Proof.
  exists (firstn (List.length l - 99) l). unfold pushLog.
  split; [| split].
  - rewrite app_assoc. f_equal. apply sliceLast_suffix.
  - rewrite length_firstn. lia.
  - rewrite length_app, sliceLast_length. cbn [List.length]. lia.
Qed.

(** C5: in every reachable state the history buffer holds at most 25
    entries and the log buffer at most 100; an append keeps the old
    entries and the new one in order and drops exactly the overflow from
    the front, oldest first. *)
Theorem buffers_bounded b (Hb : reachable b) :
  (List.length (viewHistory b) <= 25 /\ List.length (logBuffer b) <= 100)
  /\ (forall e, exists evicted,
        viewHistory b ++ [e] = evicted ++ viewHistory (applyOp (OpTick e) b)
        /\ List.length evicted = List.length (viewHistory b) + 1 - 25)
  /\ (forall e, exists evicted,
        logBuffer b ++ [e] = evicted ++ logBuffer (applyOp (OpAddLog e) b)
        /\ List.length evicted = List.length (logBuffer b) + 1 - 100).
Proof.
  split; [| split].
  - induction Hb as [|op b _ [IHh IHl]]; [cbn; lia|].
    destruct op as [e|e| |e|]; cbn [applyOp viewHistory logBuffer clearLogs];
      try (cbn; lia).
    + destruct (pushHistory_fifo e (viewHistory b)) as (_ & _ & _ & ->). lia.
    + destruct (pushLog_fifo e (logBuffer b)) as (_ & _ & _ & ->). lia.
  - intro e. destruct (pushHistory_fifo e (viewHistory b)) as (ev & H1 & H2 & _).
    now exists ev.
  - intro e. destruct (pushLog_fifo e (logBuffer b)) as (ev & H1 & H2 & _).
    now exists ev.
Qed.

(** C5, witness: the state after a start and one tick. *)
Lemma buffers_bounded_witness :
  List.length
    (viewHistory (applyOp (OpTick (mkHistory [] 133000))
                          (applyOp (OpSeed (mkHistory [] 100000)) initialBuffers)))
  <= 25.
Proof.
  exact (proj1 (proj1 (buffers_bounded
    (reach_step (OpTick (mkHistory [] 133000))
       (reach_step (OpSeed (mkHistory [] 100000)) reach_init))))).
Defined.

(** ** The metrics simulator *)

Local Open Scope Q_scope.

Lemma randomFactor_mono a b : a <= b -> randomFactor a <= randomFactor b.
Proof.
  intro H. unfold randomFactor, Binary64.add, Binary64.mul.
  apply round_mono. apply Qplus_le_compat; [|apply Qle_refl].
  apply round_mono. apply Qmult_le_compat_r; [exact H|].
  apply Qle_bool_iff. vm_compute. reflexivity.
Qed.

Lemma randomFactor_nonneg rnd : 0 <= rnd -> 0 <= randomFactor rnd.
Proof.
  intro H. eapply Qle_trans; [|apply (randomFactor_mono H)].
  apply Qle_bool_iff. vm_compute. reflexivity.
Qed.

Lemma coefficient_nonneg v p :
  (0 <= v)%Z -> (0 <= p)%Z ->
  0 <= Binary64.mul (inject_Z v) (Binary64.div (inject_Z p) 100).
Proof.
  intros Hv Hp. unfold Binary64.mul, Binary64.div.
  apply round_nonneg. apply Qmult_le_0_compat.
  - change 0 with (inject_Z 0). now rewrite <- Zle_Qle.
  - apply round_nonneg. apply Qle_shift_div_l; [reflexivity|].
    rewrite Qmult_0_l. change 0 with (inject_Z 0). now rewrite <- Zle_Qle.
Qed.

Lemma increment_mono v p r r' :
  (0 <= v)%Z -> (0 <= p)%Z -> r <= r' -> (increment v p r <= increment v p r')%Z.
Proof.
  intros Hv Hp H. unfold increment, Binary64.floor.
  apply Qfloor_resp_le. unfold Binary64.mul at 1 3. apply round_mono.
  rewrite !(Qmult_comm (Binary64.mul _ _)).
  apply Qmult_le_compat_r; [exact H | now apply coefficient_nonneg].
Qed.

Lemma increment_nonneg v p r :
  (0 <= v)%Z -> (0 <= p)%Z -> 0 <= r -> (0 <= increment v p r)%Z.
Proof.
  intros Hv Hp Hr. unfold increment, Binary64.floor.
  rewrite <- (Qfloor_Z 0). apply Qfloor_resp_le.
  unfold Binary64.mul at 1. apply round_nonneg.
  apply Qmult_le_0_compat; [now apply coefficient_nonneg | exact Hr].
Qed.

Lemma randomFactor_range rnd :
  0 <= rnd -> rnd <= Binary64.maxDraw ->
  8 # 10 <= randomFactor rnd /\ randomFactor rnd < 12 # 10.
Proof.
  intros H0 H1. split.
  - eapply Qle_trans; [|apply (randomFactor_mono H0)].
    apply Qle_bool_iff. vm_compute. reflexivity.
  - eapply Qle_lt_trans; [apply (randomFactor_mono H1)|].
    apply Qlt_alt. vm_compute. reflexivity.
Qed.

Lemma increment_bounds rnd :
  0 <= rnd -> rnd <= Binary64.maxDraw ->
  (26400 <= increment 100000 33 (randomFactor rnd) <= 39600)%Z.
Proof.
  intros H0 H1. split.
  - replace 26400%Z with (increment 100000 33 (randomFactor 0))
      by (vm_compute; reflexivity).
    apply increment_mono; [lia | lia | now apply randomFactor_mono].
  - replace 39600%Z with (increment 100000 33 (randomFactor Binary64.maxDraw))
      by (vm_compute; reflexivity).
    apply increment_mono; [lia | lia | now apply randomFactor_mono].
Qed.

(** C9 (amended): with 100000 views and 33 percent, for every draw of
    [Math.random()] the random factor [r] lies in [0.8, 1.2) and a tick
    adds to the total the floor of [100000 * (33 / 100) * r] as binary64
    arithmetic computes it, which is between 26400 and 39600; from a total
    of 100000 the new total lies in [126400, 139600]. *)
Theorem tick_example (rnd : Q) (now : jsstring) (s : Simulator) :
  0 <= rnd -> rnd <= Binary64.maxDraw ->
  (0 <= simulatedViews s <= 2 ^ 53 - 39600)%Z ->
  let r := randomFactor rnd in
  (8 # 10 <= r /\ r < 12 # 10)
  /\ simulatedViews (tick 100000 33 rnd now s)
     = (simulatedViews s + increment 100000 33 r)%Z
  /\ (26400 <= increment 100000 33 r <= 39600)%Z
  /\ (simulatedViews s = 100000%Z ->
      (126400 <= simulatedViews (tick 100000 33 rnd now s) <= 139600)%Z).
Proof.
  intros H0 H1 Hs. cbv zeta.
  pose proof (increment_bounds H0 H1) as Hb.
  assert (E : simulatedViews (tick 100000 33 rnd now s)
              = (simulatedViews s + increment 100000 33 (randomFactor rnd))%Z).
  { unfold tick. cbn [simulatedViews]. apply addZ_exact. lia. }
  split; [now apply randomFactor_range|]. split; [exact E|].
  split; [exact Hb|]. intro H100. rewrite E, H100. lia.
Qed.

(** C9 as stated fails at the largest draw, [1 - 2^-53]: the random
    factor is in [0.8, 1.2) and the floor of the exact product
    [100000 * 0.33 * r] is 39599, but the tick adds 39600, because the
    binary64 product rounds up to 39600. *)
Lemma tick_exceeds_exact_floor :
  let r := randomFactor Binary64.maxDraw in
  (8 # 10 <= r /\ r < 12 # 10)
  /\ Qfloor (inject_Z 100000 * (33 # 100) * r) = 39599%Z
  /\ simulatedViews (tick 100000 33 Binary64.maxDraw [] (startRun 100000 []))
     = 139600%Z
  /\ simulatedViews (tick 100000 33 Binary64.maxDraw [] (startRun 100000 []))
     <> (100000 + Qfloor (inject_Z 100000 * (33 # 100) * r))%Z.
Proof.
  cbv zeta. split.
  - split; [apply Qle_bool_iff | apply Qlt_alt]; vm_compute; reflexivity.
  - split; [vm_compute; reflexivity|]. split; [vm_compute; reflexivity|].
    vm_compute. discriminate.
Qed.

Local Close Scope Q_scope.

(** On Rocq's primitive binary64 floats the two extreme draws of
    [Math.random()], 0 and [1 - 2^-53], give the arguments 26400 and
    39600 exactly, so the increments are the two ends of the range. *)
Example floorArgument_extremes :
  floorArgument 100000 33 0 = 26400%float
  /\ floorArgument 100000 33 (1 - 0x1p-53) = 39600%float.
Proof. split; reflexivity. Qed.

(** The model and the primitive floats agree on the argument of
    [Math.floor] at the two extreme draws and at a draw where exact
    arithmetic would give another floor (29 instead of 28). *)
Example floorArgument_agrees :
  let arg v p rnd :=
    Binary64.mul (Binary64.mul (inject_Z v) (Binary64.div (inject_Z p) 100))
                 (randomFactor rnd) in
  Qeq (Binary64.ofFloat (floorArgument 100000 33 0)) (arg 100000%Z 33%Z 0%Q)
  /\ Qeq (Binary64.ofFloat (floorArgument 100000 33 (1 - 0x1p-53)))
         (arg 100000%Z 33%Z Binary64.maxDraw)
  /\ Qeq (Binary64.ofFloat (floorArgument 100 29 0.5)) (arg 100%Z 29%Z (1 # 2)%Q)
  /\ increment 100 29 (randomFactor (1 # 2)) = 28%Z
  /\ Qfloor (inject_Z 100 * (29 # 100) * ((1 # 2) * (4 # 10) + (8 # 10)))%Q = 29%Z.
Proof.
  cbv zeta. repeat split; try (vm_compute; reflexivity);
    apply Qeq_bool_iff; vm_compute; reflexivity.
Qed.

(** C9, witness: the first tick after a start, with [Math.random()]
    returning 1/2. *)
Lemma tick_example_witness :
  (126400 <= simulatedViews (tick 100000 33 (1 # 2) [] (startRun 100000 [])) <= 139600)%Z.
Proof.
  refine (proj2 (proj2 (proj2 (@tick_example (1 # 2) [] (startRun 100000 []) _ _ _))) _).
  - discriminate.
  - discriminate.
  - cbn. lia.
  - reflexivity.
Defined.

End SimulatorFacts.

(** ** The retry-fetch unit *)

Section UnitFacts.
Import Js Part000 Trace.

Variable url : jsstring.
Variable side : Side.
Variable maxRetries : nat.
Variable env : nat -> AttemptEnv.

Local Arguments attemptFailedMsg : simpl never.
Local Arguments terminalFailureMsg : simpl never.
Local Arguments backoffMs : simpl never.

Lemma isAbort_httpError code statusText :
  isAbort (httpError code statusText) = false.
Proof. reflexivity. Qed.

Lemma onFetch_fails a r st :
  fetchFails r ->
  isAbort (errorOf r) = false
  /\ onFetch side maxRetries a r st = onCatch side maxRetries a (errorOf r) st.
Proof.
  destruct r as [[|] code statusText | e]; cbn; intro H;
    first [discriminate | split; [assumption || reflexivity | reflexivity]].
Qed.

Lemma status_other_setStatus v st :
  status (otherSide side) (setStatus side v st) = status (otherSide side) st.
Proof. destruct side; reflexivity. Qed.

Lemma status_setStatus v st : status side (setStatus side v st) = v.
Proof. destruct side; reflexivity. Qed.

Lemma drive_all_fail : forall k a fuel st,
  a + k = maxRetries ->
  (forall i, i <= maxRetries ->
     fetchFails (fetched (env i)) /\ cancelInBackoff (env i) = false) ->
  aborted st = false ->
  2 * k + 1 <= fuel ->
  exists st',
    drive (onFetch side maxRetries) (onText side maxRetries)
          (onTimer url side maxRetries) env fuel (AwaitFetch a) st
    = (Resolved None, st')
    /\ calls st' = calls st ++ failTrace url side maxRetries env k a
    /\ status side st' = error
    /\ frame side st st'.
Proof.
  induction k as [|k IH]; intros a fuel st Hak Henv Hab Hfuel.
  - destruct fuel as [|fuel]; [lia|]. cbn [drive].
    destruct (Henv a ltac:(lia)) as [Hf _].
    destruct (onFetch_fails a _ st Hf) as [Hna ->].
    unfold onCatch. rewrite Hna.
    replace (a =? maxRetries) with true by (symmetry; apply Nat.eqb_eq; lia).
    destruct fuel; cbn [drive];
      (eexists; split; [reflexivity|]; split; [|split]);
      [ destruct side; cbn; now rewrite <- app_assoc | destruct side; reflexivity
      | unfold frame; destruct side; cbn; auto
      | destruct side; cbn; now rewrite <- app_assoc | destruct side; reflexivity
      | unfold frame; destruct side; cbn; auto ].
  - destruct fuel as [|[|fuel]]; [lia | lia |]. cbn [drive].
    destruct (Henv a ltac:(lia)) as [Hf Hc].
    destruct (onFetch_fails a _ st Hf) as [Hna ->].
    unfold onCatch. rewrite Hna.
    replace (a =? maxRetries) with false by (symmetry; apply Nat.eqb_neq; lia).
    rewrite Hc. unfold onTimer, loopHead.
    replace (S a <=? maxRetries) with true by (symmetry; apply Nat.leb_le; lia).
    replace (aborted _) with false by (destruct side; cbn; now rewrite Hab).
    cbn [Nat.eqb].
    match goal with
    | |- context [drive _ _ _ _ fuel (AwaitFetch (S a)) ?st1] =>
        destruct (IH (S a) fuel st1) as (st' & Hrun & Hcalls & Hst & Hfr);
          [lia | assumption | destruct side; cbn; now rewrite Hab | lia |]
    end.
    exists st'. split; [exact Hrun|]. split; [|split; [exact Hst|]].
    + rewrite Hcalls. destruct side; cbn; rewrite <- !app_assoc; reflexivity.
    + destruct Hfr as (H1 & H2 & H3 & H4 & H5).
      unfold frame. rewrite H1, H2, H3, H4, H5. destruct side; cbn; auto.
Qed.






End UnitFacts.

Section BackoffFacts.
Import Js Trace.

Local Arguments Part000.attemptFailedMsg : simpl never.
Local Arguments Part000.terminalFailureMsg : simpl never.
Local Arguments Part000.backoffMs : simpl never.
Local Arguments IndexTsx.backoffMs : simpl never.

Lemma isAbort_name e :
  Part000.isAbort e = false -> eqb (name e) (lit "AbortError") = false.
Proof. unfold Part000.isAbort. intro H. now apply orb_false_elim in H. Qed.

(** A failed attempt is one whose [try] block throws something that is
    not an abort: the error of line 411 after a non-ok status, a rejected
    request or a rejected body read.  All of them are handled by the
    [catch] block. *)
Lemma failed_attempt_is_caught side maxRetries a st :
  (forall code statusText,
      Part000.onFetch side maxRetries a (Response false code statusText) st
      = Part000.onCatch side maxRetries a (Part000.httpError code statusText) st
      /\ Part000.isAbort (Part000.httpError code statusText) = false)
  /\ (forall e, Part000.onFetch side maxRetries a (FetchRejected e) st
               = Part000.onCatch side maxRetries a e st)
  /\ (forall e, Part000.onText side maxRetries a (TextRejected e) st
               = Part000.onCatch side maxRetries a e st).
Proof. repeat split. Qed.

(** C6 (amended): after a failed attempt [a] that is not the last, the
    unit of part_000 makes exactly one timer call, of [1500 * 2^a] ms, and
    then starts attempt [a + 1]; after the last attempt it makes none.
    The unit of index.tsx does the same with [1000 * 2^a] ms. *)
Theorem backoff_after_failed_attempt url side maxRetries a e st :
  Part000.isAbort e = false ->
  (let (pc, st') := Part000.onCatch side maxRetries a e st in
   exists new, calls st' = calls st ++ new
     /\ if a =? maxRetries
        then pc = Resolved None /\ filter isWaitCall new = []
        else pc = AwaitWait a
             /\ filter isWaitCall new = [CWait (1500 * 2 ^ N.of_nat a)%N]
             /\ (aborted st = false -> a < maxRetries ->
                 fst (Part000.onTimer url side maxRetries a st') = AwaitFetch (S a)))
  /\ (let (pc, st') := IndexTsx.onCatch side maxRetries a e st in
      exists new, calls st' = calls st ++ new
        /\ if a =? maxRetries
           then pc = Resolved None /\ filter isWaitCall new = []
           else pc = AwaitWait a
                /\ filter isWaitCall new = [CWait (1000 * 2 ^ N.of_nat a)%N]).
Proof.
  intro Hna. split.
  - unfold Part000.onCatch. rewrite Hna.
    destruct (a =? maxRetries) eqn:Ha.
    + eexists. split; [destruct side; cbn; rewrite <- app_assoc; reflexivity|].
      split; reflexivity.
    + eexists. split; [destruct side; cbn; rewrite <- app_assoc; reflexivity|].
      split; [reflexivity|]. split; [reflexivity|].
      intros Hab Hlt. unfold Part000.onTimer, Part000.loopHead.
      replace (S a <=? maxRetries) with true by (symmetry; apply Nat.leb_le; lia).
      replace (aborted _) with false by (destruct side; cbn; now rewrite Hab).
      reflexivity.
  - unfold IndexTsx.onCatch. rewrite (isAbort_name _ Hna).
    destruct (a =? maxRetries).
    + destruct side; (eexists; split; [cbn; reflexivity|]; split; reflexivity).
    + eexists. split; [cbn; reflexivity|]. split; reflexivity.
Qed.
End BackoffFacts.

Section UnitExamples.
Import Js Trace.


Example always_failing_waits :
  filter isWaitCall
    (calls (snd (Part000.fetchWithRetry_run sampleUrl A 3 alwaysUnavailable
                   initialStore)))
  = [CWait 1500%N; CWait 3000%N; CWait 6000%N].
Proof. vm_compute. reflexivity. Qed.

(** C6, witness: the first attempt of side A answered with 503. *)
Lemma backoff_after_failed_attempt_witness :
  let (pc, st') :=
    Part000.onFetch A 3 0 (fetched (alwaysUnavailable 0)) initialStore in
  exists new, calls st' = calls initialStore ++ new
    /\ if 0 =? 3
       then pc = Resolved None /\ filter isWaitCall new = []
       else pc = AwaitWait 0
            /\ filter isWaitCall new = [CWait (1500 * 2 ^ N.of_nat 0)%N]
            /\ (aborted initialStore = false -> 0 < 3 ->
                fst (Part000.onTimer sampleUrl A 3 0 st') = AwaitFetch 1).
Proof.
  exact (proj1 (@backoff_after_failed_attempt sampleUrl A 3 0
                  (errorOf (fetched (alwaysUnavailable 0))) initialStore
                  eq_refl)).
Defined.

(** C6 as stated fails for the unit of index.tsx: after its first failed
    attempt it waits 1000 ms, not 1500 ms, and over a run that always
    fails its waits are 1000, 2000 and 4000 ms. *)
Lemma index_tsx_backoff_is_1000 :
  filter isWaitCall
    (calls (snd (IndexTsx.onFetch A 3 0 (fetched (alwaysUnavailable 0))
                   initialStore)))
  = [CWait 1000%N]
  /\ (1000 <> 1500 * 2 ^ N.of_nat 0)%N
  /\ filter isWaitCall
       (calls (snd (IndexTsx.fetchWithRetry_run sampleUrl A 3 alwaysUnavailable
                      initialStore)))
     = [CWait 1000%N; CWait 2000%N; CWait 4000%N].
Proof.
  split; [vm_compute; reflexivity|]. split; [discriminate|]. vm_compute. reflexivity.
Qed.

End UnitExamples.

(** ** The synchronisation coordinator *)

Section SessionFacts.
Import Js Part000 Trace.

Variable urlA urlB : jsstring.

Local Arguments attemptFailedMsg : simpl never.
Local Arguments terminalFailureMsg : simpl never.
Local Arguments backoffMs : simpl never.
Local Arguments terminatedMsg : simpl never.
Local Arguments lit : simpl never.
Local Arguments pushLog : simpl never.

Lemma onCatch_resumed side a e st : resumed side a st (onCatch side 3 a e st).
Proof.
  unfold onCatch. destruct (isAbort e) eqn:He; [now constructor|].
  destruct (Nat.eqb_spec a 3); now constructor.
Qed.

Lemma onFetch_resumed side a r st : resumed side a st (onFetch side 3 a r st).
Proof.
  destruct r as [[|] code statusText | e]; cbn [onFetch];
    [constructor | apply onCatch_resumed | apply onCatch_resumed].
Qed.

Lemma onText_resumed side a r st : resumed side a st (onText side 3 a r st).
Proof.
  destruct r as [content | e]; cbn [onText];
    [constructor | apply onCatch_resumed].
Qed.

Lemma onTimer_resumed url side a st : resumed side a st (onTimer url side 3 a st).
Proof.
  unfold onTimer, loopHead.
  destruct (Nat.leb_spec (S a) 3).
  - destruct (aborted st) eqn:Hab; [now constructor|].
    cbn [Nat.eqb]. now constructor.
  - constructor. lia.
Qed.

Lemma step_cases s s' :
  step urlA urlB s s' ->
  (exists side a r, pcIndex (unitOf side s) = Some a
                    /\ resumed side a (store s) r /\ s' = resume side r s)
  \/ s' = afterCancel s
  \/ (exists now, s' = withStore (withClock now (store s)) s)
  \/ (exists cA cB, awaiting s = true /\ unitA s = Resolved cA /\ unitB s = Resolved cB
        /\ s' = mkSession (unitA s) (unitB s) false
                  (finally (aggregate B cB (aggregate A cA (store s)))))
  \/ (exists e, awaiting s = true /\ AllSettled (unitA s) (unitB s) (Some e)
        /\ s' = mkSession (unitA s) (unitB s) false (finally (onRejected e (store s)))).
Proof.
  intros [side a r s0 Hpc _ | side a r s0 Hpc _ | side a s0 Hpc | s0 | now s0
         | cA cB s0 Haw HA HB | e s0 Haw Hall].
  - left. exists side, a, (onFetch side 3 a r (store s0)).
    rewrite Hpc. repeat split. apply onFetch_resumed.
  - left. exists side, a, (onText side 3 a r (store s0)).
    rewrite Hpc. repeat split. apply onText_resumed.
  - left. eexists side, a, _. rewrite Hpc. repeat split. apply onTimer_resumed.
  - right; left. reflexivity.
  - right; right; left. now exists now.
  - right; right; right; left. now exists cA, cB.
  - right; right; right; right. now exists e.
Qed.

Lemma pendingStatus_release v : pendingStatus v = true -> releasePending v = idle.
Proof. destruct v; cbn; congruence. Qed.

Lemma resume_ok s side a r :
  sessionOk s -> pcIndex (unitOf side s) = Some a ->
  resumed side a (store s) r -> sessionOk (resume side r s).
Proof.
  destruct s as [uA uB aw st]. unfold sessionOk, unitOk.
  intros (HA & HB & Hc) Hpc Hr.
  destruct side; cbn in Hpc, HA, HB, Hc |- *.
  - destruct uA as [a'|a'|a'| |]; try discriminate; injection Hpc as ->;
      destruct HA as [Ha Hst];
      inversion Hr; subst; cbn; (split; [|split]);
      try (destruct uB; cbn in HB |- *; intuition (auto; lia));
      try (intuition (auto; lia)).
  - destruct uB as [a'|a'|a'| |]; try discriminate; injection Hpc as ->;
      destruct HB as [Ha Hst];
      inversion Hr; subst; cbn; (split; [|split]);
      try (destruct uA; cbn in HA |- *; intuition (auto; lia));
      try (intuition (auto; lia)).
Qed.

Lemma cancel_status side st : status side (cancel st) = status side st.
Proof. unfold cancel. destruct side, (controller st); reflexivity. Qed.

Lemma cancel_statusA st : statusA (cancel st) = statusA st.
Proof. apply (cancel_status A). Qed.

Lemma cancel_statusB st : statusB (cancel st) = statusB st.
Proof. apply (cancel_status B). Qed.

Lemma cancel_controller st : controller (cancel st) = controller st.
Proof. unfold cancel. destruct (controller st) eqn:H; cbn; congruence. Qed.

Lemma step_ok s s' : sessionOk s -> step urlA urlB s s' -> sessionOk s'.
Proof.
  intros Hok Hstep.
  destruct (step_cases Hstep)
    as [(side & a & r & Hpc & Hr & ->) | [-> | [(now & ->)
       | [(cA & cB & Haw & HA & HB & ->) | (e & Haw & Hall & ->)]]]].
  - eapply resume_ok; eassumption.
  - destruct s as [uA uB aw st]. unfold sessionOk, unitOk in *.
    unfold afterCancel, handleCancelSync. cbn in *.
    rewrite ?cancel_statusA, ?cancel_statusB, cancel_controller. exact Hok.
  - destruct s as [uA uB aw st]. unfold sessionOk, unitOk in *. cbn in *.
    destruct Hok as (HA & HB & Hctl). repeat split;
      [destruct uA | destruct uB | ]; cbn in *; intuition.
  - destruct s as [uA uB aw st]. unfold sessionOk, unitOk in *. cbn in *.
    subst. repeat split. discriminate.
  - destruct s as [uA uB aw st]. unfold sessionOk, unitOk in *. cbn in *.
    destruct Hok as (HA & HB & Hctl). repeat split;
      [destruct uA | destruct uB | ]; cbn in *; intuition discriminate.
Qed.

Lemma steps_ok s s' : sessionOk s -> steps urlA urlB s s' -> sessionOk s'.
Proof. induction 2; [assumption | eauto using step_ok]. Qed.

Lemma start_ok st0 s0 :
  handleSyncFromUrls urlA urlB st0 = Running s0 ->
  sessionOk s0 /\ awaiting s0 = true.
Proof.
  unfold handleSyncFromUrls.
  destruct (isSyncing st0); [discriminate|].
  destruct (negb (nonEmpty urlA) && negb (nonEmpty urlB)); [discriminate|].
  unfold fetchWithRetry, loopHead. cbn [Nat.leb Nat.eqb].
  destruct (nonEmpty urlA), (nonEmpty urlB); cbn; intro H; injection H as <-;
    unfold sessionOk, unitOk; cbn; intuition lia.
Qed.


Lemma aborted_onFetch side a r st :
  aborted st = true -> fetchHonoursSignal st r ->
  exists e, onFetch side 3 a r st = (Rejected e, st) /\ isAbort e = true.
Proof.
  intros Hab Hr. destruct (Hr Hab) as (e & -> & He). exists e.
  cbn [onFetch]. unfold onCatch. now rewrite He.
Qed.

Lemma aborted_onText side a r st :
  aborted st = true -> textHonoursSignal st r ->
  exists e, onText side 3 a r st = (Rejected e, st) /\ isAbort e = true.
Proof.
  intros Hab Hr. destruct (Hr Hab) as (e & -> & He). exists e.
  cbn [onText]. unfold onCatch. now rewrite He.
Qed.

Lemma aborted_onTimer url side a st :
  aborted st = true -> a < 3 ->
  onTimer url side 3 a st = (Rejected abortErr, st).
Proof.
  intros Hab Ha. unfold onTimer, loopHead.
  replace (S a <=? 3) with true by (symmetry; apply Nat.leb_le; lia).
  now rewrite Hab.
Qed.

Lemma cancelledFrom_reject s1 s side e :
  cancelledFrom s1 s -> cancelledFrom s1 (resume side (Rejected e, store s) s).
Proof.
  destruct s as [uA uB aw st]. unfold cancelledFrom.
  intros (Hab & Hres & Herr & Hst).
  destruct side; cbn in *; (split; [assumption|]); (split; [|split; assumption]);
    intros [|] c Hc; cbn in Hc; try discriminate;
    [apply (Hres B) | apply (Hres A)]; exact Hc.
Qed.

Lemma AllSettled_abort s e :
  sessionOk s -> AllSettled (unitA s) (unitB s) (Some e) -> isAbort e = true.
Proof.
  destruct s as [uA uB aw st]. intros (HA & HB & _) Hall.
  unfold unitOk in HA, HB. cbn in HA, HB, Hall.
  inversion Hall; subst; assumption.
Qed.

Lemma bothResolved_true s cA cB :
  unitA s = Resolved cA -> unitB s = Resolved cB -> bothResolved s = true.
Proof. unfold bothResolved. now intros -> ->. Qed.

Lemma cancelledFrom_step s1 s s' :
  bothResolved s1 = false ->
  sessionOk s -> cancelledFrom s1 s -> step urlA urlB s s' ->
  cancelledFrom s1 s'.
Proof.
  intros Hnot Hok Hinv Hstep.
  pose proof Hinv as (Hab & Hres & Herr & Hst).
  destruct Hstep as [side a r s Hpc Hr | side a r s Hpc Hr | side a s Hpc | s | now s
                    | cA cB s Haw HA HB | e s Haw Hall].
  - destruct (@aborted_onFetch side a r (store s) Hab Hr) as (e & -> & _).
    now apply cancelledFrom_reject.
  - destruct (@aborted_onText side a r (store s) Hab Hr) as (e & -> & _).
    now apply cancelledFrom_reject.
  - assert (Ha : a < 3).
    { destruct Hok as (HA & HB & _). unfold unitOk in HA, HB.
      destruct side; [rewrite Hpc in HA | rewrite Hpc in HB]; tauto. }
    rewrite (@aborted_onTimer _ side a (store s) Hab Ha).
    now apply cancelledFrom_reject.
  - destruct s as [uA uB aw st]. unfold cancelledFrom, handleCancelSync in *.
    cbn in *. unfold errorLogs, terminatedWarnings in *.
    unfold cancel. destruct (controller st); cbn; [|exact Hinv].
    repeat split; tauto.
  - destruct s as [uA uB aw st]. unfold cancelledFrom in *.
    cbn in *. unfold errorLogs, terminatedWarnings in *. cbn.
    repeat split; tauto.
  - exfalso. rewrite (bothResolved_true s1 (Hres A cA HA) (Hres B cB HB)) in Hnot.
    discriminate.
  - pose proof (AllSettled_abort Hok Hall) as He.
    destruct s as [uA uB aw st]. unfold cancelledFrom in *. cbn in *. subst aw.
    unfold onRejected. rewrite He.
    destruct Hst as [Htw Hst].
    split; [cbn; assumption|]. split; [assumption|].
    split; [unfold errorLogs in *; cbn; rewrite filter_app; cbn;
            now rewrite app_nil_r|].
    split.
    + unfold terminatedWarnings, count in *. cbn. rewrite filter_app, length_app.
      rewrite Htw.
      replace (filter _ [CLog terminatedMsg LWarning])
        with [CLog terminatedMsg LWarning] by (vm_compute; reflexivity).
      cbn. lia.
    + intros [|]; cbn; [pose proof (Hst A) as E | pose proof (Hst B) as E];
        cbn in E; now rewrite E.
Qed.


Lemma cancelledFrom_steps s1 s2 s3 :
  bothResolved s1 = false ->
  sessionOk s2 -> cancelledFrom s1 s2 -> steps urlA urlB s2 s3 ->
  sessionOk s3 /\ cancelledFrom s1 s3.
Proof.
  intros Hnot Hok Hinv Hsteps.
  induction Hsteps as [s | s s' s'' _ IH Hstep]; [now split|].
  destruct (IH Hok Hinv) as [Hok' Hinv']. split.
  - eapply step_ok; eassumption.
  - eapply cancelledFrom_step; eassumption.
Qed.

Lemma afterCancel_base s1 :
  sessionOk s1 -> awaiting s1 = true ->
  sessionOk (afterCancel s1) /\ cancelledFrom s1 (afterCancel s1).
Proof.
  intros Hok Haw. split.
  - eapply step_ok; [exact Hok | apply StepCancel].
  - destruct Hok as (_ & _ & Hctl). specialize (Hctl Haw).
    destruct s1 as [uA uB aw st]. cbn in *. subst aw.
    unfold cancelledFrom, afterCancel, handleCancelSync, cancel. cbn.
    rewrite Hctl. cbn. repeat split; tauto.
Qed.

Lemma catch_enabled s side e :
  awaiting s = true -> unitOf side s = Rejected e ->
  exists s', step urlA urlB s s' /\ awaiting s' = false.
Proof.
  intros Haw Hu. eexists. split.
  - apply (@StepCatch urlA urlB e s Haw).
    destruct side; cbn in Hu; rewrite Hu; constructor.
  - reflexivity.
Qed.

Lemma isAbort_abortErr : isAbort abortErr = true.
Proof. reflexivity. Qed.

Lemma can_reject s side :
  aborted (store s) = true -> sessionOk s -> settled (unitOf side s) = false ->
  exists s' e, step urlA urlB s s' /\ unitOf side s' = Rejected e
               /\ awaiting s' = awaiting s.
Proof.
  intros Hab Hok Hpend.
  destruct (unitOf side s) as [a|a|a| |] eqn:Hu; try discriminate.
  - assert (Hr : fetchHonoursSignal (store s) (FetchRejected abortErr)).
    { intros _. exists abortErr. now split. }
    exists (resume side (onFetch side 3 a (FetchRejected abortErr) (store s)) s).
    destruct (@aborted_onFetch side a _ (store s) Hab Hr) as (e & E & _).
    exists e. split; [now apply StepFetch|]. rewrite E.
    destruct side; now split.
  - assert (Hr : textHonoursSignal (store s) (TextRejected abortErr)).
    { intros _. exists abortErr. now split. }
    exists (resume side (onText side 3 a (TextRejected abortErr) (store s)) s).
    destruct (@aborted_onText side a _ (store s) Hab Hr) as (e & E & _).
    exists e. split; [now apply StepText|]. rewrite E.
    destruct side; now split.
  - assert (Ha : a < 3).
    { destruct Hok as (HA & HB & _). unfold unitOk in HA, HB.
      destruct side; [rewrite Hu in HA | rewrite Hu in HB]; tauto. }
    exists (resume side (onTimer (urlOf urlA urlB side)
                                 side 3 a (store s)) s), abortErr.
    split; [now apply StepTimer|].
    rewrite (@aborted_onTimer _ side a (store s) Hab Ha).
    destruct side; now split.
Qed.

Lemma cancelled_can_finish s1 s3 :
  bothResolved s1 = false -> sessionOk s3 -> cancelledFrom s1 s3 ->
  awaiting s3 = true ->
  exists s4, steps urlA urlB s3 s4 /\ awaiting s4 = false.
Proof.
  intros Hnot Hok (Hab & Hres & _) Haw.
  assert (Hside : exists side, forall c, unitOf side s3 <> Resolved c).
  { unfold bothResolved in Hnot.
    destruct (unitA s1) eqn:HA;
      try (exists A; intros c Hc; apply (Hres A) in Hc; cbn in Hc; congruence).
    destruct (unitB s1) eqn:HB; try discriminate;
      exists B; intros c Hc; apply (Hres B) in Hc; cbn in Hc; congruence. }
  destruct Hside as (side & Hside).
  destruct (unitOf side s3) as [a|a|a|c|e] eqn:Hu.
  4: { exfalso. now apply (Hside c). }
  4: { destruct (catch_enabled s3 side Haw Hu) as (s4 & Hstep & Hdone).
       exists s4. split; [|exact Hdone].
       eapply steps_cons; [apply steps_refl | exact Hstep]. }
  all: destruct (@can_reject s3 side Hab Hok) as (s' & e & Hstep & Hrej & Haw');
    [rewrite Hu; reflexivity|];
    rewrite Haw in Haw';
    destruct (catch_enabled s' side Haw' Hrej) as (s4 & Hstep' & Hdone);
    exists s4; (split; [|exact Hdone]);
    eapply steps_cons; [| exact Hstep'];
    eapply steps_cons; [apply steps_refl | exact Hstep].
Qed.

(** C3: when the operator cancels a session whose coordinator still
    awaits and whose units have not both resolved, no error is logged from
    then on; until the coordinator's [catch] runs nothing moves and the
    [catch] can still run; once it has run, the operator-terminated
    warning has been logged exactly once and every side shows what it
    showed at the cancel, except that [syncing] and [retrying] became
    [idle]: a side whose unit was still suspended is [idle], a side in a
    terminal state keeps it. *)
Theorem cancellation_releases_pending_sides st0 s0 s1 s3 :
  handleSyncFromUrls urlA urlB st0 = Running s0 ->
  steps urlA urlB s0 s1 ->
  awaiting s1 = true -> bothResolved s1 = false ->
  steps urlA urlB (afterCancel s1) s3 ->
  errorLogs (store s3) = errorLogs (store s1)
  /\ if awaiting s3
     then terminatedWarnings (store s3) = terminatedWarnings (store s1)
          /\ (forall side, status side (store s3) = status side (store s1))
          /\ exists s4, steps urlA urlB s3 s4 /\ awaiting s4 = false
     else terminatedWarnings (store s3) = S (terminatedWarnings (store s1))
          /\ forall side,
               status side (store s3) = releasePending (status side (store s1))
               /\ (settled (unitOf side s1) = false ->
                   status side (store s3) = idle).
Proof.
  intros Hstart Hrun Haw Hnot Hafter.
  destruct (start_ok _ Hstart) as [Hok0 _].
  pose proof (steps_ok Hok0 Hrun) as Hok1.
  destruct (afterCancel_base Hok1 Haw) as [Hok2 Hinv2].
  destruct (cancelledFrom_steps Hnot Hok2 Hinv2 Hafter) as [Hok3 Hinv3].
  pose proof Hinv3 as (_ & _ & Herr & Hst).
  split; [exact Herr|].
  destruct (awaiting s3) eqn:Haw3.
  - destruct Hst as [Htw Hst]. split; [exact Htw|]. split; [exact Hst|].
    now apply (cancelled_can_finish Hnot Hok3 Hinv3).
  - destruct Hst as [Htw Hst]. split; [exact Htw|].
    intro side. split; [apply Hst|].
    intro Hpend. rewrite Hst. apply pendingStatus_release.
    destruct Hok1 as (HA & HB & _). unfold unitOk in HA, HB.
    destruct side; cbn [unitOf] in *;
      [destruct (unitA s1) | destruct (unitB s1)]; try discriminate;
      cbn in *; tauto.
Qed.

End SessionFacts.

Section SessionExamples.
Import Js Part000 Trace.

Lemma sample_run :
  steps sampleUrl sampleUrl (afterCancel sampleSession) sampleCaught.
Proof.
  eapply steps_cons; [eapply steps_cons; [apply steps_refl|]|].
  - apply (@StepFetch sampleUrl sampleUrl A 0 (FetchRejected abortErr)
             (afterCancel sampleSession) eq_refl).
    intros _. exists abortErr. split; reflexivity.
  - apply (@StepCatch sampleUrl sampleUrl abortErr sampleRejected eq_refl).
    apply AllRejectedA.
Defined.

(** C3, witness: two URLs, cancel at once, side A's request rejects, the
    coordinator's [catch] runs. *)
Lemma cancellation_releases_pending_sides_witness :
  terminatedWarnings (store sampleCaught)
  = S (terminatedWarnings (store sampleSession))
  /\ forall side, status side (store sampleCaught) = idle.
Proof.
  pose proof (@cancellation_releases_pending_sides sampleUrl sampleUrl
                initialStore sampleSession sampleSession sampleCaught
                eq_refl (steps_refl _ _ _) eq_refl eq_refl sample_run) as H.
  destruct H as [_ H]. cbn [awaiting sampleCaught] in H.
  destruct H as [Htw Hst]. split; [exact Htw|].
  intro side. apply (Hst side). destruct side; reflexivity.
Defined.

End SessionExamples.

Section RunFacts.
Import Js Part000 Trace.

Variable urlA urlB : jsstring.
Variable env : nat -> AttemptEnv.

Lemma steps_step s1 s2 s3 :
  step urlA urlB s1 s2 -> steps urlA urlB s2 s3 -> steps urlA urlB s1 s3.
Proof.
  intros H12 H23. induction H23 as [s | s s' s'' _ IH Hstep].
  - eapply steps_cons; [apply steps_refl | exact H12].
  - eapply steps_cons; [apply IH; exact H12 | exact Hstep].
Qed.

Lemma steps_trans s1 s2 s3 :
  steps urlA urlB s1 s2 -> steps urlA urlB s2 s3 -> steps urlA urlB s1 s3.
Proof.
  intros H12 H23. induction H23 as [s | s s' s'' _ IH Hstep]; [exact H12|].
  eapply steps_cons; [apply IH; exact H12 | exact Hstep].
Qed.

Lemma resume_same side s : resume side (unitOf side s, store s) s = s.
Proof. destruct s, side; reflexivity. Qed.

Lemma resume_resume side r r' s :
  resume side r' (resume side r s) = resume side r' s.
Proof. destruct side; reflexivity. Qed.

Lemma unitOf_resume side r s : unitOf side (resume side r s) = fst r.
Proof. destruct side; reflexivity. Qed.

Lemma store_resume side r s : store (resume side r s) = snd r.
Proof. destruct side; reflexivity. Qed.

Lemma resumed_aborted side a st r :
  resumed side a st r -> aborted (snd r) = aborted st.
Proof. destruct 1; destruct side; reflexivity. Qed.

Lemma onTimer_aborted_settled url side a st :
  aborted st = true -> settled (fst (onTimer url side 3 a st)) = true.
Proof.
  intro Hab. unfold onTimer, loopHead.
  destruct (S a <=? 3); [rewrite Hab|]; reflexivity.
Qed.

Lemma drive_settled onF onT onTi fuel pc st :
  settled pc = true -> drive onF onT onTi env fuel pc st = (pc, st).
Proof. destruct fuel, pc; cbn; congruence. Qed.

(** A unit run on its own against [env] is one of the runs of the session:
    every resumption is a turn of the event loop, a cancel during a
    backoff is the operator's turn before the timer fires. *)
Lemma drive_steps side : forall fuel s,
  aborted (store s) = false \/ settled (unitOf side s) = true ->
  steps urlA urlB s
    (resume side
       (drive (onFetch side 3) (onText side 3)
              (onTimer (urlOf urlA urlB side) side 3)
              env fuel (unitOf side s) (store s))
       s).
Proof.
  induction fuel as [|fuel IH]; intros s Hpre.
  - cbn [drive]. rewrite resume_same. apply steps_refl.
  - destruct (unitOf side s) as [a|a|a|c|e] eqn:Hu.
    4,5: cbn [drive]; rewrite <- Hu, resume_same; apply steps_refl.
    all: destruct Hpre as [Hab | Hs]; [|discriminate].
    + cbn [drive].
      destruct (onFetch side 3 a (fetched (env a)) (store s)) as [pc' st'] eqn:E.
      assert (Hstep : step urlA urlB s (resume side (pc', st') s)).
      { rewrite <- E. apply StepFetch; [exact Hu|]. intro H. congruence. }
      eapply steps_step; [exact Hstep|].
      specialize (IH (resume side (pc', st') s)).
      rewrite unitOf_resume, store_resume, resume_resume in IH. apply IH.
      left.
      pose proof (resumed_aborted
                    (onFetch_resumed side a (fetched (env a)) (store s))) as H.
      rewrite E in H. cbn in H |- *. congruence.
    + cbn [drive].
      destruct (onText side 3 a (body (env a)) (store s)) as [pc' st'] eqn:E.
      assert (Hstep : step urlA urlB s (resume side (pc', st') s)).
      { rewrite <- E. apply StepText; [exact Hu|]. intro H. congruence. }
      eapply steps_step; [exact Hstep|].
      specialize (IH (resume side (pc', st') s)).
      rewrite unitOf_resume, store_resume, resume_resume in IH. apply IH.
      left.
      pose proof (resumed_aborted
                    (onText_resumed side a (body (env a)) (store s))) as H.
      rewrite E in H. cbn in H |- *. congruence.
    + cbn [drive].
      set (st1 := if cancelInBackoff (env a) then cancel (store s) else store s).
      destruct (onTimer (urlOf urlA urlB side) side 3 a st1)
        as [pc' st'] eqn:E.
      assert (Hmid : steps urlA urlB s (withStore st1 s)).
      { unfold st1. destruct (cancelInBackoff (env a)).
        - eapply steps_cons; [apply steps_refl | apply StepCancel].
        - destruct s; apply steps_refl. }
      assert (Hstep : step urlA urlB (withStore st1 s)
                        (resume side (pc', st') (withStore st1 s))).
      { rewrite <- E.
        apply (@StepTimer urlA urlB side a (withStore st1 s)).
        destruct side; exact Hu. }
      assert (Hrr : resume side (pc', st') (withStore st1 s)
                    = resume side (pc', st') s) by (destruct side; reflexivity).
      rewrite Hrr in Hstep.
      assert (Htail : steps urlA urlB (resume side (pc', st') s)
                (resume side
                   (drive (onFetch side 3) (onText side 3)
                      (onTimer (urlOf urlA urlB side) side 3) env fuel pc' st')
                   s)).
      { specialize (IH (resume side (pc', st') s)).
        rewrite unitOf_resume, store_resume, resume_resume in IH. apply IH.
        cbn [fst snd].
        destruct (aborted st1) eqn:Hab1.
        - right.
          pose proof (@onTimer_aborted_settled (urlOf urlA urlB side) side a
                        st1 Hab1) as H.
          now rewrite E in H.
        - left.
          pose proof (resumed_aborted
                        (onTimer_resumed (urlOf urlA urlB side) side a st1))
            as H.
          rewrite E in H. cbn in H. congruence. }
      exact (steps_trans Hmid (steps_step Hstep Htail)).
Qed.

Lemma start_not_aborted st0 s0 :
  handleSyncFromUrls urlA urlB st0 = Running s0 -> aborted (store s0) = false.
Proof.
  unfold handleSyncFromUrls.
  destruct (isSyncing st0); [discriminate|].
  destruct (negb (nonEmpty urlA) && negb (nonEmpty urlB)); [discriminate|].
  unfold fetchWithRetry, loopHead. cbn [Nat.leb Nat.eqb].
  destruct (nonEmpty urlA), (nonEmpty urlB); cbn; intro H; injection H as <-;
    reflexivity.
Qed.

(** From its start every unit can be run to completion inside the
    session. *)
Lemma unit_run_in_session st0 s0 side :
  handleSyncFromUrls urlA urlB st0 = Running s0 ->
  steps urlA urlB s0
    (resume side
       (drive (onFetch side 3) (onText side 3)
              (onTimer (urlOf urlA urlB side) side 3)
              env (3 * 4) (unitOf side s0) (store s0))
       s0).
Proof.
  intro Hstart. apply drive_steps. left. exact (@start_not_aborted st0 s0 Hstart).
Qed.

(** In a session with a URL for side A only whose every fetch fails, the
    session reaches a state where A's unit has given up. *)
Lemma session_unit_gives_up st0 s0 :
  handleSyncFromUrls urlA urlB st0 = Running s0 ->
  nonEmpty urlA = true ->
  (forall i, i <= 3 ->
     fetchFails (fetched (env i)) /\ cancelInBackoff (env i) = false) ->
  exists s, steps urlA urlB s0 s
    /\ unitA s = Resolved None /\ statusA (store s) = error
    /\ unitB s = unitB s0.
Proof.
  intros Hstart Hurl Henv.
  pose proof (@unit_run_in_session st0 s0 A Hstart) as Hrun.
  pose proof (@start_not_aborted st0 s0 Hstart) as Hab.
  assert (HuA : unitA s0 = AwaitFetch 0).
  { revert Hstart. unfold handleSyncFromUrls.
    destruct (isSyncing st0); [discriminate|].
    destruct (negb (nonEmpty urlA) && negb (nonEmpty urlB)); [discriminate|].
    unfold fetchWithRetry, loopHead. rewrite Hurl. cbn [Nat.leb Nat.eqb].
    destruct (nonEmpty urlB); cbn; intro H; injection H as <-; reflexivity. }
  cbn [unitOf urlOf] in Hrun. rewrite HuA in Hrun.
  destruct (@drive_all_fail urlA A 3 env 3 0 (3 * 4) (store s0))
    as (st' & Hdrive & _ & Hst & _); [reflexivity | exact Henv | exact Hab | lia |].
  rewrite Hdrive in Hrun.
  eexists. split; [exact Hrun|]. repeat split. exact Hst.
Qed.

End RunFacts.

Section AggregateFacts.
Import Js Part000 Trace.

Local Arguments lit : simpl never.
Local Arguments ofNat : simpl never.
Local Arguments join : simpl never.
Local Arguments keptLines : simpl never.
Local Arguments trimmedLines : simpl never.

Lemma aggregate_None side st : aggregate side None st = st.
Proof. reflexivity. Qed.

(** The guard is [if (content)]: for content that is not null but
    empty the loop body leaves the side's list as it was and logs
    nothing. *)
Lemma aggregate_skips_empty_content :
  aggregate A (Some []) sampleListed = sampleListed
  /\ proxies A (aggregate A (Some []) sampleListed) = lit "1.2.3.4:80"
  /\ join [newline] (keptLines []) = []
  /\ proxies A (aggregate A (Some []) sampleListed)
     <> join [newline] (keptLines []).
Proof. repeat split. discriminate. Qed.

End AggregateFacts.

Section OnlyAFacts.
Import Js Part000 Trace.

Variable urlA : jsstring.

Local Arguments attemptFailedMsg : simpl never.
Local Arguments terminalFailureMsg : simpl never.
Local Arguments backoffMs : simpl never.
Local Arguments terminatedMsg : simpl never.
Local Arguments lit : simpl never.
Local Arguments ofNat : simpl never.
Local Arguments join : simpl never.
Local Arguments pushLog : simpl never.
Local Arguments keptLines : simpl never.
Local Arguments trimmedLines : simpl never.

Lemma fetchWithRetry_no_url side n st :
  fetchWithRetry [] side n st = (Resolved None, st).
Proof. reflexivity. Qed.

Lemma isSyncing_false st :
  isSyncing st = false ->
  pendingStatus (statusA st) = false /\ pendingStatus (statusB st) = false.
Proof.
  unfold isSyncing.
  destruct (statusA st), (statusB st); cbn; intuition congruence.
Qed.

Lemma onlyA_start st0 s0 :
  handleSyncFromUrls urlA [] st0 = Running s0 -> onlyA st0 s0.
Proof.
  unfold handleSyncFromUrls.
  destruct (isSyncing st0) eqn:Hsync; [discriminate|].
  apply isSyncing_false in Hsync as [_ HB].
  destruct (negb (nonEmpty urlA) && negb (nonEmpty [])); [discriminate|].
  unfold fetchWithRetry, loopHead. cbn [Nat.leb Nat.eqb].
  destruct (nonEmpty urlA); cbn; intro H; injection H as <-;
    unfold onlyA, errorLogs; cbn; rewrite ?filter_app; cbn;
    rewrite ?app_nil_r; intuition.
Qed.

Lemma errorLogs_aggregate side c st :
  errorLogs (aggregate side c st) = errorLogs st.
Proof.
  destruct c as [c|]; [|reflexivity]. unfold aggregate.
  destruct (nonEmpty c); [|reflexivity].
  destruct (_ && _); destruct side; unfold errorLogs; cbn;
    rewrite filter_app; cbn; now rewrite app_nil_r.
Qed.

Lemma aggregate_A_frame c st :
  statusB (aggregate A c st) = statusB st
  /\ proxiesRight (aggregate A c st) = proxiesRight st
  /\ proxiesLeft (aggregate A c st)
     = match c with
       | Some c => if nonEmpty c then join [newline] (keptLines c) else proxiesLeft st
       | None => proxiesLeft st
       end.
Proof.
  destruct c as [c|]; [|now repeat split]. unfold aggregate.
  destruct (nonEmpty c); [|now repeat split].
  fold (keptLines c). destruct (_ && _); repeat split.
Qed.

Lemma onlyA_step st0 s s' :
  sessionOk s -> onlyA st0 s -> step urlA [] s s' -> onlyA st0 s'.
Proof.
  intros Hok Hinv Hstep.
  destruct (step_cases Hstep)
    as [(side & a & r & Hpc & Hr & ->) | [-> | [(now & ->)
       | [(cA & cB & Haw & HA & HB & ->) | (e & Haw & Hall & ->)]]]].
  - destruct s as [uA uB aw st]. unfold onlyA in *. cbn in Hinv.
    destruct Hinv as (HuB & Hp0 & HsB & HpR & Herr & Hleft). subst uB.
    destruct side; cbn in Hpc; [|discriminate].
    destruct aw.
    + destruct uA; try discriminate; injection Hpc as ->;
        inversion Hr; subst; cbn; unfold errorLogs in *; cbn in *;
        rewrite ?filter_app; cbn; rewrite ?app_nil_r;
        repeat split; try assumption; try congruence;
        try (intros _; apply Herr; discriminate).
    + destruct Hleft as [Hs _]. destruct uA; discriminate.
  - destruct s as [uA uB aw st]. unfold onlyA, afterCancel, handleCancelSync, cancel in *.
    cbn in *. destruct (controller st); exact Hinv.
  - destruct s as [uA uB aw st]. unfold onlyA in *. cbn in *. exact Hinv.
  - destruct s as [uA uB aw st]. unfold onlyA in *. cbn in *. subst.
    destruct Hinv as (HuB & Hp0 & HsB & HpR & Herr & Hleft).
    injection HuB as ->. rewrite aggregate_None.
    destruct (aggregate_A_frame cA st) as (H1 & H2 & H3).
    unfold errorLogs in *. cbn.
    fold (errorLogs (aggregate A cA st)). rewrite errorLogs_aggregate.
    repeat split; try congruence; [exact Herr|].
    intros c Hc. injection Hc as ->. rewrite H3, Hleft. reflexivity.
  - pose proof (AllSettled_abort Hok Hall) as He.
    destruct s as [uA uB aw st]. unfold onlyA in *. cbn in *. subst.
    destruct Hinv as (HuB & Hp0 & HsB & HpR & Herr & Hleft). subst uB.
    inversion Hall; subst.
    unfold onRejected. rewrite He. unfold errorLogs in *. cbn.
    rewrite filter_app. cbn. rewrite app_nil_r.
    rewrite HsB.
    assert (releasePending (statusB st0) = statusB st0) as ->
      by (destruct (statusB st0); cbn in *; congruence).
    repeat split; try assumption; try discriminate.
Qed.
End OnlyAFacts.

Section OnlyARuns.
Import Js Part000 Trace.
Variable urlA : jsstring.

Lemma onlyA_steps st0 s s' :
  sessionOk s -> onlyA st0 s -> steps urlA [] s s' ->
  sessionOk s' /\ onlyA st0 s'.
Proof.
  intros Hok Hinv Hsteps.
  induction Hsteps as [s | s s' s'' _ IH Hstep]; [now split|].
  destruct (IH Hok Hinv) as [Hok' Hinv']. split.
  - eapply step_ok; eassumption.
  - eapply onlyA_step; eassumption.
Qed.

(** C7: in a session with a URL for side A only, B's unit returns null
    at once without touching the state; whenever A's unit has resolved
    with content, B's status and list are what they were before the
    session and no error has been logged; the aggregation can then run,
    and once it has run only A's list has changed (to the kept lines when
    the content is not empty). *)
Theorem sync_with_only_source_A st0 s0 s content :
  handleSyncFromUrls urlA [] st0 = Running s0 ->
  steps urlA [] s0 s ->
  unitA s = Resolved (Some content) ->
  (forall st, fetchWithRetry [] B 3 st = (Resolved None, st))
  /\ unitB s = Resolved None
  /\ statusB (store s) = statusB st0
  /\ proxiesRight (store s) = proxiesRight st0
  /\ errorLogs (store s) = errorLogs st0
  /\ if awaiting s
     then proxiesLeft (store s) = proxiesLeft st0
          /\ exists s', step urlA [] s s' /\ awaiting s' = false
     else proxiesLeft (store s)
          = if nonEmpty content then join [newline] (keptLines content)
            else proxiesLeft st0.
Proof.
  intros Hstart Hrun HA.
  destruct (@start_ok urlA [] st0 s0 Hstart) as [Hok0 _].
  destruct (@onlyA_steps st0 s0 s Hok0 (@onlyA_start urlA st0 s0 Hstart) Hrun)
    as [_ (HuB & _ & HsB & HpR & Herr & Hleft)].
  split; [intro st; reflexivity|].
  split; [exact HuB|]. split; [exact HsB|]. split; [exact HpR|].
  split; [apply Herr; rewrite HA; discriminate|].
  destruct (awaiting s) eqn:Haw.
  - split; [exact Hleft|].
    eexists. split.
    + apply (@StepAggregate urlA [] (Some content) None s Haw HA HuB).
    + reflexivity.
  - now apply (proj2 Hleft).
Qed.
End OnlyARuns.

Section OnlyAExamples.
Import Js Part000 Trace.

Lemma sampleOnlyA_run : steps sampleUrl [] sampleOnlyA sampleOnlyA_done.
Proof.
  eapply steps_cons; [eapply steps_cons; [eapply steps_cons; [apply steps_refl|]|]|].
  - apply (@StepFetch sampleUrl [] A 0 (Response true 200 (lit "OK"))
             sampleOnlyA eq_refl).
    intro H. discriminate H.
  - apply (@StepText sampleUrl [] A 0 (Body sampleBody) sampleOnlyA_ok eq_refl).
    intro H. discriminate H.
  - apply (@StepAggregate sampleUrl [] (Some sampleBody) None sampleOnlyA_read
             eq_refl eq_refl eq_refl).
Defined.

(** C7, witness: side A answered [200 OK] with the sample body, no URL
    for side B. *)
Lemma sync_with_only_source_A_witness :
  statusB (store sampleOnlyA_done) = idle
  /\ proxiesRight (store sampleOnlyA_done) = []
  /\ errorLogs (store sampleOnlyA_done) = []
  /\ proxiesLeft (store sampleOnlyA_done)
     = lit "10.0.0.1:8080" ++ [newline] ++ lit "192.168.1.1:3128".
Proof.
  pose proof (@sync_with_only_source_A sampleUrl initialStore sampleOnlyA
                sampleOnlyA_done sampleBody eq_refl sampleOnlyA_run eq_refl)
    as (_ & _ & HsB & HpR & Herr & Hleft).
  cbn [awaiting sampleOnlyA_done] in Hleft.
  split; [exact HsB|]. split; [exact HpR|]. split; [exact Herr|].
  rewrite Hleft. reflexivity.
Defined.

End OnlyAExamples.

(** ** More on the line validator *)

Section LineFacts.
Import Js Regex Words Observe.

Lemma split_nonempty sep s : split sep s <> [].
Proof.
  destruct s as [|c s]; cbn; [discriminate|].
  destruct (c =? sep)%N; [discriminate|].
  destruct (split sep s); discriminate.
Qed.

Lemma split_app sep a b :
  split sep (a ++ sep :: b) = split sep a ++ split sep b.
Proof.
  induction a as [|c a IH]; cbn.
  - now rewrite N.eqb_refl.
  - destruct (c =? sep)%N; [now rewrite IH|].
    rewrite IH. pose proof (split_nonempty sep a) as Hne.
    destruct (split sep a); [congruence | reflexivity].
Qed.

Lemma split_join sep ls :
  ls <> [] -> Forall (fun l => ~ In sep l) ls ->
  split sep (join [sep] ls) = ls.
Proof.
  induction ls as [|l ls IH]; intros Hne Hall; [congruence|].
  inversion Hall as [|? ? Hl Hrest]; subst.
  destruct ls as [|l' ls].
  - cbn. now apply split_no_sep.
  - change (join [sep] (l :: l' :: ls)) with (l ++ sep :: join [sep] (l' :: ls)).
    rewrite split_app, (split_no_sep _ _ Hl), IH; [reflexivity | discriminate | assumption].
Qed.

(** The characters a valid line is made of. *)
Lemma numeral_chars s c : numeral s -> In c s -> isDigit c = true.
Proof. intros [_ H] Hin. rewrite forallb_forall in H. now apply H. Qed.


Ltac inv_matches :=
  repeat match goal with
  | H : matches Eps _ |- _ => inversion H; clear H; subst
  | H : matches (Rng _ _) _ |- _ => inversion H; clear H; subst
  | H : matches (Seq _ _) _ |- _ => inversion H; clear H; subst
  | H : matches (Alt _ _) _ |- _ => inversion H; clear H; subst
  | H : matches (Opt _) _ |- _ => inversion H; clear H; subst
  end.

Lemma port_length p : portText p -> 1 <= List.length p <= 5.
Proof.
  intro H. apply port_iff in H. revert H.
  let r := eval vm_compute in Part000.port in change Part000.port with r.
  intro H. inv_matches; cbn; lia.
Qed.

Lemma lineChar_not_space c : lineChar c = true -> isWhiteSpace c = false.
Proof.
  unfold lineChar, isDigit. rewrite !orb_true_iff, andb_true_iff, !N.leb_le, !N.eqb_eq.
  intro H. apply not_true_is_false. unfold isWhiteSpace.
  rewrite !orb_true_iff, !andb_true_iff, !N.leb_le, !N.eqb_eq. lia.
Qed.

Lemma numeral_lineChars s : numeral s -> forallb lineChar s = true.
Proof.
  intros [_ H]. rewrite forallb_forall in *. intros c Hc.
  unfold lineChar. now rewrite (H c Hc).
Qed.

Lemma numeral_length s : numeral s -> 1 <= List.length s.
Proof. intros [H _]. destruct s; [congruence | cbn; lia]. Qed.

Lemma accepted_shape l :
  acceptedLine l ->
  forallb lineChar l = true /\ 9 <= List.length l <= 21.
Proof.
  intros (a & b & c & d & p & -> & Ho & Hp).
  inversion Ho as [|? ? Ha Ho1]; subst. inversion Ho1 as [|? ? Hb Ho2]; subst.
  inversion Ho2 as [|? ? Hc Ho3]; subst. inversion Ho3 as [|? ? Hd _]; subst.
  pose proof (port_length Hp) as Hlp. destruct Hp as (Hp & _ & _).
  destruct Ha as (Ha & Hla & _), Hb as (Hb & Hlb & _),
           Hc as (Hc & Hlc & _), Hd as (Hd & Hld & _).
  split.
  - unfold dotted.
    repeat (rewrite forallb_app || cbn [forallb]).
    rewrite !numeral_lineChars by assumption. reflexivity.
  - pose proof (numeral_length Ha). pose proof (numeral_length Hb).
    pose proof (numeral_length Hc). pose proof (numeral_length Hd).
    unfold dotted. repeat (rewrite length_app || cbn [List.length]). lia.
Qed.


Lemma trimStart_clean l :
  (forall c t, l = c :: t -> isWhiteSpace c = false) -> trimStart l = l.
Proof.
  destruct l as [|c t]; intro H; [reflexivity|]. cbn. now rewrite (H c t eq_refl).
Qed.

Lemma trimStart_head s :
  forall c t, trimStart s = c :: t -> isWhiteSpace c = false.
Proof.
  induction s as [|x s IH]; intros c t E; cbn in E; [discriminate|].
  destruct (isWhiteSpace x) eqn:Hx; [exact (IH c t E)|].
  injection E as <- _. exact Hx.
Qed.

Lemma trimStart_suffix s : exists w, s = w ++ trimStart s.
Proof.
  induction s as [|x s [w IH]]; [now exists []|]. cbn.
  destruct (isWhiteSpace x); [|now exists []].
  exists (x :: w). cbn. now rewrite <- IH.
Qed.

Lemma trimEnd_prefix s : exists w, s = trimEnd s ++ w.
Proof.
  destruct (trimStart_suffix (rev s)) as [w E].
  exists (rev w). unfold trimEnd.
  now rewrite <- rev_app_distr, <- E, rev_involutive.
Qed.

(** The two ends of a trimmed string are not white space. *)
Lemma trim_ends s :
  (forall c t, trim s = c :: t -> isWhiteSpace c = false)
  /\ (forall c t, rev (trim s) = c :: t -> isWhiteSpace c = false).
Proof.
  unfold trim. split; intros c t E.
  - destruct (trimEnd_prefix (trimStart s)) as [w Ew].
    rewrite E in Ew. cbn in Ew. exact (@trimStart_head s c (t ++ w) Ew).
  - unfold trimEnd in E. rewrite rev_involutive in E.
    exact (@trimStart_head _ c t E).
Qed.

Lemma trim_fixed u :
  (forall c t, u = c :: t -> isWhiteSpace c = false) ->
  (forall c t, rev u = c :: t -> isWhiteSpace c = false) ->
  trim u = u.
Proof.
  intros Hh Hl. unfold trim, trimEnd.
  rewrite (trimStart_clean Hh), (trimStart_clean Hl). apply rev_involutive.
Qed.

Lemma trim_idempotent s : trim (trim s) = trim s.
Proof. destruct (trim_ends s). now apply trim_fixed. Qed.

Lemma trim_clean l :
  Forall (fun c => isWhiteSpace c = false) l -> trim l = l.
Proof.
  intro H. apply trim_fixed; intros c t E.
  - subst. now inversion H.
  - apply Forall_rev in H. rewrite E in H. now inversion H.
Qed.

Lemma trim_incl s c : In c (trim s) -> In c s.
Proof.
  intro H. unfold trim in H.
  destruct (trimEnd_prefix (trimStart s)) as [w1 E1].
  destruct (trimStart_suffix s) as [w2 E2].
  rewrite E2, E1. apply in_or_app. right. apply in_or_app. now left.
Qed.

Lemma split_pieces sep s : Forall (fun piece => ~ In sep piece) (split sep s).
Proof.
  induction s as [|c s IH]; cbn; [repeat constructor; intros []|].
  destruct (N.eqb_spec c sep) as [->|Hne]; [constructor; [intros [] | assumption]|].
  destruct (split sep s) as [|piece rest]; [repeat constructor; intros [H|[]]; congruence|].
  inversion IH; subst. constructor; [|assumption].
  intros [H|H]; [congruence | contradiction].
Qed.

Lemma accepted_trim l : acceptedLine l -> trim l = l /\ ~ In newline l /\ l <> [].
Proof.
  intro H. destruct (accepted_shape H) as [Hc Hlen].
  rewrite forallb_forall in Hc. repeat split.
  - apply trim_clean. apply Forall_forall. intros c Hin.
    apply lineChar_not_space. now apply Hc.
  - intro Hin. apply Hc in Hin. discriminate.
  - destruct l; [cbn in Hlen; lia | discriminate].
Qed.

(** The result of the validator, without the early return. *)
Lemma validateProxies_uniform text :
  Part000.validateProxies text
  = let lines := Part000.trimmedLines text in
    let invalid := filter (fun line => negb (test Part000.PROXY_REGEX line)) lines in
    Part000.mkValidation (List.length invalid =? 0) invalid (List.length lines).
Proof.
  unfold Part000.validateProxies. cbv zeta.
  destruct (List.length (Part000.trimmedLines text) =? 0) eqn:E; [|reflexivity].
  apply length_zero_nil in E. now rewrite E.
Qed.

Lemma trimmedLines_join ls :
  Forall (fun l => trim l = l /\ ~ In newline l /\ l <> []) ls ->
  Part000.trimmedLines (join [newline] ls) = ls.
Proof.
  intro H. destruct ls as [|l0 ls0]; [reflexivity|].
  unfold Part000.trimmedLines.
  rewrite split_join;
    [| discriminate | eapply Forall_impl; [|exact H]; now intros ? (_ & ? & _)].
  induction H as [|l ls (Ht & _ & Hne) _ IH]; [reflexivity|].
  cbn [map filter]. rewrite Ht, (nonEmpty_true Hne). now f_equal.
Qed.

Lemma keptLines_accepted content : Forall acceptedLine (Trace.keptLines content).
Proof.
  apply Forall_forall. intros l Hl. unfold Trace.keptLines in Hl.
  apply filter_In in Hl as [_ Hl]. now apply PROXY_REGEX_accepts.
Qed.

Lemma filter_all {X} (p : X -> bool) l : Forall (fun x => p x = true) l -> filter p l = l.
Proof. induction 1 as [|x l Hx _ IH]; cbn; [reflexivity|]. now rewrite Hx, IH. Qed.

Lemma filter_none {X} (p : X -> bool) l : Forall (fun x => p x = true) l -> filter (fun x => negb (p x)) l = [].
Proof. induction 1 as [|x l Hx _ IH]; cbn; [reflexivity|]. now rewrite Hx. Qed.

(** X5: after the coordinator has replaced a side's list with the lines
    kept from a non-empty body, that list passes the validator with no
    invalid line and as many lines as were kept, and keeping its lines
    again changes nothing. *)
Theorem synced_list_validates side content st :
  Part000.nonEmpty content = true ->
  let text := proxies side (Part000.aggregate side (Some content) st) in
  Part000.validateProxies text
  = Part000.mkValidation true [] (List.length (Trace.keptLines content))
  /\ Trace.keptLines text = Trace.keptLines content.
Proof.
  intro Hne. cbv zeta.
  assert (E : proxies side (Part000.aggregate side (Some content) st)
              = join [newline] (Trace.keptLines content)).
  { unfold Part000.aggregate. rewrite Hne. fold (Trace.keptLines content).
    destruct (_ && _); destruct side; reflexivity. }
  rewrite E.
  assert (Hl : Part000.trimmedLines (join [newline] (Trace.keptLines content))
               = Trace.keptLines content).
  { apply trimmedLines_join. eapply Forall_impl; [|apply keptLines_accepted].
    intros l. apply accepted_trim. }
  assert (Hall : Forall (fun l => test Part000.PROXY_REGEX l = true)
                        (Trace.keptLines content)).
  { eapply Forall_impl; [|apply keptLines_accepted]. intros l. apply PROXY_REGEX_accepts. }
  split.
  - rewrite validateProxies_uniform. cbv zeta. rewrite Hl.
    now rewrite (filter_none _ Hall).
  - unfold Trace.keptLines at 1. rewrite Hl. now apply filter_all.
Qed.


Lemma trimmedLines_app a b :
  Part000.trimmedLines (a ++ newline :: b)
  = Part000.trimmedLines a ++ Part000.trimmedLines b.
Proof.
  unfold Part000.trimmedLines. now rewrite split_app, map_app, filter_app.
Qed.

(** X2: validation is line by line: for two texts joined by a newline
    the line counts add up, the invalid lines are those of the first text
    followed by those of the second, and the whole is valid exactly when
    both parts are. *)
Theorem validateProxies_lines_compose a b :
  let ra := Part000.validateProxies a in
  let rb := Part000.validateProxies b in
  let r := Part000.validateProxies (a ++ newline :: b) in
  Part000.totalLines r = Part000.totalLines ra + Part000.totalLines rb
  /\ Part000.invalidLines r = Part000.invalidLines ra ++ Part000.invalidLines rb
  /\ Part000.isValid r = Part000.isValid ra && Part000.isValid rb.
Proof.
  cbv zeta. rewrite !validateProxies_uniform. cbv zeta.
  cbn [Part000.totalLines Part000.invalidLines Part000.isValid].
  rewrite trimmedLines_app, filter_app, !length_app.
  split; [reflexivity|]. split; [reflexivity|].
  generalize (List.length
                (filter (fun line => negb (test Part000.PROXY_REGEX line))
                        (Part000.trimmedLines a))),
             (List.length
                (filter (fun line => negb (test Part000.PROXY_REGEX line))
                        (Part000.trimmedLines b))).
  intros [|n] [|m]; reflexivity.
Qed.

(** X1: a line the pattern accepts is written with digits, dots and a
    colon only, has between 9 and 21 characters, and trimming leaves it
    as it is. *)
Theorem valid_line_shape l :
  test Part000.PROXY_REGEX l = true ->
  forallb lineChar l = true
  /\ 9 <= List.length l <= 21
  /\ trim l = l.
Proof.
  intro H. apply PROXY_REGEX_accepts in H.
  destruct (accepted_shape H) as [Hc Hl]. destruct (accepted_trim H) as [Ht _].
  now repeat split.
Qed.

(** X1, witness: the longest valid line. *)
Lemma valid_line_shape_witness :
  9 <= List.length (lit "255.255.255.255:65535") <= 21.
Proof.
  exact (proj1 (proj2 (@valid_line_shape (lit "255.255.255.255:65535") eq_refl))).
Defined.

Lemma filter_filter {X} (p q : X -> bool) l :
  filter q (filter p l) = filter (fun x => p x && q x) l.
Proof.
  induction l as [|x l IH]; cbn; [reflexivity|].
  destruct (p x); cbn; [destruct (q x)|]; now rewrite IH.
Qed.

(** X4: the rows the text area marks invalid are, once trimmed and in
    order, the validator's [invalidLines]; so as many rows are marked as
    the validator reports, and some row is marked exactly when the text is
    not valid. *)
Theorem marked_rows_agree value :
  let r := Part000.validateProxies value in
  map trim (filter Console.rowIsInvalid (split newline value))
  = Part000.invalidLines r
  /\ List.length (filter (fun b => b) (Console.invalidRows value))
     = List.length (Part000.invalidLines r)
  /\ existsb (fun b => b) (Console.invalidRows value) = negb (Part000.isValid r).
Proof.
  cbv zeta. rewrite validateProxies_uniform. cbv zeta.
  cbn [Part000.invalidLines Part000.isValid].
  assert (E : map trim (filter Console.rowIsInvalid (split newline value))
              = filter (fun line => negb (test Part000.PROXY_REGEX line))
                       (Part000.trimmedLines value)).
  { rewrite trimmedLines_counted. unfold countedLines.
    rewrite (filter_map_swap' trim (fun line => negb (test Part000.PROXY_REGEX line))).
    now rewrite filter_filter. }
  split; [exact E|]. rewrite <- E. clear E. unfold Console.invalidRows.
  split.
  - rewrite length_map.
    induction (split newline value) as [|x l IH]; [reflexivity|].
    cbn [map filter]. destruct (Console.rowIsInvalid x); cbn [List.length];
      now rewrite IH.
  - rewrite length_map.
    induction (split newline value) as [|x l IH]; [reflexivity|].
    cbn [map filter existsb]. destruct (Console.rowIsInvalid x);
      [reflexivity | exact IH].
Qed.

Lemma trimmedLines_normal text :
  Forall (fun l => trim l = l /\ ~ In newline l /\ l <> [])
         (Part000.trimmedLines text).
Proof.
  apply Forall_forall. intros l Hl. unfold Part000.trimmedLines in Hl.
  apply filter_In in Hl as [Hl Hne]. apply in_map_iff in Hl as (raw & <- & Hraw).
  repeat split.
  - apply trim_idempotent.
  - intro Hin. apply trim_incl in Hin.
    pose proof (split_pieces newline text) as Hp.
    rewrite Forall_forall in Hp. now apply (Hp raw Hraw).
  - intro E. rewrite E in Hne. discriminate.
Qed.

(** X3: blank lines and white space around lines do not matter:
    the text rebuilt from the trimmed non-empty lines has the same lines
    and the same validation result. *)
Theorem validateProxies_normal_form text :
  let normal := join [newline] (Part000.trimmedLines text) in
  Part000.trimmedLines normal = Part000.trimmedLines text
  /\ Part000.validateProxies normal = Part000.validateProxies text.
Proof.
  cbv zeta.
  assert (E : Part000.trimmedLines (join [newline] (Part000.trimmedLines text))
              = Part000.trimmedLines text)
    by (apply trimmedLines_join, trimmedLines_normal).
  split; [exact E|]. rewrite !validateProxies_uniform. cbv zeta. now rewrite E.
Qed.

(** X5, witness: the sample body arriving for side A. *)
Lemma synced_list_validates_witness :
  Part000.validateProxies
    (proxies A (Part000.aggregate A (Some Trace.sampleBody) initialStore))
  = Part000.mkValidation true [] 2.
Proof.
  exact (proj1 (@synced_list_validates A Trace.sampleBody initialStore eq_refl)).
Defined.

End LineFacts.

(** ** More on the retry-fetch unit *)

Section RetryFacts.
Import Js Part000 Trace Observe.

Variable url : jsstring.
Variable side : Side.
Variable maxRetries : nat.
Variable env : nat -> AttemptEnv.

Local Arguments attemptFailedMsg : simpl never.
Local Arguments terminalFailureMsg : simpl never.
Local Arguments backoffMs : simpl never.

Lemma drive_fail_prefix : forall k a fuel st,
  a + k <= maxRetries ->
  (forall i, a <= i < a + k ->
     fetchFails (fetched (env i)) /\ cancelInBackoff (env i) = false) ->
  aborted st = false ->
  exists st',
    drive (onFetch side maxRetries) (onText side maxRetries)
          (onTimer url side maxRetries) env (2 * k + fuel) (AwaitFetch a) st
    = drive (onFetch side maxRetries) (onText side maxRetries)
            (onTimer url side maxRetries) env fuel (AwaitFetch (a + k)) st'
    /\ calls st' = calls st ++ retryTrace url side maxRetries env k a
    /\ aborted st' = false /\ controller st' = controller st
    /\ status side st' = (if k =? 0 then status side st else retrying)
    /\ status (otherSide side) st' = status (otherSide side) st
    /\ proxiesLeft st' = proxiesLeft st /\ proxiesRight st' = proxiesRight st.
Proof.
  induction k as [|k IH]; intros a fuel st Hak Henv Hab.
  - exists st. rewrite Nat.add_0_r, app_nil_r. cbn. repeat split; assumption.
  - replace (2 * S k + fuel) with (S (S (2 * k + fuel))) by lia.
    cbn [drive].
    destruct (Henv a ltac:(lia)) as [Hf Hc].
    destruct (onFetch_fails side maxRetries a _ st Hf) as [Hna ->].
    unfold onCatch. rewrite Hna.
    replace (a =? maxRetries) with false by (symmetry; apply Nat.eqb_neq; lia).
    rewrite Hc. unfold onTimer, loopHead.
    replace (S a <=? maxRetries) with true by (symmetry; apply Nat.leb_le; lia).
    replace (aborted _) with false by (destruct side; cbn; now rewrite Hab).
    cbn [Nat.eqb].
    match goal with
    | |- context [drive _ _ _ _ _ (AwaitFetch (S a)) ?st1] =>
        destruct (IH (S a) fuel st1)
          as (st' & Hrun & Hcalls & Hab' & Hctl & Hst & Hoth & HpL & HpR);
          [lia | intros i Hi; apply Henv; lia | destruct side; cbn; now rewrite Hab |]
    end.
    exists st'. replace (a + S k) with (S a + k) by lia.
    split; [exact Hrun|].
    rewrite Hcalls, Hab', Hctl, Hst, Hoth, HpL, HpR.
    split; [destruct side; cbn; rewrite <- !app_assoc; reflexivity|].
    split; [reflexivity|].
    destruct side; destruct k; cbn; repeat split; reflexivity.
Qed.

Lemma retryTrace_fetches : forall k a,
  count isFetchCall (retryTrace url side maxRetries env k a) = k.
Proof.
  unfold count. induction k as [|k IH]; intro a; cbn; [reflexivity|].
  f_equal. apply IH.
Qed.

Lemma retryTrace_warnings : forall k a,
  count (isLogOfType LWarning) (retryTrace url side maxRetries env k a) = k.
Proof.
  unfold count. induction k as [|k IH]; intro a; cbn; [reflexivity|].
  f_equal. apply IH.
Qed.

Lemma retryTrace_errors : forall k a,
  filter (isLogOfType LError) (retryTrace url side maxRetries env k a) = [].
Proof. induction k as [|k IH]; intro a; cbn; [reflexivity | apply IH]. Qed.

Lemma retryTrace_waits : forall k a,
  filter isWaitCall (retryTrace url side maxRetries env k a)
  = map (fun i => CWait (backoffMs i)) (seq a k).
Proof.
  induction k as [|k IH]; intro a; cbn; [reflexivity|].
  f_equal. apply IH.
Qed.

(** X6: a unit whose first [k] fetches fail and whose next one is
    answered ok makes exactly [k + 1] requests, logs [k] warnings and no
    error, waits once after each failure, leaves its side in [success]
    and the other side's status alone, and returns the body. *)
Theorem fetchWithRetry_recovers k code statusText content st :
  nonEmpty url = true ->
  aborted st = false ->
  k <= maxRetries ->
  (forall i, i < k ->
     fetchFails (fetched (env i)) /\ cancelInBackoff (env i) = false) ->
  fetched (env k) = Response true code statusText ->
  body (env k) = Body content ->
  exists st' new,
    fetchWithRetry_run url side maxRetries env st = (Resolved (Some content), st')
    /\ calls st' = calls st ++ new
    /\ count isFetchCall new = S k
    /\ count (isLogOfType LWarning) new = k
    /\ filter (isLogOfType LError) new = []
    /\ filter isWaitCall new = map (fun i => CWait (backoffMs i)) (seq 0 k)
    /\ status side st' = success
    /\ status (otherSide side) st' = status (otherSide side) st.
Proof.
  intros Hurl Hab Hk Henv Hok Hbody.
  unfold fetchWithRetry_run, fetchWithRetry, loopHead.
  rewrite Hurl, Hab. cbn [Nat.leb Nat.eqb].
  replace (3 * S maxRetries) with (2 * k + S (S (3 * S maxRetries - 2 * k - 2)))
    by lia.
  match goal with
  | |- context [drive _ _ _ _ _ (AwaitFetch 0) ?st1] =>
      destruct (@drive_fail_prefix k 0 (S (S (3 * S maxRetries - 2 * k - 2))) st1)
        as (st' & Hrun & Hcalls & Hab' & _ & _ & Hoth & _);
        [lia | intros i Hi; apply Henv; lia | destruct side; cbn; assumption |]
  end.
  rewrite Hrun. cbn [Nat.add drive]. rewrite Hok. cbn [onFetch drive].
  rewrite Hbody. cbn [onText].
  eexists. exists (CFetch side url :: retryTrace url side maxRetries env k 0).
  split; [destruct (3 * S maxRetries - 2 * k - 2); reflexivity|].
  split; [destruct side; cbn; rewrite Hcalls; cbn; now rewrite <- app_assoc|].
  split; [unfold count; cbn; f_equal; apply retryTrace_fetches|].
  split; [apply retryTrace_warnings|].
  split; [apply retryTrace_errors|].
  split; [apply retryTrace_waits|].
  split; [destruct side; reflexivity|].
  destruct side; cbn in *; exact Hoth.
Qed.

(** X7: when the operator cancels during the backoff after failed
    attempt [j], the unit makes no further request, logs no error, and
    rejects with the abort error; it does not reset its own status, which
    is still [syncing] or [retrying]. *)
Theorem fetchWithRetry_cancelled_in_backoff j st :
  nonEmpty url = true ->
  aborted st = false -> controller st = true ->
  j < maxRetries ->
  (forall i, i < j ->
     fetchFails (fetched (env i)) /\ cancelInBackoff (env i) = false) ->
  fetchFails (fetched (env j)) -> cancelInBackoff (env j) = true ->
  exists st' new,
    fetchWithRetry_run url side maxRetries env st = (Rejected abortErr, st')
    /\ calls st' = calls st ++ new
    /\ count isFetchCall new = S j
    /\ count (isLogOfType LWarning) new = S j
    /\ filter (isLogOfType LError) new = []
    /\ aborted st' = true
    /\ pendingStatus (status side st') = true.
Proof.
  intros Hurl Hab Hctl Hj Henv Hf Hc.
  unfold fetchWithRetry_run, fetchWithRetry, loopHead.
  rewrite Hurl, Hab. cbn [Nat.leb Nat.eqb].
  replace (3 * S maxRetries) with (2 * j + S (S (3 * S maxRetries - 2 * j - 2)))
    by lia.
  match goal with
  | |- context [drive _ _ _ _ _ (AwaitFetch 0) ?st1] =>
      destruct (@drive_fail_prefix j 0 (S (S (3 * S maxRetries - 2 * j - 2))) st1)
        as (st' & Hrun & Hcalls & Hab' & Hctl' & Hst & _);
        [lia | intros i Hi; apply Henv; lia | destruct side; cbn; assumption |]
  end.
  rewrite Hrun. cbn [Nat.add drive].
  destruct (onFetch_fails side maxRetries j _ st' Hf) as [Hna ->].
  unfold onCatch. rewrite Hna.
  replace (j =? maxRetries) with false by (symmetry; apply Nat.eqb_neq; lia).
  rewrite Hc. unfold cancel.
  replace (controller (call _ (addLog _ _ st'))) with true
    by (symmetry; transitivity (controller st');
        [reflexivity | rewrite Hctl'; destruct side; exact Hctl]).
  unfold onTimer, loopHead.
  replace (S j <=? maxRetries) with true by (symmetry; apply Nat.leb_le; lia).
  cbn [aborted withAborted].
  eexists.
  exists (CFetch side url :: retryTrace url side maxRetries env j 0
          ++ [CLog (attemptFailedMsg side j maxRetries (errorOf (fetched (env j))))
                   LWarning;
              CWait (backoffMs j)]).
  split; [destruct (3 * S maxRetries - 2 * j - 2); reflexivity|].
  split.
  { cbn. rewrite Hcalls. destruct side; cbn; rewrite <- !app_assoc; reflexivity. }
  unfold count.
  split.
  { cbn. rewrite filter_app, length_app.
    fold (count isFetchCall (retryTrace url side maxRetries env j 0)).
    rewrite retryTrace_fetches. cbn. lia. }
  split.
  { cbn. rewrite filter_app, length_app.
    fold (count (isLogOfType LWarning) (retryTrace url side maxRetries env j 0)).
    rewrite retryTrace_warnings. cbn. lia. }
  split; [cbn; rewrite filter_app, retryTrace_errors; reflexivity|].
  split; [reflexivity|].
  cbn.
  assert (E : status side st' = if j =? 0 then syncing else retrying).
  { rewrite Hst. destruct j; [|reflexivity]. destruct side; reflexivity. }
  destruct side; cbn in *; rewrite E; destruct j; reflexivity.
Qed.

End RetryFacts.

Section RetryExamples.
Import Js Trace Observe.

(** X6, witness: two 503 answers, then [200 OK]. *)
Lemma fetchWithRetry_recovers_witness :
  exists st' new,
    Part000.fetchWithRetry_run sampleUrl A 3 recoversAtThird initialStore
    = (Resolved (Some sampleBody), st')
    /\ calls st' = calls initialStore ++ new
    /\ count isFetchCall new = 3
    /\ status A st' = success.
Proof.
  destruct (@fetchWithRetry_recovers sampleUrl A 3 recoversAtThird 2 200
              (lit "OK") sampleBody initialStore)
    as (st' & new & H1 & H2 & H3 & _ & _ & _ & H7 & _);
    [reflexivity | reflexivity | lia | | reflexivity | reflexivity |].
  - intros i Hi. destruct i as [|[|i]]; [split; reflexivity .. | lia].
  - exists st', new. repeat split; assumption.
Defined.

(** X7, witness: a 503 answer, then cancel during the first backoff. *)
Lemma fetchWithRetry_cancelled_in_backoff_witness :
  exists st' new,
    Part000.fetchWithRetry_run sampleUrl A 3 cancelledInBackoff activeStore
    = (Rejected Part000.abortErr, st')
    /\ calls st' = calls activeStore ++ new
    /\ count isFetchCall new = 1
    /\ pendingStatus (status A st') = true.
Proof.
  destruct (@fetchWithRetry_cancelled_in_backoff sampleUrl A 3 cancelledInBackoff
              0 activeStore)
    as (st' & new & H1 & H2 & H3 & _ & _ & _ & H7);
    [reflexivity | reflexivity | reflexivity | lia | intros i Hi; lia
    | reflexivity | reflexivity |].
  exists st', new. repeat split; assumption.
Defined.

End RetryExamples.

(** ** More on a synchronize session *)

Section SessionMore.
Import Js Part000 Trace Observe.

Variables urlA urlB : jsstring.

Local Arguments attemptFailedMsg : simpl never.
Local Arguments terminalFailureMsg : simpl never.
Local Arguments backoffMs : simpl never.
Local Arguments terminatedMsg : simpl never.
Local Arguments nonEmpty : simpl never.

Lemma resumed_keeps side a st r :
  resumed side a st r ->
  proxiesLeft (snd r) = proxiesLeft st /\ proxiesRight (snd r) = proxiesRight st
  /\ controller (snd r) = controller st
  /\ status (otherSide side) (snd r) = status (otherSide side) st
  /\ requests (otherSide side) (snd r) = requests (otherSide side) st.
Proof.
  destruct 1; destruct side; unfold requests, count; cbn;
    rewrite ?filter_app; cbn; rewrite ?app_nil_r; auto.
Qed.

Lemma suspended_not_both side a s :
  pcIndex (unitOf side s) = Some a -> bothResolved s = false.
Proof.
  unfold bothResolved. destruct side; cbn;
    destruct (unitA s), (unitB s); cbn; congruence.
Qed.

Lemma cancel_keeps st :
  proxiesLeft (cancel st) = proxiesLeft st
  /\ proxiesRight (cancel st) = proxiesRight st
  /\ calls (cancel st) = calls st.
Proof. unfold cancel. destruct (controller st); auto. Qed.

Lemma onRejected_keeps e st :
  proxiesLeft (onRejected e st) = proxiesLeft st
  /\ proxiesRight (onRejected e st) = proxiesRight st.
Proof. unfold onRejected. destruct (isAbort e); auto. Qed.

Lemma listsKept_step st0 s s' :
  step urlA urlB s s' ->
  (awaiting s = true \/ bothResolved s = false -> listsKept st0 s) ->
  awaiting s' = true \/ bothResolved s' = false -> listsKept st0 s'.
Proof.
  intros Hstep IH H.
  apply step_cases in Hstep
    as [(side & a & r & Hpc & Hr & ->) | [-> | [(now & ->)
       | [(cA & cB & Haw & HA & HB & ->) | (e & Haw & Hall & ->)]]]].
  - destruct (IH (or_intror (suspended_not_both side s Hpc))) as [HL HR].
    destruct (resumed_keeps Hr) as (EL & ER & _).
    unfold listsKept. destruct side; cbn; rewrite EL, ER; auto.
  - destruct (cancel_keeps (store s)) as (EL & ER & _).
    unfold listsKept, afterCancel, handleCancelSync. cbn. rewrite EL, ER.
    apply IH. exact H.
  - apply IH. exact H.
  - exfalso. destruct H as [H | H]; [discriminate|].
    unfold bothResolved in H. cbn in H. rewrite HA, HB in H. discriminate.
  - destruct (onRejected_keeps e (store s)) as [EL ER].
    unfold listsKept. cbn. unfold finally. cbn. rewrite EL, ER. apply IH. now left.
Qed.

Lemma listsKept_start st0 s0 :
  handleSyncFromUrls urlA urlB st0 = Running s0 -> listsKept st0 s0.
Proof.
  unfold handleSyncFromUrls.
  destruct (isSyncing st0); [discriminate|].
  destruct (negb (nonEmpty urlA) && negb (nonEmpty urlB)); [discriminate|].
  unfold fetchWithRetry, loopHead. cbn [Nat.leb Nat.eqb].
  destruct (nonEmpty urlA), (nonEmpty urlB); cbn; intro H; injection H as <-;
    split; reflexivity.
Qed.

(** X8: during a synchronize session the two proxy lists keep the
    values they had when it started for as long as the coordinator awaits;
    a session that ends in the coordinator's [catch] leaves them as they
    were.  Only the aggregation over two returned units writes them. *)
Theorem lists_change_only_by_aggregation st0 s0 s :
  handleSyncFromUrls urlA urlB st0 = Running s0 ->
  steps urlA urlB s0 s ->
  awaiting s = true \/ bothResolved s = false ->
  proxiesLeft (store s) = proxiesLeft st0
  /\ proxiesRight (store s) = proxiesRight st0.
Proof.
  intros Hstart Hsteps.
  change (awaiting s = true \/ bothResolved s = false -> listsKept st0 s).
  induction Hsteps as [s | s1 s2 s3 H12 IH H23].
  - intros _. now apply listsKept_start.
  - apply (listsKept_step H23). apply IH. exact Hstart.
Qed.


Lemma shows_status url side pc st st' :
  status side st' = status side st \/ status side st' = releasePending (status side st) ->
  shows url side pc st -> shows url side pc st'.
Proof.
  unfold shows. intros [E | E] H; rewrite E; [exact H|].
  destruct pc as [| | |[c|]|]; try exact I.
  - rewrite H. reflexivity.
  - destruct H as [Hp He]. destruct (status side st); try discriminate; cbn;
      (split; [reflexivity | exact He]).
Qed.

Lemma onCatch_shows url side a e st :
  shows url side (fst (onCatch side 3 a e st)) (snd (onCatch side 3 a e st)).
Proof.
  unfold onCatch. destruct (isAbort e); [exact I|].
  destruct (a =? 3); [|exact I].
  destruct side; cbn; (split; [reflexivity | intros _; reflexivity]).
Qed.

Lemma onFetch_shows url side a r st :
  shows url side (fst (onFetch side 3 a r st)) (snd (onFetch side 3 a r st)).
Proof.
  destruct r as [[|] code statusText | e]; cbn [onFetch];
    [exact I | apply onCatch_shows ..].
Qed.

Lemma onText_shows url side a r st :
  shows url side (fst (onText side 3 a r st)) (snd (onText side 3 a r st)).
Proof.
  destruct r as [content | e]; cbn [onText]; [|apply onCatch_shows].
  destruct side; reflexivity.
Qed.

Lemma onTimer_shows url url' side a st :
  a < 3 ->
  shows url side (fst (onTimer url' side 3 a st)) (snd (onTimer url' side 3 a st)).
Proof.
  intro Ha. unfold onTimer, loopHead.
  destruct (Nat.leb_spec (S a) 3) as [_ | H]; [|lia].
  destruct (aborted st); exact I.
Qed.

Lemma settledShows_resume s side0 r :
  shows (urlOf urlA urlB side0) side0 (fst r) (snd r) ->
  status (otherSide side0) (snd r) = status (otherSide side0) (store s) ->
  (forall side, settledShows urlA urlB s side) ->
  forall side, settledShows urlA urlB (resume side0 r s) side.
Proof.
  intros Hown Hother IH side. specialize (IH side).
  unfold settledShows in *.
  destruct side0, side; cbn in *; try exact Hown;
    (eapply shows_status; [left; exact Hother | exact IH]).
Qed.

Lemma settledShows_store s st' :
  (forall side, status side st' = status side (store s)
                \/ status side st' = releasePending (status side (store s))) ->
  (forall side, settledShows urlA urlB s side) ->
  forall side, settledShows urlA urlB (withStore st' s) side.
Proof.
  intros Hst IH side. specialize (IH side). specialize (Hst side).
  unfold settledShows in *. destruct side; cbn in *;
    (eapply shows_status; [exact Hst | exact IH]).
Qed.

Lemma aggregate_status side side' c st :
  status side (aggregate side' c st) = status side st.
Proof.
  destruct c as [c|]; [|reflexivity]. unfold aggregate.
  destruct (nonEmpty c); [|reflexivity].
  destruct (_ && _); destruct side, side'; reflexivity.
Qed.

Lemma onRejected_status side e st :
  status side (onRejected e st) = status side st
  \/ status side (onRejected e st) = releasePending (status side st).
Proof.
  unfold onRejected. destruct (isAbort e); [right | left]; destruct side; reflexivity.
Qed.

Lemma settledShows_step s s' :
  sessionOk s -> step urlA urlB s s' ->
  (forall side, settledShows urlA urlB s side) ->
  forall side, settledShows urlA urlB s' side.
Proof.
  intros Hok Hstep IH.
  destruct Hstep as [side0 a r s Hpc _ | side0 a r s Hpc _ | side0 a s Hpc | s | now s
                    | cA cB s Haw HA HB | e s Haw Hall].
  - apply settledShows_resume; [apply onFetch_shows | | exact IH].
    exact (proj1 (proj2 (proj2 (proj2 (resumed_keeps (onFetch_resumed side0 a r (store s))))))).
  - apply settledShows_resume; [apply onText_shows | | exact IH].
    exact (proj1 (proj2 (proj2 (proj2 (resumed_keeps (onText_resumed side0 a r (store s))))))).
  - apply settledShows_resume; [apply onTimer_shows | | exact IH].
    + destruct Hok as (HA & HB & _). unfold unitOk in HA, HB.
      cbn [unitOf] in HA, HB.
      destruct side0; cbn in Hpc; [rewrite Hpc in HA | rewrite Hpc in HB]; tauto.
    + exact (proj1 (proj2 (proj2 (proj2 (resumed_keeps
               (onTimer_resumed (urlOf urlA urlB side0) side0 a (store s))))))).
  - apply settledShows_store; [|exact IH]. intro side. left.
    apply cancel_status.
  - apply settledShows_store; [|exact IH]. intro side. left.
    destruct side; reflexivity.
  - change (mkSession (unitA s) (unitB s) false
              (finally (aggregate B cB (aggregate A cA (store s)))))
      with (withStore (finally (aggregate B cB (aggregate A cA (store s))))
              (mkSession (unitA s) (unitB s) false (store s))).
    apply settledShows_store.
    + intro side. left. cbn [store].
      transitivity (status side (aggregate B cB (aggregate A cA (store s))));
        [destruct side; reflexivity|].
      now rewrite !aggregate_status.
    + intro side. specialize (IH side). unfold settledShows in *.
      destruct side; exact IH.
  - change (mkSession (unitA s) (unitB s) false (finally (onRejected e (store s))))
      with (withStore (finally (onRejected e (store s)))
              (mkSession (unitA s) (unitB s) false (store s))).
    apply settledShows_store.
    + intro side. cbn [store].
      destruct (onRejected_status side e (store s)) as [E | E]; [left | right];
        rewrite <- E; destruct side; reflexivity.
    + intro side. specialize (IH side). unfold settledShows in *.
      destruct side; exact IH.
Qed.

Lemma settledShows_start st0 s0 :
  handleSyncFromUrls urlA urlB st0 = Running s0 ->
  forall side, settledShows urlA urlB s0 side.
Proof.
  unfold handleSyncFromUrls.
  destruct (isSyncing st0) eqn:Hsync; [discriminate|].
  apply isSyncing_false in Hsync as [HA HB].
  destruct (negb (nonEmpty urlA) && negb (nonEmpty urlB)); [discriminate|].
  unfold fetchWithRetry, loopHead. cbn [Nat.leb Nat.eqb].
  destruct (nonEmpty urlA) eqn:EA, (nonEmpty urlB) eqn:EB; cbn;
    intro H; injection H as <-; intros [|]; unfold settledShows, shows; cbn;
    rewrite ?EA, ?EB; try exact I; (split; [assumption | intro; discriminate]).
Qed.

Lemma settledShows_steps st0 s0 s :
  handleSyncFromUrls urlA urlB st0 = Running s0 ->
  steps urlA urlB s0 s ->
  forall side, settledShows urlA urlB s side.
Proof.
  intros Hstart Hsteps.
  induction Hsteps as [s | s1 s2 s3 H12 IH H23].
  - now apply (@settledShows_start st0).
  - apply (@settledShows_step s2 s3); [|exact H23|now apply IH].
    apply (@steps_ok urlA urlB s1 s2); [|exact H12].
    exact (proj1 (@start_ok urlA urlB st0 s1 Hstart)).
Qed.

(** X9: whatever else happens in the session (cancel, the other
    side's retries, aggregation, the coordinator's [catch]), a side whose
    unit returned a body shows [success], a side with a URL whose unit
    returned null shows [error], and once both units have returned
    [isSyncing] is false. *)
Theorem settled_side_shows_outcome st0 s0 s :
  handleSyncFromUrls urlA urlB st0 = Running s0 ->
  steps urlA urlB s0 s ->
  (forall side c, unitOf side s = Resolved (Some c) ->
                  status side (store s) = success)
  /\ (forall side, unitOf side s = Resolved None ->
                   nonEmpty (urlOf urlA urlB side) = true ->
                   status side (store s) = error)
  /\ (bothResolved s = true -> isSyncing (store s) = false).
Proof.
  intros Hstart Hsteps.
  pose proof (@settledShows_steps st0 s0 s Hstart Hsteps) as H.
  split; [|split].
  - intros side c Hu. specialize (H side). unfold settledShows, shows in H.
    now rewrite Hu in H.
  - intros side Hu Hurl. specialize (H side). unfold settledShows, shows in H.
    rewrite Hu in H. now apply H.
  - intro Hb. pose proof (H A) as HA. pose proof (H B) as HB.
    unfold settledShows, shows, bothResolved in *. cbn in HA, HB.
    destruct (unitA s) as [| | |cA|]; try discriminate.
    destruct (unitB s) as [| | |cB|]; try discriminate.
    unfold isSyncing.
    destruct cA, cB; cbn in HA, HB;
      repeat match goal with H : _ /\ _ |- _ => destruct H as [H _] end;
      destruct (statusA (store s)), (statusB (store s)); cbn in *; congruence.
Qed.


Lemma closed_step s s' :
  step urlA urlB s s' ->
  (awaiting s = false -> controller (store s) = false) ->
  awaiting s' = false -> controller (store s') = false.
Proof.
  intros Hstep IH.
  apply step_cases in Hstep
    as [(side & a & r & Hpc & Hr & ->) | [-> | [(now & ->)
       | [(cA & cB & Haw & HA & HB & ->) | (e & Haw & Hall & ->)]]]].
  - destruct (resumed_keeps Hr) as (_ & _ & Ec & _).
    destruct side; cbn; rewrite Ec; exact IH.
  - cbn. unfold handleCancelSync. rewrite cancel_controller. exact IH.
  - exact IH.
  - reflexivity.
  - reflexivity.
Qed.

Lemma closed_steps st0 s0 s :
  handleSyncFromUrls urlA urlB st0 = Running s0 ->
  steps urlA urlB s0 s ->
  awaiting s = false -> controller (store s) = false.
Proof.
  intros Hstart Hsteps.
  induction Hsteps as [s | s1 s2 s3 H12 IH H23].
  - intro H. rewrite (proj2 (@start_ok urlA urlB st0 s Hstart)) in H. discriminate.
  - apply (closed_step H23). now apply IH.
Qed.

(** X10: while the coordinator awaits and some unit is suspended,
    [isSyncing] is true, so a second call of [handleSyncFromUrls], with
    any URLs, returns at its first guard and changes nothing. *)
Theorem sync_ignored_while_unit_pending st0 s0 s side :
  handleSyncFromUrls urlA urlB st0 = Running s0 ->
  steps urlA urlB s0 s ->
  awaiting s = true -> settled (unitOf side s) = false ->
  isSyncing (store s) = true
  /\ forall u v, handleSyncFromUrls u v (store s) = NotStarted (store s).
Proof.
  intros Hstart Hsteps Haw Hpend.
  assert (Hok : sessionOk s).
  { apply (@steps_ok urlA urlB s0 s); [|exact Hsteps].
    exact (proj1 (@start_ok urlA urlB st0 s0 Hstart)). }
  assert (Hp : pendingStatus (status side (store s)) = true).
  { destruct Hok as (HA & HB & _). unfold unitOk in HA, HB.
    destruct side; cbn [unitOf status] in *;
      [destruct (unitA s) | destruct (unitB s)]; try discriminate;
      cbn [status] in *; tauto. }
  assert (Hs : isSyncing (store s) = true).
  { unfold isSyncing. destruct side; cbn [status] in Hp;
      destruct (statusA (store s)), (statusB (store s)); cbn in *; congruence. }
  split; [exact Hs|]. intros u v. unfold handleSyncFromUrls. now rewrite Hs.
Qed.

(** X11: [handleCancelSync] aborts the signal while the coordinator
    awaits; once the coordinator has finished, the controller is null and
    [handleCancelSync] does nothing. *)
Theorem cancel_acts_only_while_awaiting st0 s0 s :
  handleSyncFromUrls urlA urlB st0 = Running s0 ->
  steps urlA urlB s0 s ->
  (awaiting s = true -> aborted (handleCancelSync (store s)) = true)
  /\ (awaiting s = false -> handleCancelSync (store s) = store s).
Proof.
  intros Hstart Hsteps. split; intro Haw.
  - assert (Hok : sessionOk s).
    { apply (@steps_ok urlA urlB s0 s); [|exact Hsteps].
      exact (proj1 (@start_ok urlA urlB st0 s0 Hstart)). }
    destruct Hok as (_ & _ & Hc). unfold handleCancelSync, cancel.
    now rewrite (Hc Haw).
  - unfold handleCancelSync, cancel.
    now rewrite (@closed_steps st0 s0 s Hstart Hsteps Haw).
Qed.

Lemma requests_addLog side msg ty st :
  requests side (addLog msg ty st) = requests side st.
Proof.
  unfold requests, count, addLog. cbn. rewrite filter_app. cbn.
  now rewrite app_nil_r.
Qed.

Lemma requests_aggregate side side' c st :
  requests side (aggregate side' c st) = requests side st.
Proof.
  destruct c as [c|]; [|reflexivity]. unfold aggregate.
  destruct (nonEmpty c); [|reflexivity].
  destruct (_ && _); rewrite requests_addLog; destruct side'; reflexivity.
Qed.

Lemma requests_onRejected side e st :
  requests side (onRejected e st) = requests side st.
Proof.
  unfold onRejected. destruct (isAbort e).
  - transitivity (requests side (addLog terminatedMsg LWarning st));
      [reflexivity | apply requests_addLog].
  - apply requests_addLog.
Qed.

Lemma index_budget s side a :
  sessionOk s -> pcIndex (unitOf side s) = Some a -> a <= 3.
Proof.
  intros (HA & HB & _) Hpc. unfold unitOk in HA, HB.
  destruct side; cbn [unitOf] in *;
    [destruct (unitA s) | destruct (unitB s)]; try discriminate;
    injection Hpc as ->; lia.
Qed.

Lemma requestsAt_index pc a n :
  pcIndex pc = Some a -> requestsAt pc n -> n = S a.
Proof. destruct pc; cbn; try discriminate; intros [= ->]; auto. Qed.

Lemma requestsInv_own st0 side a st r n :
  a <= 3 -> resumed side a st r ->
  requests side st = requests side st0 + n -> n = S a ->
  exists n', requests side (snd r) = requests side st0 + n'
             /\ requestsAt (fst r) n'.
Proof.
  intros Ha Hr Hreq ->.
  destruct Hr as [ | e He | e Hne | e He | content | u Hle Hab | Hlt]; cbn [fst snd].
  - exists (S a). now split.
  - exists (S a). split; [exact Hreq | cbn; lia].
  - exists (S a). split; [|reflexivity].
    transitivity (requests side
                    (addLog (attemptFailedMsg side a 3 e) LWarning st)).
    + unfold requests, count, call. cbn [calls]. rewrite filter_app. cbn.
      now rewrite app_nil_r.
    + now rewrite requests_addLog.
  - exists (S a). split; [|cbn; lia].
    rewrite requests_addLog.
    transitivity (requests side
                    (addLog (attemptFailedMsg side a 3 e) LWarning st));
      [destruct side; reflexivity | now rewrite requests_addLog].
  - exists (S a). split; [|cbn; lia].
    rewrite <- Hreq. destruct side; reflexivity.
  - exists (S (S a)). split; [|reflexivity].
    unfold requests, count, call. cbn [calls].
    transitivity (List.length (filter (isFetchOf side) (calls st ++ [CFetch side u])));
      [destruct side; reflexivity|].
    rewrite filter_app, length_app.
    unfold requests, count in Hreq. rewrite Hreq.
    destruct side; cbn; lia.
  - exists (S a). split; [exact Hreq | cbn; lia].
Qed.

Lemma requestsInv_step st0 s s' :
  sessionOk s -> step urlA urlB s s' ->
  (forall side, requestsInv st0 s side) ->
  forall side, requestsInv st0 s' side.
Proof.
  intros Hok Hstep IH side.
  apply step_cases in Hstep
    as [(side0 & a & r & Hpc & Hr & ->) | [-> | [(now & ->)
       | [(cA & cB & Haw & HA & HB & ->) | (e & Haw & Hall & ->)]]]].
  - pose proof (@index_budget s side0 a Hok Hpc) as Ha.
    destruct (resumed_keeps Hr) as (_ & _ & _ & _ & Eo).
    destruct (IH side0) as (n0 & E0 & At0).
    pose proof (@requestsAt_index _ _ _ Hpc At0) as En.
    destruct (@requestsInv_own st0 _ _ _ _ _ Ha Hr E0 En) as (n' & E' & At').
    destruct (IH side) as (n & E & At).
    unfold requestsInv.
    destruct side0, side; cbn [otherSide] in Eo; cbn [resume unitOf store].
    + exists n'. now split.
    + exists n. rewrite Eo. now split.
    + exists n. rewrite Eo. now split.
    + exists n'. now split.
  - destruct (IH side) as (n & E & At). exists n. split; [|destruct side; exact At].
    rewrite <- E. unfold requests, afterCancel, handleCancelSync. cbn [store withStore].
    now rewrite (proj2 (proj2 (cancel_keeps (store s)))).
  - destruct (IH side) as (n & E & At). exists n. split; [|destruct side; exact At].
    rewrite <- E. reflexivity.
  - destruct (IH side) as (n & E & At). exists n. split; [|destruct side; exact At].
    rewrite <- E. cbn [store].
    transitivity (requests side (aggregate B cB (aggregate A cA (store s))));
      [reflexivity | now rewrite !requests_aggregate].
  - destruct (IH side) as (n & E & At). exists n. split; [|destruct side; exact At].
    rewrite <- E. cbn [store].
    transitivity (requests side (onRejected e (store s)));
      [reflexivity | apply requests_onRejected].
Qed.

Lemma requestsInv_start st0 s0 :
  handleSyncFromUrls urlA urlB st0 = Running s0 ->
  forall side, requestsInv st0 s0 side.
Proof.
  unfold handleSyncFromUrls.
  destruct (isSyncing st0); [discriminate|].
  destruct (negb (nonEmpty urlA) && negb (nonEmpty urlB)); [discriminate|].
  unfold fetchWithRetry, loopHead. cbn [Nat.leb Nat.eqb].
  destruct (nonEmpty urlA), (nonEmpty urlB); cbn;
    intro H; injection H as <-; intros [|]; unfold requestsInv, requests, count;
    cbn; rewrite ?filter_app, ?length_app; cbn;
    first [exists 1; split; [lia | reflexivity] | exists 0; split; [lia | cbn; lia]].
Qed.

(** X12: a session makes at most four requests for each side, and
    while a side's unit is suspended in attempt [a] it has made exactly
    [a + 1]. *)
Theorem session_request_budget st0 s0 s side :
  handleSyncFromUrls urlA urlB st0 = Running s0 ->
  steps urlA urlB s0 s ->
  requests side (store s) <= requests side st0 + 4
  /\ forall a, pcIndex (unitOf side s) = Some a ->
               requests side (store s) = requests side st0 + S a.
Proof.
  intros Hstart Hsteps.
  assert (H : forall side, requestsInv st0 s side).
  { induction Hsteps as [s | s1 s2 s3 H12 IH H23].
    - now apply requestsInv_start.
    - apply (@requestsInv_step st0 s2 s3); [|exact H23|now apply IH].
      apply (@steps_ok urlA urlB s1 s2); [|exact H12].
      exact (proj1 (@start_ok urlA urlB st0 s1 Hstart)). }
  assert (Hok : sessionOk s).
  { apply (@steps_ok urlA urlB s0 s); [|exact Hsteps].
    exact (proj1 (@start_ok urlA urlB st0 s0 Hstart)). }
  destruct (H side) as (n & E & At). split.
  - rewrite E. destruct (pcIndex (unitOf side s)) as [a|] eqn:Hpc.
    + rewrite (@requestsAt_index _ _ _ Hpc At).
      pose proof (@index_budget s side a Hok Hpc). lia.
    + destruct (unitOf side s); cbn in Hpc, At; try discriminate; lia.
  - intros a Hpc. rewrite E. now rewrite (@requestsAt_index _ _ _ Hpc At).
Qed.

End SessionMore.


Section SessionMoreExamples.
Import Js Part000 Trace Observe.

Lemma sampleSession_run : steps sampleUrl sampleUrl sampleSession sampleCaught.
Proof.
  apply (@steps_trans sampleUrl sampleUrl sampleSession (afterCancel sampleSession));
    [|exact sample_run].
  eapply steps_cons; [apply steps_refl|]. apply StepCancel.
Defined.

Lemma sampleOnlyA_first : steps sampleUrl [] sampleOnlyA sampleOnlyA_ok.
Proof.
  eapply steps_cons; [apply steps_refl|].
  apply (@StepFetch sampleUrl [] A 0 (Response true 200 (lit "OK"))
           sampleOnlyA eq_refl).
  intro H. discriminate H.
Defined.

(** X8, witness: the session on two URLs cancelled at once. *)
Lemma lists_change_only_by_aggregation_witness :
  proxiesLeft (store sampleCaught) = [] /\ proxiesRight (store sampleCaught) = [].
Proof.
  exact (@lists_change_only_by_aggregation sampleUrl sampleUrl initialStore
           sampleSession sampleCaught eq_refl sampleSession_run
           (or_intror eq_refl)).
Defined.

(** X9, witness: side A answered with the sample body, no URL for B. *)
Lemma settled_side_shows_outcome_witness :
  status A (store sampleOnlyA_done) = success
  /\ isSyncing (store sampleOnlyA_done) = false.
Proof.
  destruct (@settled_side_shows_outcome sampleUrl [] initialStore sampleOnlyA
              sampleOnlyA_done eq_refl sampleOnlyA_run) as (H1 & _ & H3).
  split; [exact (H1 A sampleBody eq_refl) | exact (H3 eq_refl)].
Defined.

(** X10, witness: side A's body is being read. *)
Lemma sync_ignored_while_unit_pending_witness :
  handleSyncFromUrls sampleUrl sampleUrl (store sampleOnlyA_ok)
  = NotStarted (store sampleOnlyA_ok).
Proof.
  exact (proj2 (@sync_ignored_while_unit_pending sampleUrl [] initialStore
                  sampleOnlyA sampleOnlyA_ok A eq_refl sampleOnlyA_first
                  eq_refl eq_refl) sampleUrl sampleUrl).
Defined.

(** X11, witness: cancel during the read and after the session. *)
Lemma cancel_acts_only_while_awaiting_witness :
  aborted (handleCancelSync (store sampleOnlyA_ok)) = true
  /\ handleCancelSync (store sampleOnlyA_done) = store sampleOnlyA_done.
Proof.
  split.
  - exact (proj1 (@cancel_acts_only_while_awaiting sampleUrl [] initialStore
                    sampleOnlyA sampleOnlyA_ok eq_refl sampleOnlyA_first) eq_refl).
  - exact (proj2 (@cancel_acts_only_while_awaiting sampleUrl [] initialStore
                    sampleOnlyA sampleOnlyA_done eq_refl sampleOnlyA_run) eq_refl).
Defined.

(** X12, witness: one request was enough for side A. *)
Lemma session_request_budget_witness :
  requests A (store sampleOnlyA_done) <= requests A initialStore + 4.
Proof.
  exact (proj1 (@session_request_budget sampleUrl [] initialStore sampleOnlyA
                  sampleOnlyA_done A eq_refl sampleOnlyA_run)).
Defined.

End SessionMoreExamples.

(** ** The aggregation within a session *)

Section AggregateSessionFacts.
Import Js Part000 Trace Observe.

Variables urlA urlB : jsstring.

Local Arguments lit : simpl never.
Local Arguments ofNat : simpl never.
Local Arguments join : simpl never.
Local Arguments keptLines : simpl never.
Local Arguments trimmedLines : simpl never.

Lemma aggregate_Some side content st :
  nonEmpty content = true ->
  proxies side (aggregate side (Some content) st) = join [newline] (keptLines content)
  /\ proxies (otherSide side) (aggregate side (Some content) st)
     = proxies (otherSide side) st
  /\ calls (aggregate side (Some content) st) = calls st ++ [aggregateLog side content].
Proof.
  intro Hne. unfold aggregate, aggregateLog. rewrite Hne.
  fold (keptLines content). cbv zeta.
  destruct ((List.length (keptLines content) =? 0)
            && (0 <? List.length (trimmedLines content)));
    destruct side; cbn; repeat split; reflexivity.
Qed.

Lemma aggregate_calls side c st :
  calls (aggregate side c st) = calls st ++ aggregateLogs side c.
Proof.
  destruct c as [content|]; cbn [aggregateLogs]; [|now rewrite app_nil_r].
  destruct (nonEmpty content) eqn:Hne.
  - apply (@aggregate_Some side content st Hne).
  - unfold aggregate. rewrite Hne. now rewrite app_nil_r.
Qed.

Lemma aggregate_other side c st :
  proxies (otherSide side) (aggregate side c st) = proxies (otherSide side) st.
Proof.
  destruct c as [content|]; [|reflexivity].
  destruct (nonEmpty content) eqn:Hne.
  - apply (@aggregate_Some side content st Hne).
  - unfold aggregate. now rewrite Hne.
Qed.

Lemma aggregated_shown s : bothResolved s = true -> shownLists (aggregated s).
Proof.
  intros Hb side content Hu Hne.
  unfold aggregated in *. cbn [store]. unfold finally.
  destruct side; cbn [unitOf unitA unitB] in Hu; rewrite Hu; cbn [contentOf].
  - change (proxies A (withController false ?st)) with (proxies A st).
    rewrite (aggregate_other B). now apply aggregate_Some.
  - change (proxies B (withController false ?st)) with (proxies B st).
    now apply aggregate_Some.
Qed.

Lemma bothResolved_units s :
  bothResolved s = true ->
  unitA s = Resolved (contentOf (unitA s)) /\ unitB s = Resolved (contentOf (unitB s)).
Proof.
  unfold bothResolved. destruct (unitA s), (unitB s); try discriminate. now split.
Qed.

Lemma finishedOk_step s s' :
  sessionOk s -> step urlA urlB s s' ->
  (awaiting s = false -> finishedOk s) ->
  awaiting s' = false -> finishedOk s'.
Proof.
  intros Hok Hstep IH Haw'.
  apply step_cases in Hstep
    as [(side & a & r & Hpc & Hr & ->) | [-> | [(now & ->)
       | [(cA & cB & Haw & HA & HB & ->) | (e & Haw & Hall & ->)]]]].
  - assert (Haw : awaiting s = false) by (destruct side; exact Haw').
    destruct (IH Haw) as [[Hb _] | (side' & e & He)].
    + exfalso. unfold bothResolved in Hb.
      destruct side; cbn [unitOf] in Hpc;
        destruct (unitA s), (unitB s); discriminate.
    + right. exists side', e.
      destruct side, side'; cbn [unitOf resume unitA unitB] in *;
        try exact He; rewrite He in Hpc; discriminate.
  - destruct (IH Haw') as [[Hb Hs] | (side' & e & He)].
    + left. split; [exact Hb|]. intros side content Hu Hne.
      specialize (Hs side content).
      unfold afterCancel, handleCancelSync, cancel. cbn [store withStore].
      destruct (controller (store s)); destruct side; apply Hs; assumption.
    + right. exists side', e. destruct side'; exact He.
  - destruct (IH Haw') as [[Hb Hs] | (side' & e & He)].
    + left. split; [exact Hb|]. intros side content Hu Hne.
      specialize (Hs side content). destruct side; apply Hs; assumption.
    + right. exists side', e. destruct side'; exact He.
  - left.
    assert (Hb : bothResolved s = true) by (unfold bothResolved; now rewrite HA, HB).
    assert (E : mkSession (unitA s) (unitB s) false
                  (finally (aggregate B cB (aggregate A cA (store s))))
                = aggregated s).
    { unfold aggregated. rewrite HA, HB. reflexivity. }
    rewrite E. split; [exact Hb | now apply aggregated_shown].
  - right. inversion Hall as [ | e' pcB Ea | pcA e' Eb]; subst.
    + exists A, e. cbn. congruence.
    + exists B, e. cbn. congruence.
Qed.

Lemma finishedOk_steps st0 s0 s :
  handleSyncFromUrls urlA urlB st0 = Running s0 ->
  steps urlA urlB s0 s ->
  awaiting s = false -> finishedOk s.
Proof.
  intros Hstart Hsteps.
  induction Hsteps as [s | s1 s2 s3 H12 IH H23].
  - intro H. rewrite (proj2 (@start_ok urlA urlB st0 s Hstart)) in H. discriminate.
  - apply (@finishedOk_step s2 s3); [|exact H23|now apply IH].
    apply (@steps_ok urlA urlB s1 s2); [|exact H12].
    exact (proj1 (@start_ok urlA urlB st0 s1 Hstart)).
Qed.

(** C4 (amended): when both units have returned, the coordinator can
    resume, only by the aggregation, which logs for each side with a
    non-empty body a warning when there were lines but none matched and a
    success with [valid/total] otherwise; once it has, every side whose
    fetch produced a non-empty body shows exactly the trimmed non-empty
    fetched lines that match the pattern, in order, joined by newline.
    As long as a unit has not returned, and for good when one has
    rejected, both lists are what they were when the session started. *)
Theorem aggregate_replaces_list st0 s0 s :
  handleSyncFromUrls urlA urlB st0 = Running s0 ->
  steps urlA urlB s0 s ->
  (bothResolved s = true ->
     (awaiting s = true ->
        step urlA urlB s (aggregated s)
        /\ (forall s', step urlA urlB s s' -> awaiting s' = false -> s' = aggregated s)
        /\ calls (store (aggregated s))
           = calls (store s) ++ aggregateLogs A (contentOf (unitA s))
                             ++ aggregateLogs B (contentOf (unitB s)))
     /\ (awaiting s = false ->
         forall side content,
           unitOf side s = Resolved (Some content) -> nonEmpty content = true ->
           proxies side (store s) = join [newline] (keptLines content)))
  /\ (bothResolved s = false ->
      forall side, proxies side (store s) = proxies side st0)
  /\ (forall content,
        keptLines content
        = filter (Regex.test PROXY_REGEX) (map trim (Words.countedLines content))).
Proof.
  intros Hstart Hsteps.
  split; [|split].
  - intro Hb. destruct (bothResolved_units s Hb) as [HA HB]. split.
    + intro Haw. split; [|split].
      * unfold aggregated. now apply StepAggregate.
      * intros s' Hstep Haw'.
        apply step_cases in Hstep
          as [(side & a & r & Hpc & Hr & ->) | [-> | [(now & ->)
             | [(cA & cB & _ & HA' & HB' & ->) | (e & _ & Hall & ->)]]]].
        -- exfalso. destruct side; cbn in Haw'; congruence.
        -- exfalso. cbn in Haw'. congruence.
        -- exfalso. cbn in Haw'. congruence.
        -- unfold aggregated. rewrite HA' , HB'. reflexivity.
        -- exfalso. rewrite HA, HB in Hall. inversion Hall.
      * unfold aggregated. cbn [store]. unfold finally.
        change (calls (withController false ?st)) with (calls st).
        now rewrite !aggregate_calls, app_assoc.
    + intros Haw side content Hu Hne.
      destruct (@finishedOk_steps st0 s0 s Hstart Hsteps Haw)
        as [[_ Hs] | (side' & e & He)].
      * now apply Hs.
      * exfalso. unfold bothResolved in Hb.
        destruct side'; cbn [unitOf] in He; rewrite He in Hb;
          [discriminate | destruct (unitA s); discriminate].
  - intros Hb.
    assert (H : awaiting s = true \/ bothResolved s = false -> listsKept st0 s).
    { clear Hb. induction Hsteps as [s | s1 s2 s3 H12 IH H23].
      - intros _. now apply (@listsKept_start urlA urlB).
      - apply (@listsKept_step urlA urlB st0 s2 s3 H23). now apply IH. }
    destruct (H (or_intror Hb)) as [HL HR]. intros [|]; assumption.
  - intro content. unfold keptLines. now rewrite trimmedLines_counted.
Qed.

End AggregateSessionFacts.

Section LateExamples.
Import Js Part000 Trace Observe.

Lemma late_run : steps sampleUrl sampleUrl lateSession lateCaught.
Proof.
  eapply steps_cons; [eapply steps_cons; [eapply steps_cons;
    [eapply steps_cons; [eapply steps_cons; [apply steps_refl|]|]|]|]|].
  - apply (@StepFetch sampleUrl sampleUrl A 0 (Response true 200 (lit "OK"))
             lateSession eq_refl).
    intro H. discriminate H.
  - apply (@StepText sampleUrl sampleUrl A 0 (Body sampleBody) lateAnswered eq_refl).
    intro H. discriminate H.
  - apply StepCancel.
  - apply (@StepFetch sampleUrl sampleUrl B 0 (FetchRejected abortErr)
             (afterCancel lateRead) eq_refl).
    intros _. exists abortErr. split; reflexivity.
  - apply (@StepCatch sampleUrl sampleUrl abortErr lateRejected eq_refl).
    apply AllRejectedB.
Defined.

Lemma late_read_run : steps sampleUrl sampleUrl lateSession lateRead.
Proof.
  eapply steps_cons; [eapply steps_cons; [apply steps_refl|]|].
  - apply (@StepFetch sampleUrl sampleUrl A 0 (Response true 200 (lit "OK"))
             lateSession eq_refl).
    intro H. discriminate H.
  - apply (@StepText sampleUrl sampleUrl A 0 (Body sampleBody) lateAnswered eq_refl).
    intro H. discriminate H.
Defined.

(** C4 as stated fails when a unit rejects: side A's fetch produced the
    sample body, then the operator cancelled and side B's request
    rejected; the coordinator's [catch] ran instead of the aggregation and
    list A is what it was. *)
Lemma aggregate_not_run_after_rejection :
  handleSyncFromUrls sampleUrl sampleUrl sampleListed = Running lateSession
  /\ steps sampleUrl sampleUrl lateSession lateCaught
  /\ awaiting lateCaught = false
  /\ unitOf A lateCaught = Resolved (Some sampleBody)
  /\ nonEmpty sampleBody = true
  /\ proxies A (store lateCaught) = lit "1.2.3.4:80"
  /\ proxies A (store lateCaught) <> join [newline] (keptLines sampleBody).
Proof.
  split; [reflexivity|]. split; [exact late_run|].
  repeat split. vm_compute. discriminate.
Qed.

(** C4, witness: the session with a URL for side A only, answered with
    the sample body. *)
Lemma aggregate_replaces_list_witness :
  proxies A (store sampleOnlyA_done)
  = lit "10.0.0.1:8080" ++ [newline] ++ lit "192.168.1.1:3128".
Proof.
  rewrite (proj2 (proj1 (@aggregate_replaces_list sampleUrl [] initialStore
                           sampleOnlyA sampleOnlyA_done eq_refl sampleOnlyA_run)
                         eq_refl)
             eq_refl A sampleBody eq_refl eq_refl).
  reflexivity.
Defined.

End LateExamples.


(** ** The harvest and start handlers *)

Section ScrapeFacts.
Import Js Regex Words Console.

Lemma scraped_accepted text : Forall acceptedLine (scraped text).
Proof.
  apply Forall_forall. intros l Hl. unfold scraped in Hl.
  apply filter_In in Hl as [_ Hl]. now apply PROXY_REGEX_accepts.
Qed.

Lemma Forall_take {X} (P : X -> Prop) n l : Forall P l -> Forall P (firstn n l).
Proof.
  intro H. rewrite <- (firstn_skipn n l) in H. now apply Forall_app in H.
Qed.

Lemma Forall_drop {X} (P : X -> Prop) n l : Forall P l -> Forall P (skipn n l).
Proof.
  intro H. rewrite <- (firstn_skipn n l) in H. now apply Forall_app in H.
Qed.

Lemma accepted_list_validates ls :
  Forall acceptedLine ls ->
  Part000.trimmedLines (join [newline] ls) = ls
  /\ Part000.validateProxies (join [newline] ls)
     = Part000.mkValidation true [] (List.length ls).
Proof.
  intro H.
  assert (E : Part000.trimmedLines (join [newline] ls) = ls).
  { apply trimmedLines_join. eapply Forall_impl; [|exact H].
    intros l. apply accepted_trim. }
  split; [exact E|].
  rewrite validateProxies_uniform. cbv zeta. rewrite E.
  rewrite (@filter_none _ (test Part000.PROXY_REGEX) ls); [reflexivity|].
  eapply Forall_impl; [|exact H]. intros l. apply PROXY_REGEX_accepts.
Qed.

(** X13: when the harvest returns at least one valid line, list A
    receives the first 40 of them and list B the rest, in order and with
    none lost; both lists then pass the validator with no invalid line;
    with 40 lines or fewer list B becomes empty; the busy flag is
    cleared. *)
Theorem scrape_splits_at_forty text a :
  scraped text <> [] ->
  let a' := handleScrapeProxies_end (GenText text) a in
  let left := proxiesLeft (core a') in
  let right := proxiesRight (core a') in
  Part000.trimmedLines left = firstn 40 (scraped text)
  /\ Part000.trimmedLines right = skipn 40 (scraped text)
  /\ Part000.trimmedLines left ++ Part000.trimmedLines right = scraped text
  /\ Part000.validateProxies left
     = Part000.mkValidation true [] (Nat.min 40 (List.length (scraped text)))
  /\ Part000.validateProxies right
     = Part000.mkValidation true [] (List.length (scraped text) - 40)
  /\ (List.length (scraped text) <= 40 -> right = [])
  /\ isScraping a' = false.
Proof.
  intros Hne. cbv zeta.
  assert (E : handleScrapeProxies_end (GenText text) a
              = withScraping false
                  (logged (lit "Successfully harvested "
                           ++ ofNat (List.length (scraped text))
                           ++ lit " nodes into local cache.") LSuccess
                     (withCore
                        (withProxiesRight (join [newline] (skipn 40 (scraped text)))
                           (withProxiesLeft (join [newline] (firstn 40 (scraped text)))
                              (core a))) a))).
  { unfold handleScrapeProxies_end. cbv zeta.
    destruct (scraped text) as [|l ls]; [congruence | reflexivity]. }
  rewrite E. cbn [core withScraping logged withCore isScraping].
  change (proxiesLeft (Part000.addLog ?m ?t ?st)) with (proxiesLeft st).
  change (proxiesRight (Part000.addLog ?m ?t ?st)) with (proxiesRight st).
  cbn [proxiesLeft proxiesRight withProxiesRight withProxiesLeft].
  pose proof (scraped_accepted text) as Hacc.
  destruct (accepted_list_validates (Forall_take 40 Hacc)) as [EL VL].
  destruct (accepted_list_validates (Forall_drop 40 Hacc)) as [ER VR].
  rewrite EL, ER, VL, VR, length_firstn, length_skipn, firstn_skipn.
  repeat split.
  intro Hle. now rewrite skipn_all2.
Qed.

(** X14: a harvest that fails (no valid line in the answer, also when
    the answer has no text, or a throw of the service) logs two entries in
    all, the handshake before the request and one after it (a warning
    for the empty result, an error for the throw, whose text falls back
    to [API key error] when the thrown value has no message); it leaves
    both lists as they were and clears the busy flag; while the request
    is pending a second call returns at the guard. *)
Theorem scrape_failure_keeps_lists g a :
  isScraping a = false ->
  match g with
  | GenText text => scraped text = []
  | GenThrows _ => True
  end ->
  exists a1,
    handleScrapeProxies_begin a = Some a1
    /\ handleScrapeProxies_begin a1 = None
    /\ proxiesLeft (core (handleScrapeProxies_end g a1)) = proxiesLeft (core a)
    /\ proxiesRight (core (handleScrapeProxies_end g a1)) = proxiesRight (core a)
    /\ isScraping (handleScrapeProxies_end g a1) = false
    /\ exists msg,
         calls (core (handleScrapeProxies_end g a1))
         = calls (core a)
           ++ [CLog (lit "Handshaking with global scraping engine...") LInfo;
               CLog msg match g with GenText _ => LWarning | GenThrows _ => LError end]
         /\ match g with
            | GenThrows e =>
                errMessage e = [] ->
                msg = lit "Scraping engine offline: API key error."
            | GenText _ => True
            end.
Proof.
  intros Hs H. unfold handleScrapeProxies_begin. rewrite Hs.
  eexists. split; [reflexivity|]. split; [reflexivity|].
  destruct g as [text | e].
  - unfold handleScrapeProxies_end. cbv zeta. rewrite H.
    cbn [List.length Nat.ltb Nat.leb]. repeat split.
    eexists. split; [|exact I]. cbn. rewrite <- app_assoc. reflexivity.
  - unfold handleScrapeProxies_end. repeat split.
    eexists. split; [cbn; rewrite <- app_assoc; reflexivity|].
    intros ->. reflexivity.
Qed.

Lemma preflight_nonEmpty l r :
  Part000.nonEmpty (preflight l r)
  = negb (Part000.isValid l && Part000.isValid r
          && negb ((Part000.totalLines l =? 0) && (Part000.totalLines r =? 0))).
Proof.
  unfold preflight.
  destruct (Part000.isValid l), (Part000.isValid r),
    (Part000.totalLines l =? 0), (Part000.totalLines r =? 0); reflexivity.
Qed.

(** X15: [handleStartBot] on a console that is not processing starts
    the run exactly when both lists are valid and not both empty: then the
    status is [Running], the counter and the chart are seeded with
    [videoViews] and the lists are untouched; otherwise it logs one error
    and leaves the status, the processing flag and the simulator alone. *)
Theorem start_preflight label a :
  isProcessing a = false ->
  let l := Part000.validateProxies (proxiesLeft (core a)) in
  let r := Part000.validateProxies (proxiesRight (core a)) in
  let ok := Part000.isValid l && Part000.isValid r
            && negb ((Part000.totalLines l =? 0) && (Part000.totalLines r =? 0)) in
  match handleStartBot label a with
  | StartAccepted a' =>
      ok = true /\ runStatus a' = Running /\ isProcessing a' = true
      /\ simulator a' = Part000.startRun (videoViews a) label
      /\ proxiesLeft (core a') = proxiesLeft (core a)
      /\ proxiesRight (core a') = proxiesRight (core a)
  | StartRefused a' =>
      ok = false /\ runStatus a' = runStatus a /\ isProcessing a' = false
      /\ simulator a' = simulator a
      /\ exists msg, calls (core a') = calls (core a) ++ [CLog msg LError]
  | StartIgnored => False
  end.
Proof.
  intro Hp. cbv zeta. unfold handleStartBot. rewrite Hp. cbv zeta.
  rewrite preflight_nonEmpty.
  destruct (_ && _ && _); cbn [negb].
  - repeat split.
  - repeat split; [exact Hp|]. eexists. reflexivity.
Qed.

End ScrapeFacts.

Section RunHistoryFacts.
Import Js Part000 Console.

Lemma sliceLast_absorb {X} n (l m : list X) :
  sliceLast n (sliceLast n l ++ m) = sliceLast n (l ++ m).
Proof.
  unfold sliceLast. rewrite !length_app, length_skipn.
  set (d := List.length l - n).
  assert (E : l ++ m = firstn d l ++ (skipn d l ++ m))
    by (now rewrite app_assoc, firstn_skipn).
  rewrite E.
  assert (Hd : List.length (firstn d l) = d) by (rewrite length_firstn; lia).
  rewrite (skipn_app (List.length l + List.length m - n) (firstn d l)).
  rewrite Hd, (skipn_all2 (firstn d l)) by lia. cbn [app].
  f_equal. lia.
Qed.

Lemma sliceLast_short {X} n (l : list X) : List.length l <= n -> sliceLast n l = l.
Proof. intro H. unfold sliceLast. now replace (List.length l - n) with 0 by lia. Qed.

Lemma runTicks_history v p draws : forall s,
  List.length (history s) <= 25 ->
  history (runTicks v p draws s)
  = sliceLast 25 (history s ++ produced v p draws (simulatedViews s)).
Proof.
  induction draws as [|d rest IH]; intros s Hs.
  - cbn. now rewrite app_nil_r, sliceLast_short.
  - cbn [runTicks fold_left produced].
    change (fold_left _ rest ?s1) with (runTicks v p rest s1).
    rewrite IH.
    + cbn [history tick simulatedViews]. unfold pushHistory.
      now rewrite sliceLast_absorb, <- app_assoc.
    + cbn [history tick]. unfold pushHistory. rewrite sliceLast_length. lia.
Qed.

Lemma last_default {X} (l : list X) d d' : l <> [] -> last l d = last l d'.
Proof.
  induction l as [|x l IH]; [congruence|]. intros _.
  destruct l as [|y l]; [reflexivity|]. cbn [last] in *. apply IH. discriminate.
Qed.

Lemma last_cons_default {X} e (l : list X) d : last (e :: l) d = last l e.
Proof.
  destruct l as [|y l]; [reflexivity|].
  change (last (e :: y :: l) d) with (last (y :: l) d).
  apply last_default. discriminate.
Qed.

Lemma runTicks_total v p draws : forall s d,
  simulatedViews (runTicks v p draws s)
  = views (last (produced v p draws (simulatedViews s))
                (mkHistory d (simulatedViews s))).
Proof.
  induction draws as [|x rest IH]; intros s d; [reflexivity|].
  cbn [runTicks fold_left produced].
  change (fold_left _ rest ?s1) with (runTicks v p rest s1).
  rewrite (IH _ (snd x)). cbn [simulatedViews tick].
  now rewrite last_cons_default.
Qed.

Lemma produced_length v p draws : forall total,
  List.length (produced v p draws total) = List.length draws.
Proof. induction draws as [|d rest IH]; intro total; cbn; [reflexivity|]. now rewrite IH. Qed.

Lemma last_skipn {X} k (l : list X) d :
  k < List.length l -> last (skipn k l) d = last l d.
Proof.
  revert l. induction k as [|k IH]; intros l Hk; [reflexivity|].
  destruct l as [|x l]; [cbn in Hk; lia|]. cbn [skipn].
  rewrite IH by (cbn in Hk; lia).
  destruct l; [cbn in Hk; lia | reflexivity].
Qed.

Lemma runTicks_chart v p label draws :
  history (runTicks v p draws (startRun v label))
  = sliceLast 25 (mkHistory label v :: produced v p draws v).
Proof. rewrite runTicks_history by (cbn; lia). reflexivity. Qed.

Lemma runTicks_last v p label draws :
  views (last (history (runTicks v p draws (startRun v label))) (mkHistory label v))
  = simulatedViews (runTicks v p draws (startRun v label)).
Proof.
  rewrite runTicks_chart. unfold sliceLast.
  rewrite last_skipn by (cbn [List.length]; lia).
  rewrite (runTicks_total v p draws (startRun v label) label).
  cbn [simulatedViews startRun].
  destruct (produced v p draws v); reflexivity.
Qed.

(** X16: after any number of ticks of a run the chart holds the last 25
    of the seed point followed by the points the ticks produced, in
    order; it has [min 25 (ticks + 1)] points, and its last point carries
    the current counter. *)
Theorem run_history_window v p label draws :
  let s := runTicks v p draws (startRun v label) in
  history s = sliceLast 25 (mkHistory label v :: produced v p draws v)
  /\ List.length (history s) = Nat.min 25 (S (List.length draws))
  /\ views (last (history s) (mkHistory label v)) = simulatedViews s.
Proof.
  cbv zeta. split; [apply runTicks_chart|]. split; [|apply runTicks_last].
  rewrite runTicks_chart, sliceLast_length. cbn [List.length].
  now rewrite produced_length.
Qed.

Lemma produced_sorted v p draws : forall total,
  (0 <= v)%Z -> (0 <= p)%Z -> Forall (fun d => unitDraw (fst d)) draws ->
  (Binary64.round (inject_Z total) == inject_Z total)%Q ->
  StronglySorted Z.le (map views (produced v p draws total))
  /\ Forall (Z.le total) (map views (produced v p draws total)).
Proof.
  induction draws as [|d rest IH]; intros total Hv Hp Hd Hrep; cbn [produced map].
  - split; constructor.
  - inversion Hd as [|? ? [H0 H1] Hrest]; subst.
    set (delta := increment v p (randomFactor (fst d))).
    assert (Hdelta : (0 <= delta)%Z)
      by (apply increment_nonneg; [exact Hv | exact Hp | now apply randomFactor_nonneg]).
    pose proof (addZ_ge Hrep Hdelta) as Hinc.
    destruct (IH (Binary64.addZ total delta) Hv Hp Hrest (addZ_fixed total delta))
      as [Hs Hall].
    split.
    + constructor; assumption.
    + constructor; [exact Hinc|].
      eapply Forall_impl; [|exact Hall]. cbn. intros; lia.
Qed.

Lemma skipn_sorted k (l : list Z) :
  StronglySorted Z.le l -> StronglySorted Z.le (skipn k l).
Proof.
  revert l. induction k as [|k IH]; intros l H; [exact H|].
  destruct l as [|x l]; [exact H|]. cbn [skipn]. apply IH.
  now inversion H.
Qed.

Lemma sorted_below_last (l : list Z) d :
  StronglySorted Z.le l -> Forall (fun x => (x <= last l d)%Z) l.
Proof.
  induction 1 as [|x l Hs IH Hx]; [constructor|].
  constructor.
  - destruct l as [|y l]; [cbn; lia|].
    change (last (x :: y :: l) d) with (last (y :: l) d).
    rewrite Forall_forall in Hx. apply Hx.
    destruct (@exists_last _ (y :: l)) as (l' & z & E); [discriminate|].
    rewrite E, last_last. apply in_or_app. right. now left.
  - destruct l as [|y l]; [constructor|]. exact IH.
Qed.

Lemma last_views (l : list HistoryEntry) d :
  last (map views l) (views d) = views (last l d).
Proof.
  induction l as [|x l IH]; [reflexivity|].
  destruct l as [|y l]; [reflexivity|]. exact IH.
Qed.

(** X17: in binary64 arithmetic, with [videoViews] and
    [incrementPercentage] integers from 0 to [2^53] and draws in [0, 1),
    the chart of a run never goes down: its points are in non-decreasing
    order and each lies between the seed value and the current counter. *)
Theorem run_never_decreases v p label draws :
  (0 <= v <= 2 ^ 53)%Z -> (0 <= p <= 2 ^ 53)%Z ->
  Forall (fun d => unitDraw (fst d)) draws ->
  let s := runTicks v p draws (startRun v label) in
  StronglySorted Z.le (map views (history s))
  /\ Forall (fun e => (v <= views e <= simulatedViews s)%Z) (history s).
Proof.
  intros Hv Hp Hd. cbv zeta.
  pose proof (runTicks_chart v p label draws) as E.
  pose proof (runTicks_last v p label draws) as Hlast.
  assert (Hrep : (Binary64.round (inject_Z v) == inject_Z v)%Q)
    by (apply round_Z_small; lia).
  destruct (@produced_sorted v p draws v (proj1 Hv) (proj1 Hp) Hd Hrep) as [Hs Hall].
  assert (Hfull : StronglySorted Z.le
                    (map views (mkHistory label v :: produced v p draws v)))
    by (constructor; assumption).
  assert (Hsorted : StronglySorted Z.le
            (map views (history (runTicks v p draws (startRun v label))))).
  { rewrite E. unfold sliceLast. rewrite <- skipn_map. now apply skipn_sorted. }
  split; [exact Hsorted|].
  pose proof (@sorted_below_last _ (views (mkHistory label v)) Hsorted) as Hup.
  rewrite last_views, Hlast in Hup.
  assert (Hlow : Forall (fun e => (v <= views e)%Z)
                   (history (runTicks v p draws (startRun v label)))).
  { rewrite E. unfold sliceLast.
    assert (Hf : Forall (fun e => (v <= views e)%Z)
                   (mkHistory label v :: produced v p draws v)).
    { constructor; [cbn; lia|]. now rewrite Forall_map in Hall. }
    rewrite <- (firstn_skipn (List.length (mkHistory label v :: produced v p draws v) - 25))
      in Hf.
    now apply Forall_app in Hf. }
  rewrite Forall_map in Hup. rewrite Forall_forall in *.
  intros e He. split; [now apply Hlow | now apply Hup].
Qed.

End RunHistoryFacts.

Section ExportFacts.
Import Js Words Console.

Lemma exportLine_no_newline l :
  ~ In newline (timestamp l) -> ~ In newline (message l) ->
  ~ In newline (exportLine l).
Proof.
  intros Ht Hm. unfold exportLine. rewrite !in_app_iff.
  intros [H | [H | [H | H]]]; try contradiction;
    cbn in H; repeat (destruct H as [H | H]; [discriminate H|]); exact H.
Qed.

(** X18: when no logged timestamp or message contains a newline and
    the log is not empty, the exported text splits at newlines into
    exactly one [[timestamp] message] line per entry, in order; the
    success entry of the export itself is pushed afterwards and is not in
    the text. *)
Theorem export_round_trip st :
  logs st <> [] ->
  Forall (fun l => ~ In newline (timestamp l) /\ ~ In newline (message l))
         (logs st) ->
  split newline (fst (exportLogs st)) = map exportLine (logs st)
  /\ logs (snd (exportLogs st))
     = Part000.pushLog
         (mkLog (clock st) (lit "Session logs exported successfully.") LSuccess)
         (logs st).
Proof.
  intros Hne Hall. split; [|reflexivity].
  cbn [fst exportLogs]. unfold exportText. apply split_join.
  - destruct (logs st); [congruence | discriminate].
  - apply Forall_map. eapply Forall_impl; [|exact Hall].
    intros l [Ht Hm]. now apply exportLine_no_newline.
Qed.

(** X19: what the persistence effect writes under the four keys is what
    the four initialisers read back on a fresh mount, whatever was stored
    before; after [localStorage.clear()] of [resetAll] all four come back
    empty. *)
Theorem persist_restore p ls :
  restore (persist p ls) = p
  /\ restore (clear (persist p ls)) = mkPersisted [] [] [] [].
Proof. destruct p. split; reflexivity. Qed.

End ExportFacts.

(** ** The gauges *)

Section GaugeFacts.
Import Console.

Lemma qmax_ge a b : (a <= qmax a b)%Q.
Proof.
  unfold qmax. destruct (Qle_bool a b) eqn:E; [|apply Qle_refl].
  now apply Qle_bool_iff.
Qed.

Lemma round_80 : (Binary64.round 80 == 80)%Q.
Proof. apply (@round_Z_small 80). lia. Qed.

Lemma round_94 : (Binary64.round 94 == 94)%Q.
Proof. apply (@round_Z_small 94). lia. Qed.

Lemma started_threads rnd :
  (0 <= rnd)%Q ->
  (80 <= Binary64.add (inject_Z (Binary64.floor (Binary64.mul rnd 50))) 120)%Q.
Proof.
  intro H0. unfold Binary64.add, Binary64.floor, Binary64.mul.
  assert (Hf : (0 <= Qfloor (Binary64.round (rnd * 50)))%Z).
  { rewrite <- (Qfloor_Z 0). apply Qfloor_resp_le. apply round_nonneg.
    apply Qmult_le_0_compat; [exact H0 | discriminate]. }
  eapply Qle_trans; [apply Qle_lteq; right; symmetry; apply round_80|].
  apply round_mono.
  assert (Hq : (inject_Z 0 <= inject_Z (Qfloor (Binary64.round (rnd * 50))))%Q)
    by (now rewrite <- Zle_Qle).
  change (inject_Z 0) with 0%Q in Hq. lra.
Qed.

Lemma rate_range rnd :
  unitDraw rnd ->
  let rate := Binary64.add 94 (Binary64.mul rnd (Binary64.lit (59 # 10))) in
  (94 <= rate)%Q /\ (rate <= 100)%Q.
Proof.
  intros [H0 H1]. cbv zeta. unfold Binary64.add, Binary64.mul.
  assert (Hc : (0 <= Binary64.lit (59 # 10))%Q)
    by (apply Qle_bool_iff; vm_compute; reflexivity).
  split.
  - eapply Qle_trans; [apply Qle_lteq; right; symmetry; apply round_94|].
    apply round_mono.
    assert (0 <= Binary64.round (rnd * Binary64.lit (59 # 10)))%Q
      by (apply round_nonneg, Qmult_le_0_compat; assumption).
    lra.
  - eapply Qle_trans;
      [|apply Qle_bool_iff;
        instantiate (1 := Binary64.round
                            (94 + Binary64.round (1 * Binary64.lit (59 # 10))));
        vm_compute; reflexivity].
    apply round_mono. apply Qplus_le_compat; [apply Qle_refl|].
    apply round_mono. apply Qmult_le_compat_r; [lra | exact Hc].
Qed.

(** The model and the primitive floats agree on sample values of the
    two gauge expressions and on the literal [5.9]. *)
Example gauge_arithmetic_agrees :
  Qeq (Binary64.ofFloat (94 + 0.5 * 0x1.799999999999ap+2)%float)
      (Binary64.add 94 (Binary64.mul (1 # 2) (Binary64.lit (59 # 10))))
  /\ Qeq (Binary64.ofFloat (150 + (0.25 * 10 - 5))%float)
         (Binary64.add 150 (Binary64.sub (Binary64.mul (1 # 4) 10) 5))
  /\ Qeq (Binary64.ofFloat 0x1.799999999999ap+2) (Binary64.lit (59 # 10)).
Proof. repeat split; apply Qeq_bool_iff; vm_compute; reflexivity. Qed.

Lemma applyGauge_ok op g :
  opDrawsOk op -> gaugesOk g -> gaugesOk (applyGauge op g).
Proof.
  unfold gaugesOk. intros Hop (Ht & Hlo & Hhi).
  destruct op as [rnd | rndRate rndThreads |]; cbn [applyGauge threads successRate].
  - split; [right | split; assumption].
    destruct Hop as [H0 H1]. now apply started_threads.
  - destruct Hop as [Hr _]. split; [right; apply qmax_ge|].
    exact (rate_range Hr).
  - split; [left; reflexivity|]. split; lra.
Qed.

Lemma applyGauge_busy op g :
  opDrawsOk op -> op <> GaugeIdle -> (80 <= threads (applyGauge op g))%Q.
Proof.
  intros Hop Hne.
  destruct op as [rnd | rndRate rndThreads |]; cbn [applyGauge threads];
    [| apply qmax_ge | congruence].
  destruct Hop as [H0 H1]. now apply started_threads.
Qed.

(** X22: in binary64 arithmetic, whatever sequence of effect runs and
    interval ticks happens from the initial gauges (draws in [0, 1)), the
    success rate stays between 94 and 100 and the thread gauge is 0 or at
    least 80; it is at least 80 whenever the last thing that ran was not
    the idle branch. *)
Theorem gauges_stay_in_range ops :
  Forall opDrawsOk ops ->
  let g := runGauges ops initialGauges in
  gaugesOk g
  /\ (last ops GaugeIdle <> GaugeIdle -> (80 <= threads g)%Q).
Proof.
  intros Hops. cbv zeta. unfold runGauges.
  assert (Hgen : forall g0, gaugesOk g0 ->
            gaugesOk (fold_left (fun g op => applyGauge op g) ops g0)
            /\ (last ops GaugeIdle <> GaugeIdle ->
                (80 <= threads (fold_left (fun g op => applyGauge op g) ops g0))%Q)).
  { induction Hops as [|op ops Hop Hrest IH]; intros g0 Hg0.
    - split; [exact Hg0 | cbn; congruence].
    - cbn [fold_left].
      destruct (IH (applyGauge op g0) (@applyGauge_ok op g0 Hop Hg0)) as [Hok Hlast].
      split; [exact Hok|].
      destruct ops as [|op' ops'].
      + cbn. intro Hne. now apply applyGauge_busy.
      + intro Hne. apply Hlast. exact Hne. }
  destruct (Hgen initialGauges) as [Hok Hlast].
  - unfold gaugesOk, initialGauges. cbn. split; [left; reflexivity|]. split; lra.
  - split; [exact Hok | exact Hlast].
Qed.

End GaugeFacts.

(** ** The coordinator of the older file *)

Section LegacyFacts.
Import Js Trace Observe.
Import Part000 (Session, mkSession, unitA, unitB, awaiting, store, unitOf, resume,
                withStore, Running, NotStarted, finally, urlOf).

Variables urlA urlB : jsstring.

Lemma legacy_unit_keeps_controller side url a st :
  (forall r, controller (snd (IndexTsx.onFetch side 3 a r st)) = controller st)
  /\ (forall r, controller (snd (IndexTsx.onText side 3 a r st)) = controller st)
  /\ controller (snd (IndexTsx.onTimer url side 3 a st)) = controller st.
Proof.
  repeat split.
  - intros [[|] code statusText | e]; cbn [IndexTsx.onFetch]; [reflexivity | |];
      unfold IndexTsx.onCatch;
      destruct (eqb _ _); [reflexivity | | reflexivity |];
      destruct (a =? 3); destruct side; reflexivity.
  - intros [content | e]; cbn [IndexTsx.onText]; [destruct side; reflexivity|].
    unfold IndexTsx.onCatch.
    destruct (eqb _ _); [reflexivity|].
    destruct (a =? 3); destruct side; reflexivity.
  - unfold IndexTsx.onTimer, IndexTsx.loopHead.
    destruct (S a <=? 3); [|reflexivity].
    destruct (aborted st); destruct side; reflexivity.
Qed.

Lemma legacy_aggregate_keeps side res st :
  (forall side', status side' (Legacy.aggregate side res st) = status side' st)
  /\ aborted (Legacy.aggregate side res st) = aborted st
  /\ errorLogs (Legacy.aggregate side res st) = errorLogs st
  /\ controller (Legacy.aggregate side res st) = controller st.
Proof.
  unfold Legacy.aggregate.
  destruct res as [| | |[value|]|]; try (repeat split; reflexivity).
  destruct (IndexTsx.nonEmpty value); [|repeat split; reflexivity].
  split; [intros side'; destruct side, side'; reflexivity|].
  split; [destruct side; reflexivity|].
  split; [|destruct side; reflexivity].
  unfold errorLogs. destruct side; cbn; rewrite filter_app; cbn;
    now rewrite app_nil_r.
Qed.

Lemma legacy_controller_step s s' :
  Legacy.step urlA urlB s s' ->
  (awaiting s = true -> controller (store s) = true) ->
  awaiting s' = true -> controller (store s') = true.
Proof.
  intros Hstep IH.
  destruct Hstep as [side a r s Hpc _ | side a r s Hpc _ | side a s Hpc | s | now s
                    | s Haw HA HB].
  - destruct (legacy_unit_keeps_controller side [] a (store s)) as (E & _ & _).
    destruct side; cbn; rewrite E; exact IH.
  - destruct (legacy_unit_keeps_controller side [] a (store s)) as (_ & E & _).
    destruct side; cbn; rewrite E; exact IH.
  - destruct (legacy_unit_keeps_controller side (urlOf urlA urlB side) a (store s))
      as (_ & _ & E).
    destruct side; cbn; cbn in E; rewrite E; exact IH.
  - cbn. rewrite cancel_controller. exact IH.
  - exact IH.
  - discriminate.
Qed.

Lemma legacy_start st0 s0 :
  Legacy.handleSyncFromUrls urlA urlB st0 = Running s0 ->
  controller (store s0) = true.
Proof.
  unfold Legacy.handleSyncFromUrls.
  destruct (Legacy.isSyncing st0); [discriminate|].
  destruct (negb (IndexTsx.nonEmpty urlA) && negb (IndexTsx.nonEmpty urlB));
    [discriminate|].
  unfold IndexTsx.fetchWithRetry, IndexTsx.loopHead. cbn [Nat.leb Nat.eqb].
  destruct (IndexTsx.nonEmpty urlA), (IndexTsx.nonEmpty urlB); cbn;
    intro H; injection H as <-; reflexivity.
Qed.

Lemma legacy_controller_steps st0 s0 s :
  Legacy.handleSyncFromUrls urlA urlB st0 = Running s0 ->
  Legacy.steps urlA urlB s0 s ->
  awaiting s = true -> controller (store s) = true.
Proof.
  intros Hstart Hsteps.
  induction Hsteps as [s | s1 s2 s3 H12 IH H23].
  - intros _. now apply (@legacy_start st0).
  - apply (legacy_controller_step H23). now apply IH.
Qed.

(** Under an aborted signal a unit of the older file only rejects or
    returns; it writes nothing. *)
Lemma legacy_aborted_unit side url a st :
  aborted st = true ->
  (forall r, Legacy.fetchHonoursSignal st r ->
             snd (IndexTsx.onFetch side 3 a r st) = st)
  /\ (forall r, Legacy.textHonoursSignal st r ->
                snd (IndexTsx.onText side 3 a r st) = st)
  /\ snd (IndexTsx.onTimer url side 3 a st) = st.
Proof.
  intro Hab. repeat split.
  - intros r Hr. destruct (Hr Hab) as (e & -> & He).
    cbn [IndexTsx.onFetch]. unfold IndexTsx.onCatch. now rewrite He.
  - intros r Hr. destruct (Hr Hab) as (e & -> & He).
    cbn [IndexTsx.onText]. unfold IndexTsx.onCatch. now rewrite He.
  - unfold IndexTsx.onTimer, IndexTsx.loopHead.
    destruct (S a <=? 3); [rewrite Hab|]; reflexivity.
Qed.

Lemma legacy_stuck_step s1 s s' :
  Legacy.step urlA urlB s s' ->
  aborted (store s) = true
  /\ (forall side, status side (store s) = status side (store s1))
  /\ errorLogs (store s) = errorLogs (store s1) ->
  aborted (store s') = true
  /\ (forall side, status side (store s') = status side (store s1))
  /\ errorLogs (store s') = errorLogs (store s1).
Proof.
  intros Hstep (Hab & Hst & Hel).
  destruct Hstep as [side a r s Hpc Hr | side a r s Hpc Hr | side a s Hpc | s | now s
                    | s Haw HA HB].
  - destruct (@legacy_aborted_unit side [] a (store s) Hab) as (E & _ & _).
    specialize (E r Hr).
    replace (store (resume side _ s)) with (store s)
      by (destruct side; cbn; now rewrite E).
    auto.
  - destruct (@legacy_aborted_unit side [] a (store s) Hab) as (_ & E & _).
    specialize (E r Hr).
    replace (store (resume side _ s)) with (store s)
      by (destruct side; cbn; now rewrite E).
    auto.
  - destruct (@legacy_aborted_unit side (urlOf urlA urlB side) a (store s) Hab) as (_ & _ & E).
    replace (store (resume side _ s)) with (store s)
      by (destruct side; cbn; cbn in E; now rewrite E).
    auto.
  - cbn [store withStore]. unfold cancel.
    destruct (controller (store s)); cbn; auto.
  - cbn [store withStore]. split; [exact Hab|]. split; [|exact Hel].
    intro side. rewrite <- Hst. destruct side; reflexivity.
  - cbn [store].
    destruct (legacy_aggregate_keeps A (unitA s) (store s)) as (SA & AA & EA & _).
    destruct (legacy_aggregate_keeps B (unitB s)
                (Legacy.aggregate A (unitA s) (store s))) as (SB & AB & EB & _).
    split; [|split].
    + transitivity (aborted (Legacy.aggregate B (unitB s)
                               (Legacy.aggregate A (unitA s) (store s))));
        [reflexivity | congruence].
    + intro side. rewrite <- Hst, <- SA, <- SB. destruct side; reflexivity.
    + rewrite <- Hel, <- EA, <- EB. reflexivity.
Qed.

(** X20: in the older file nothing resets a status after a cancel:
    from the cancel on the statuses and the error log never change again,
    so if a side was syncing or retrying [isSyncing] stays true and every
    later [handleSyncFromUrls] returns at its first guard. *)
Theorem legacy_cancel_leaves_sides_stuck st0 s0 s1 s :
  Legacy.handleSyncFromUrls urlA urlB st0 = Running s0 ->
  Legacy.steps urlA urlB s0 s1 -> awaiting s1 = true ->
  Legacy.steps urlA urlB (afterCancel s1) s ->
  (forall side, status side (store s) = status side (store s1))
  /\ errorLogs (store s) = errorLogs (store s1)
  /\ (Legacy.isSyncing (store s1) = true ->
      forall u v, Legacy.handleSyncFromUrls u v (store s) = NotStarted (store s)).
Proof.
  intros Hstart H01 Haw Hsteps.
  pose proof (@legacy_controller_steps st0 s0 s1 Hstart H01 Haw) as Hc.
  assert (H : aborted (store s) = true
              /\ (forall side, status side (store s) = status side (store s1))
              /\ errorLogs (store s) = errorLogs (store s1)).
  { remember (afterCancel s1) as s2 eqn:E2.
    induction Hsteps as [s | sa sb sc Hab IH Hbc].
    - subst s. unfold afterCancel, Part000.handleCancelSync, cancel.
      cbn [store withStore]. rewrite Hc. repeat split.
    - apply (@legacy_stuck_step s1 sb sc Hbc). now apply IH. }
  destruct H as (_ & Hst & Hel). split; [exact Hst|]. split; [exact Hel|].
  intros Hsync u v. unfold Legacy.handleSyncFromUrls.
  assert (E : Legacy.isSyncing (store s) = true).
  { rewrite <- Hsync. unfold Legacy.isSyncing.
    pose proof (Hst A) as EA. pose proof (Hst B) as EB. cbn in EA, EB.
    now rewrite EA, EB. }
  now rewrite E.
Qed.

End LegacyFacts.

Section LegacyUnitFacts.
Import Js Trace Observe.

Variable url : jsstring.
Variable side : Side.
Variable maxRetries : nat.
Variable env : nat -> AttemptEnv.

Local Arguments legacyTimeoutMsg : simpl never.
Local Arguments IndexTsx.backoffMs : simpl never.

Lemma legacy_onFetch_fails a r st :
  legacyFails r ->
  IndexTsx.onFetch side maxRetries a r st
  = if a =? maxRetries then
      (Resolved None,
       IndexTsx.addLog (legacyTimeoutMsg side maxRetries) LError
         (setStatus side error st))
    else (AwaitWait a, call (CWait (IndexTsx.backoffMs a)) st).
Proof.
  destruct r as [ok code statusText | e]; cbn [legacyFails IndexTsx.onFetch].
  - intros ->. reflexivity.
  - intro He. unfold IndexTsx.onCatch. now rewrite He.
Qed.

Lemma legacy_drive_all_fail : forall k a fuel st,
  a + k = maxRetries ->
  (forall i, i <= maxRetries ->
     legacyFails (fetched (env i)) /\ cancelInBackoff (env i) = false) ->
  aborted st = false ->
  2 * k + 1 <= fuel ->
  exists st',
    drive (IndexTsx.onFetch side maxRetries) (IndexTsx.onText side maxRetries)
          (IndexTsx.onTimer url side maxRetries) env fuel (AwaitFetch a) st
    = (Resolved None, st')
    /\ calls st' = calls st ++ legacyTrace url side maxRetries k a
    /\ status side st' = error.
Proof.
  induction k as [|k IH]; intros a fuel st Hak Henv Hab Hfuel.
  - destruct fuel as [|fuel]; [lia|]. cbn [drive].
    destruct (Henv a ltac:(lia)) as [Hf _].
    rewrite (@legacy_onFetch_fails a _ st Hf).
    replace (a =? maxRetries) with true by (symmetry; apply Nat.eqb_eq; lia).
    destruct fuel; cbn [drive];
      (eexists; split; [reflexivity|]; split; destruct side; reflexivity).
  - destruct fuel as [|[|fuel]]; [lia | lia |]. cbn [drive].
    destruct (Henv a ltac:(lia)) as [Hf Hc].
    rewrite (@legacy_onFetch_fails a _ st Hf).
    replace (a =? maxRetries) with false by (symmetry; apply Nat.eqb_neq; lia).
    rewrite Hc. unfold IndexTsx.onTimer, IndexTsx.loopHead.
    replace (S a <=? maxRetries) with true by (symmetry; apply Nat.leb_le; lia).
    replace (aborted _) with false by (cbn; now rewrite Hab).
    cbn [Nat.eqb].
    match goal with
    | |- context [drive _ _ _ _ fuel (AwaitFetch (S a)) ?st1] =>
        destruct (IH (S a) fuel st1) as (st' & Hrun & Hcalls & Hst);
          [lia | assumption | destruct side; cbn; now rewrite Hab | lia |]
    end.
    exists st'. split; [exact Hrun|]. split; [|exact Hst].
    rewrite Hcalls. destruct side; cbn; rewrite <- !app_assoc; reflexivity.
Qed.

Lemma legacyTrace_counts : forall k a,
  count isFetchCall (legacyTrace url side maxRetries k a) = k
  /\ filter isWaitCall (legacyTrace url side maxRetries k a)
     = map (fun i => CWait (IndexTsx.backoffMs i)) (seq a k)
  /\ filter isLogEntry (legacyTrace url side maxRetries k a)
     = [CLog (legacyTimeoutMsg side maxRetries) LError].
Proof.
  induction k as [|k IH]; intro a; [repeat split|].
  destruct (IH (S a)) as (H1 & H2 & H3).
  unfold count in *. cbn. rewrite H1, H2, H3. repeat split.
Qed.

(** X21: the older file's unit, when every fetch fails and nobody
    cancels, makes [maxRetries + 1] requests, waits [1000 * 2^i] ms after
    failure [i], logs nothing but one error whose text says
    [maxRetries] attempts, sets its status to [error] and returns
    null. *)
Theorem legacy_unit_always_failing st :
  IndexTsx.nonEmpty url = true ->
  aborted st = false ->
  (forall i, i <= maxRetries ->
     legacyFails (fetched (env i)) /\ cancelInBackoff (env i) = false) ->
  exists st' new,
    IndexTsx.fetchWithRetry_run url side maxRetries env st = (Resolved None, st')
    /\ calls st' = calls st ++ new
    /\ count isFetchCall new = S maxRetries
    /\ filter isWaitCall new
       = map (fun i => CWait (IndexTsx.backoffMs i)) (seq 0 maxRetries)
    /\ filter isLogEntry new
       = [CLog (lit "Cluster " ++ sideName side ++ lit " connection timeout after "
                ++ ofNat maxRetries ++ lit " attempts.") LError]
    /\ status side st' = error.
Proof.
  intros Hurl Hab Henv.
  unfold IndexTsx.fetchWithRetry_run, IndexTsx.fetchWithRetry, IndexTsx.loopHead.
  rewrite Hurl, Hab. cbn [Nat.leb Nat.eqb].
  match goal with
  | |- context [drive _ _ _ _ _ (AwaitFetch 0) ?st1] =>
      destruct (@legacy_drive_all_fail maxRetries 0 (3 * S maxRetries) st1)
        as (st' & Hrun & Hcalls & Hst);
        [lia | assumption | destruct side; cbn; now rewrite Hab | lia |]
  end.
  destruct (legacyTrace_counts maxRetries 0) as (H1 & H2 & H3).
  exists st', (CFetch side url :: legacyTrace url side maxRetries maxRetries 0).
  split; [exact Hrun|].
  split; [rewrite Hcalls; destruct side; cbn; rewrite <- app_assoc; reflexivity|].
  unfold count in *. cbn. rewrite H1, H2, H3. repeat split. exact Hst.
Qed.

End LegacyUnitFacts.

(** ** Sample runs for the later sections *)

Section ConsoleExamples.
Import Js Part000 Trace Observe Console.

(** X13, witness: the sample body harvested into the sample console. *)
Lemma scrape_splits_at_forty_witness :
  Part000.trimmedLines
    (proxiesLeft (core (handleScrapeProxies_end (GenText (Some sampleBody)) sampleApp)))
  = firstn 40 (scraped (Some sampleBody)).
Proof.
  refine (proj1 (@scrape_splits_at_forty (Some sampleBody) sampleApp _)).
  intro H. vm_compute in H. discriminate H.
Defined.

(** X14, witness: the service throws a value without a message. *)
Lemma scrape_failure_keeps_lists_witness :
  exists a1,
    handleScrapeProxies_begin sampleApp = Some a1
    /\ proxiesLeft (core (handleScrapeProxies_end
                            (GenThrows (mkError (lit "Error") [])) a1))
       = proxiesLeft (core sampleApp).
Proof.
  destruct (@scrape_failure_keeps_lists (GenThrows (mkError (lit "Error") []))
              sampleApp eq_refl I) as (a1 & H1 & _ & H3 & _).
  exists a1. split; assumption.
Defined.

(** X15, witness: one valid record in list A, list B empty: accepted. *)
Lemma start_preflight_witness :
  exists a', handleStartBot (lit "12:00") sampleApp = StartAccepted a'
             /\ runStatus a' = Running.
Proof.
  pose proof (@start_preflight (lit "12:00") sampleApp eq_refl) as H.
  cbv zeta in H.
  destruct (handleStartBot (lit "12:00") sampleApp) as [|a'|a'] eqn:E.
  - contradiction.
  - exfalso. destruct H as [H _]. vm_compute in H. discriminate H.
  - exists a'. split; [reflexivity | exact (proj1 (proj2 H))].
Defined.

(** X17, witness: 100000 views, 33 percent, two ticks. *)
Lemma run_never_decreases_witness :
  StronglySorted Z.le
    (map views (history (runTicks 100000 33 sampleDraws (startRun 100000 [])))).
Proof.
  refine (proj1 (@run_never_decreases 100000 33 [] sampleDraws _ _ _)).
  - lia.
  - lia.
  - repeat constructor; cbn; unfold Qle, Qlt; cbn; lia.
Defined.

(** X18, witness: a log with one entry. *)
Lemma export_round_trip_witness :
  split newline (fst (exportLogs sampleLogged)) = map exportLine (logs sampleLogged).
Proof.
  refine (proj1 (@export_round_trip sampleLogged _ _)).
  - discriminate.
  - repeat constructor; intro H; cbn in H;
      repeat (destruct H as [H | H]; [discriminate H|]); exact H.
Defined.

(** X22, witness: a run starts and its interval fires once. *)
Lemma gauges_stay_in_range_witness :
  (80 <= threads (runGauges sampleGaugeOps initialGauges))%Q.
Proof.
  refine (proj2 (@gauges_stay_in_range sampleGaugeOps _) _).
  - repeat constructor; cbn; unfold Qle, Qlt; cbn; lia.
  - discriminate.
Defined.

End ConsoleExamples.

Section LegacyExamples.
Import Js Part000 Trace Observe.

Lemma legacy_run :
  Legacy.steps sampleUrl [] (afterCancel legacySession) legacySettled.
Proof.
  eapply Legacy.steps_cons; [eapply Legacy.steps_cons; [apply Legacy.steps_refl|]|].
  - apply (@Legacy.StepFetch sampleUrl [] A 0 (FetchRejected domAbort)
             (afterCancel legacySession) eq_refl).
    intros _. exists domAbort. split; reflexivity.
  - apply (@Legacy.StepSettled sampleUrl [] legacyRejected eq_refl eq_refl eq_refl).
Defined.

(** X20, witness: side A is syncing, the operator cancels, the request
    rejects and the coordinator resumes: a second synchronize is still
    refused. *)
Lemma legacy_cancel_leaves_sides_stuck_witness :
  Legacy.handleSyncFromUrls sampleUrl sampleUrl (store legacySettled)
  = NotStarted (store legacySettled).
Proof.
  exact (proj2 (proj2 (@legacy_cancel_leaves_sides_stuck sampleUrl [] initialStore
                         legacySession legacySession legacySettled eq_refl
                         (Legacy.steps_refl _ _ _) eq_refl legacy_run))
           eq_refl sampleUrl sampleUrl).
Defined.

(** X21, witness: a relay that always answers 503. *)
Lemma legacy_unit_always_failing_witness :
  exists st' new,
    IndexTsx.fetchWithRetry_run sampleUrl A 3 alwaysUnavailable initialStore
    = (Resolved None, st')
    /\ calls st' = calls initialStore ++ new
    /\ count isFetchCall new = 4
    /\ status A st' = error.
Proof.
  destruct (@legacy_unit_always_failing sampleUrl A 3 alwaysUnavailable initialStore
              eq_refl eq_refl (fun i _ => conj eq_refl eq_refl))
    as (st' & new & H1 & H2 & H3 & _ & _ & H6).
  exists st', new. repeat split; assumption.
Defined.

End LegacyExamples.

(** ** Error entries of a session, the two files side by side, stop and start *)

Section ErrorFacts.
Import Js Part000 Trace Observe.

Variables urlA urlB : jsstring.

Local Arguments attemptFailedMsg : simpl never.
Local Arguments terminalFailureMsg : simpl never.
Local Arguments backoffMs : simpl never.
Local Arguments terminatedMsg : simpl never.

Lemma errorLogs_call c st :
  errorLogs (call c st) = errorLogs st ++ filter (isLogOfType LError) [c].
Proof. unfold errorLogs, call. cbn [calls]. now rewrite filter_app. Qed.

Lemma errorLogs_addLog msg ty st :
  errorLogs (addLog msg ty st)
  = errorLogs st ++ (if logTypeEqb ty LError then [CLog msg ty] else []).
Proof. unfold addLog. rewrite errorLogs_call. reflexivity. Qed.

Lemma errorLogs_setStatus side v st :
  errorLogs (setStatus side v st) = errorLogs st.
Proof. destruct side; reflexivity. Qed.

(** The error entries a resumption adds: the terminal failure when the
    unit gives up, nothing otherwise. *)
Lemma resumed_errors side a st r :
  resumed side a st r ->
  (errorLogs (snd r) = errorLogs st)
  \/ (fst r = Resolved None
      /\ errorLogs (snd r) = errorLogs st ++ [terminalFailure side]).
Proof.
  destruct 1 as [ | e He | e Hne | e He | content | u Hle Hab | Hlt]; cbn [fst snd].
  - now left.
  - now left.
  - left. rewrite errorLogs_call, errorLogs_addLog. cbn. now rewrite !app_nil_r.
  - right. split; [reflexivity|].
    rewrite errorLogs_addLog, errorLogs_setStatus, errorLogs_addLog. cbn.
    now rewrite app_nil_r.
  - left. apply errorLogs_setStatus.
  - left. rewrite errorLogs_call, errorLogs_setStatus. cbn. now rewrite app_nil_r.
  - now left.
Qed.

Lemma errorLogs_onRejected e st :
  isAbort e = true -> errorLogs (onRejected e st) = errorLogs st.
Proof.
  intro He. unfold onRejected. rewrite He.
  transitivity (errorLogs (addLog terminatedMsg LWarning st)); [reflexivity|].
  rewrite errorLogs_addLog. cbn. now rewrite app_nil_r.
Qed.

Lemma suspended_not_listed st0 s sides side a :
  errorsInv st0 s sides -> pcIndex (unitOf side s) = Some a -> ~ In side sides.
Proof.
  intros (_ & _ & Hu) Hpc Hin. rewrite (Hu side Hin) in Hpc. discriminate.
Qed.

Lemma unitOf_resume_other side side' r s :
  side' <> side -> unitOf side' (resume side r s) = unitOf side' s.
Proof. destruct side, side'; intro H; try congruence; reflexivity. Qed.

Lemma errorsInv_step st0 s s' sides :
  sessionOk s -> step urlA urlB s s' -> errorsInv st0 s sides ->
  exists sides', errorsInv st0 s' sides'.
Proof.
  intros Hok Hstep Hinv.
  apply step_cases in Hstep
    as [(side & a & r & Hpc & Hr & ->) | [-> | [(now & ->)
       | [(cA & cB & Haw & HA & HB & ->) | (e & Haw & Hall & ->)]]]].
  - pose proof (@suspended_not_listed st0 s sides side a Hinv Hpc) as Hnot.
    destruct Hinv as (Hnd & Hel & Hu).
    assert (Hkeep : forall side', In side' sides ->
                      unitOf side' (resume side r s) = Resolved None).
    { intros side' Hin. rewrite unitOf_resume_other; [now apply Hu|].
      intros ->. contradiction. }
    destruct (resumed_errors Hr) as [E | [Hnone E]].
    + exists sides. split; [exact Hnd|]. split; [|exact Hkeep].
      rewrite store_resume, E. exact Hel.
    + exists (sides ++ [side]). split; [|split].
      * apply NoDup_app; [exact Hnd | repeat constructor; intros [] |].
        intros x Hx [<- | []]. contradiction.
      * rewrite store_resume, E, Hel, map_app, <- app_assoc. reflexivity.
      * intros side' Hin. apply in_app_or in Hin as [Hin | [<- | []]];
          [now apply Hkeep|]. now rewrite unitOf_resume.
  - exists sides. destruct Hinv as (Hnd & Hel & Hu). split; [exact Hnd|].
    split; [|intros side Hin; specialize (Hu side Hin); destruct side; exact Hu].
    rewrite <- Hel. unfold afterCancel, handleCancelSync, cancel, errorLogs.
    cbn [store withStore]. destruct (controller (store s)); reflexivity.
  - exists sides. destruct Hinv as (Hnd & Hel & Hu). split; [exact Hnd|].
    split; [exact Hel|]. intros side Hin. specialize (Hu side Hin).
    destruct side; exact Hu.
  - exists sides. destruct Hinv as (Hnd & Hel & Hu). split; [exact Hnd|].
    split; [|intros side Hin; specialize (Hu side Hin); destruct side; exact Hu].
    cbn [store].
    transitivity (errorLogs (aggregate B cB (aggregate A cA (store s))));
      [reflexivity|]. now rewrite !errorLogs_aggregate.
  - exists sides. destruct Hinv as (Hnd & Hel & Hu). split; [exact Hnd|].
    split; [|intros side Hin; specialize (Hu side Hin); destruct side; exact Hu].
    cbn [store].
    transitivity (errorLogs (onRejected e (store s))); [reflexivity|].
    rewrite errorLogs_onRejected; [exact Hel|].
    now apply (@AllSettled_abort s e).
Qed.

Lemma errorsInv_start st0 s0 :
  handleSyncFromUrls urlA urlB st0 = Running s0 -> errorsInv st0 s0 [].
Proof.
  unfold handleSyncFromUrls.
  destruct (isSyncing st0); [discriminate|].
  destruct (negb (nonEmpty urlA) && negb (nonEmpty urlB)); [discriminate|].
  unfold fetchWithRetry, loopHead. cbn [Nat.leb Nat.eqb].
  destruct (nonEmpty urlA), (nonEmpty urlB); cbn;
    intro H; injection H as <-; (split; [constructor|]); (split; [|intros ? []]);
    unfold errorLogs; cbn; rewrite ?filter_app; cbn; now rewrite ?app_nil_r.
Qed.

Lemma sides_at_most_two (sides : list Side) : NoDup sides -> List.length sides <= 2.
Proof.
  intro H.
  assert (Hincl : incl sides [A; B]) by (intros [|] _; cbn; auto).
  exact (NoDup_incl_length H Hincl).
Qed.

(** X25: the only error entries a synchronize session adds to the log
    are terminal failures of its units: at most one for each side, and
    only for a side whose unit has returned null.  The coordinator's
    [aborted unexpectedly] entry is never written, since a unit rejects
    with an abort error only. *)
Theorem session_errors_are_terminal_failures st0 s0 s :
  handleSyncFromUrls urlA urlB st0 = Running s0 ->
  steps urlA urlB s0 s ->
  exists sides,
    errorLogs (store s) = errorLogs st0 ++ map terminalFailure sides
    /\ NoDup sides /\ List.length sides <= 2
    /\ forall side, In side sides -> unitOf side s = Resolved None.
Proof.
  intros Hstart Hsteps.
  assert (H : exists sides, errorsInv st0 s sides).
  { induction Hsteps as [s | s1 s2 s3 H12 IH H23].
    - exists []. now apply errorsInv_start.
    - destruct (IH Hstart) as (sides & Hinv).
      apply (@errorsInv_step st0 s2 s3 sides); [|exact H23|exact Hinv].
      apply (@steps_ok urlA urlB s1 s2); [|exact H12].
      exact (proj1 (@start_ok urlA urlB st0 s1 Hstart)). }
  destruct H as (sides & Hnd & Hel & Hu).
  exists sides. split; [exact Hel|]. split; [exact Hnd|].
  split; [now apply sides_at_most_two | exact Hu].
Qed.

End ErrorFacts.

Section AgreeFacts.
Import Js Regex Trace Observe Console.

Lemma kept_without_blank_filter l :
  filter (test Part000.PROXY_REGEX) (filter Part000.nonEmpty l)
  = filter (test Part000.PROXY_REGEX) l.
Proof.
  induction l as [|x l IH]; [reflexivity|]. cbn [filter].
  destruct x as [|c x].
  - cbn [Part000.nonEmpty List.length Nat.ltb Nat.leb].
    replace (test Part000.PROXY_REGEX []) with false by (vm_compute; reflexivity).
    exact IH.
  - change (Part000.nonEmpty (c :: x)) with true. cbn [filter].
    now rewrite IH.
Qed.

(** X23: [handleStopBot] sets the status to [Connected] and leaves the
    counter and the chart alone, but it does not clear [isProcessing]:
    while the start handler is still in flight, a start pressed after a
    stop is ignored. *)
Theorem stop_does_not_release_start label a :
  isProcessing a = true ->
  runStatus (handleStopBot a) = Connected
  /\ simulator (handleStopBot a) = simulator a
  /\ handleStartBot label (handleStopBot a) = StartIgnored.
Proof.
  intro H. unfold handleStopBot, handleStartBot. cbn. now rewrite H.
Qed.

End AgreeFacts.

Section CoordinatorsAgree.
Import Js Regex Part000 Trace Observe.

Lemma legacy_late_run :
  Legacy.steps sampleUrl sampleUrl legacyLate legacyLateSettled.
Proof.
  apply (@Legacy.steps_cons _ _ legacyLate legacyLateRejected legacyLateSettled).
  apply (@Legacy.steps_cons _ _ legacyLate (afterCancel legacyLateRead)
           legacyLateRejected).
  apply (@Legacy.steps_cons _ _ legacyLate legacyLateRead (afterCancel legacyLateRead)).
  apply (@Legacy.steps_cons _ _ legacyLate legacyLateAnswered legacyLateRead).
  apply (@Legacy.steps_cons _ _ legacyLate legacyLate legacyLateAnswered).
  - apply Legacy.steps_refl.
  - apply (@Legacy.StepFetch sampleUrl sampleUrl A 0 (Response true 200 (lit "OK"))
             legacyLate eq_refl).
    intro H. discriminate H.
  - apply (@Legacy.StepText sampleUrl sampleUrl A 0 (Body sampleBody)
             legacyLateAnswered eq_refl).
    intro H. discriminate H.
  - apply Legacy.StepCancel.
  - apply (@Legacy.StepFetch sampleUrl sampleUrl B 0 (FetchRejected domAbort)
             (afterCancel legacyLateRead)).
    + vm_compute. reflexivity.
    + intros _. exists domAbort. split; reflexivity.
  - apply (@Legacy.StepSettled sampleUrl sampleUrl legacyLateRejected);
      vm_compute; reflexivity.
Defined.

Lemma legacy_aggregate_lists side c st :
  proxiesLeft (Legacy.aggregate side (Resolved c) st)
  = proxiesLeft (Part000.aggregate side c st)
  /\ proxiesRight (Legacy.aggregate side (Resolved c) st)
     = proxiesRight (Part000.aggregate side c st).
Proof.
  destruct c as [content|]; [|split; reflexivity].
  unfold Legacy.aggregate, Part000.aggregate.
  change IndexTsx.nonEmpty with Part000.nonEmpty.
  change IndexTsx.PROXY_REGEX with Part000.PROXY_REGEX.
  destruct (Part000.nonEmpty content); [|split; reflexivity].
  unfold Part000.trimmedLines. rewrite kept_without_blank_filter.
  destruct (_ && _); destruct side; split; reflexivity.
Qed.

Lemma aggregate_lists_only side c st st' :
  proxiesLeft st = proxiesLeft st' -> proxiesRight st = proxiesRight st' ->
  proxiesLeft (Part000.aggregate side c st) = proxiesLeft (Part000.aggregate side c st')
  /\ proxiesRight (Part000.aggregate side c st)
     = proxiesRight (Part000.aggregate side c st').
Proof.
  intros HL HR. destruct c as [content|]; [|now split].
  unfold Part000.aggregate. destruct (Part000.nonEmpty content); [|now split].
  destruct (_ && _); destruct side; split; cbn; assumption || reflexivity.
Qed.

(** X24: from the same state with both units fulfilled, what the two
    files run after their await ([forEach] and [finally]) leaves the same
    two proxy lists: dropping blank lines before the pattern test, as
    [part_000] does, changes nothing.  The coordinators differ when a
    unit rejects: after the same events (side A answered with the sample
    body, cancel, side B rejected) the older file, on
    [Promise.allSettled], has written list A, and [part_000], on
    [Promise.all], has left it as it was. *)
Theorem aggregate_files_agree :
  (forall s side,
     bothResolved s = true ->
     proxies side (store (settledByLegacy s)) = proxies side (store (aggregated s)))
  /\ (Legacy.steps sampleUrl sampleUrl legacyLate legacyLateSettled
      /\ steps sampleUrl sampleUrl lateSession lateCaught
      /\ unitOf A legacyLateSettled = Resolved (Some sampleBody)
      /\ unitOf A lateCaught = Resolved (Some sampleBody)
      /\ proxies A (store legacyLateSettled) = join [newline] (keptLines sampleBody)
      /\ proxies A (store lateCaught) = lit "1.2.3.4:80").
Proof.
  split.
  - intros s side Hb.
    destruct (bothResolved_units s Hb) as [HA HB].
    unfold settledByLegacy, aggregated. cbn [store]. unfold finally.
    rewrite HA, HB. cbn [contentOf].
    set (cA := contentOf (unitA s)). set (cB := contentOf (unitB s)).
    destruct (legacy_aggregate_lists A cA (store s)) as [L1 R1].
    destruct (legacy_aggregate_lists B cB (Legacy.aggregate A (Resolved cA) (store s)))
      as [L2 R2].
    destruct (@aggregate_lists_only B cB _ _ L1 R1) as [L3 R3].
    destruct side.
    + change (proxies A (withController false ?st)) with (proxiesLeft st).
      congruence.
    + change (proxies B (withController false ?st)) with (proxiesRight st).
      congruence.
  - split; [exact legacy_late_run|]. split; [exact late_run|].
    repeat split.
Qed.

End CoordinatorsAgree.

Section LaterExamples.
Import Js Part000 Trace Observe Console.

(** X24, witness: the session with a URL for side A only, at the
    await with both units returned. *)
Lemma aggregate_files_agree_witness :
  proxies A (store (settledByLegacy sampleOnlyA_read))
  = proxies A (store (aggregated sampleOnlyA_read)).
Proof.
  exact (proj1 aggregate_files_agree sampleOnlyA_read A eq_refl).
Defined.

(** X25, witness: the session whose side A was answered at once logs no
    error. *)
Lemma session_errors_are_terminal_failures_witness :
  exists sides,
    errorLogs (store sampleOnlyA_done)
    = errorLogs initialStore ++ map terminalFailure sides
    /\ List.length sides <= 2.
Proof.
  destruct (@session_errors_are_terminal_failures sampleUrl [] initialStore
              sampleOnlyA sampleOnlyA_done eq_refl sampleOnlyA_run)
    as (sides & H1 & _ & H3 & _).
  exists sides. split; assumption.
Defined.

(** X23, witness: the sample console while its start handler runs. *)
Lemma stop_does_not_release_start_witness :
  handleStartBot (lit "12:00") (handleStopBot (withProcessing true sampleApp))
  = StartIgnored.
Proof.
  exact (proj2 (proj2 (@stop_does_not_release_start (lit "12:00")
                         (withProcessing true sampleApp) eq_refl))).
Defined.

End LaterExamples.
